(** * A shallow embedding of the nuuanu seeding tool (src/App.tsx, src/types.ts,
    src/utils.ts) and its verification.

    JavaScript strings are modelled as sequences of UTF-16 code units
    ([list Z]); the few JavaScript values that reach the CSV export and the
    storage estimate are modelled by [jsval]. *)

From Stdlib Require Import String Ascii ZArith List Bool Lia Permutation Sorted.
Import ListNotations.
Open Scope Z_scope.
Open Scope list_scope.
#[local] Set Warnings "-register-all".

(* ------------------------------------------------------------------ *)
(** ** JavaScript primitives *)

Module JS.

(** A JavaScript string: its UTF-16 code units. *)
Definition jsstr := list Z.

(** ASCII literal to code units, for writing constants. *)
Definition u (s : string) : jsstr :=
  map (fun c => Z.of_nat (nat_of_ascii c)) (list_ascii_of_string s).

Fixpoint jsstr_eqb (a b : jsstr) : bool :=
  match a, b with
  | [], [] => true
  | x :: a', y :: b' => (x =? y) && jsstr_eqb a' b'
  | _, _ => false
  end.

(** WhiteSpace and LineTerminator code points of ECMAScript, as removed by
    [String.prototype.trim] and skipped by [parseInt]. *)
Definition is_js_space (c : Z) : bool :=
  (c =? 9) || (c =? 10) || (c =? 11) || (c =? 12) || (c =? 13) ||
  (c =? 32) || (c =? 160) || (c =? 5760) || ((8192 <=? c) && (c <=? 8202)) ||
  (c =? 8232) || (c =? 8233) || (c =? 8239) || (c =? 8287) ||
  (c =? 12288) || (c =? 65279).

Fixpoint trimStart (s : jsstr) : jsstr :=
  match s with
  | c :: s' => if is_js_space c then trimStart s' else s
  | [] => []
  end.

Definition trimEnd (s : jsstr) : jsstr := rev (trimStart (rev s)).

(** [String.prototype.trim]. *)
Definition trim (s : jsstr) : jsstr := trimEnd (trimStart s).

(** Lower-case mapping of one code unit. The model covers the Basic Latin
    and Latin-1 letters; other code units (Hangul among them) are left as
    they are. *)
Definition lower_cu (c : Z) : Z :=
  if ((65 <=? c) && (c <=? 90)) ||
     ((192 <=? c) && (c <=? 222) && negb (c =? 215))
  then c + 32 else c.

(** [String.prototype.toLowerCase]. *)
Definition toLowerCase (s : jsstr) : jsstr := map lower_cu s.

(** The JavaScript values the modelled code handles. Numbers that occur
    here are integral; [JNaN] is the not-a-number value. *)
Inductive jsval :=
| JUndefined
| JNull
| JBool (b : bool)
| JNumber (n : Z)
| JNaN
| JString (s : jsstr).

(** ToBoolean. *)
Definition truthy (v : jsval) : bool :=
  match v with
  | JUndefined | JNull | JNaN => false
  | JBool b => b
  | JNumber n => negb (n =? 0)
  | JString s => negb (jsstr_eqb s [])
  end.

(** [a || b]. *)
Definition js_or (a b : jsval) : jsval := if truthy a then a else b.

(** Decimal digits of a non-negative integer, most significant first;
    [fuel] bounds the number of digits. *)
Fixpoint dec_digits (fuel : nat) (n : Z) (acc : jsstr) : jsstr :=
  match fuel with
  | O => acc
  | S f =>
    let acc' := (48 + n mod 10) :: acc in
    if n <? 10 then acc' else dec_digits f (n / 10) acc'
  end.

(** [Number.prototype.toString] on an integral number. *)
Definition number_to_string (n : Z) : jsstr :=
  if n <? 0 then 45 :: dec_digits (S (Z.to_nat (Z.log2 (- n)))) (- n) []
  else dec_digits (S (Z.to_nat (Z.log2 n))) n [].

(** [String(v)]. *)
Definition ToString (v : jsval) : jsstr :=
  match v with
  | JUndefined => u "undefined"
  | JNull => u "null"
  | JBool true => u "true"
  | JBool false => u "false"
  | JNumber n => number_to_string n
  | JNaN => u "NaN"
  | JString s => s
  end.

(** [typeof v]. *)
Definition typeof (v : jsval) : jsstr :=
  match v with
  | JUndefined => u "undefined"
  | JNull => u "object"
  | JBool _ => u "boolean"
  | JNumber _ | JNaN => u "number"
  | JString _ => u "string"
  end.

End JS.
Import JS.

(* ------------------------------------------------------------------ *)
(** ** Data model (src/types.ts) *)

Inductive ShippingStatus := PREPARING | SHIPPED.

Module Product.
Record t := mk {
  id : jsstr;
  name : jsstr;
  price : jsstr;
  options : list jsstr;
  description : jsstr;
  images : list jsstr
}.
End Product.

Module ShippingEntry.
Record t := mk {
  id : jsstr;
  status : ShippingStatus;
  submitDate : jsstr;
  instagramId : jsstr;
  name : jsstr;
  phone : jsstr;
  address : jsstr;
  message : jsstr;
  extra : jsstr;
  productName : jsstr;
  size : jsstr;
  quantity : Z;
  adminMemo : jsstr
}.
End ShippingEntry.

Module Collection.
Record t := mk {
  id : jsstr;
  name : jsstr;
  accessCode : jsstr;
  maxProducts : Z;
  logoUrl : option jsstr;
  lookbookImages : list jsstr;
  descriptionTitle : jsstr;
  descriptionBody : jsstr;
  products : list Product.t;
  shippingEntries : list ShippingEntry.t
}.

(** [{ ...c, shippingEntries: es }] *)
Definition with_shippingEntries (c : t) (es : list ShippingEntry.t) : t :=
  mk (id c) (name c) (accessCode c) (maxProducts c) (logoUrl c)
     (lookbookImages c) (descriptionTitle c) (descriptionBody c)
     (products c) es.

(** [{ ...c, maxProducts: m }] *)
Definition with_maxProducts (c : t) (m : Z) : t :=
  mk (id c) (name c) (accessCode c) m (logoUrl c)
     (lookbookImages c) (descriptionTitle c) (descriptionBody c)
     (products c) (shippingEntries c).
End Collection.

Module CartItem.
Record t := mk {
  productId : jsstr;
  productName : jsstr;
  size : jsstr;
  image : jsstr
}.
End CartItem.

Module AppState.
Record t := mk {
  collections : list Collection.t;
  activeCollectionId : option jsstr;
  adminAccessCode : jsstr
}.

Definition with_collections (st : t) (cs : list Collection.t) : t :=
  mk cs (activeCollectionId st) (adminAccessCode st).
End AppState.

(** What a handler shows the user: a blocking [alert], a toast through
    [notify], or nothing. *)
Inductive ui_effect :=
| Alert (msg : jsstr)
| NotifySuccess (msg : jsstr)
| NotifyError (msg : jsstr)
| NoNotice.

(* ------------------------------------------------------------------ *)
(** ** Login (App.handleLogin) *)

Inductive login_result :=
| AsAdmin
| AsInfluencer (c : Collection.t)
| Denied.

(** The collection test of [state.collections.find]. *)
Definition code_matches (code : jsstr) (c : Collection.t) : bool :=
  jsstr_eqb (toLowerCase (Collection.accessCode c)) code.

(** [handleLogin]: the role it selects and the application state, which
    it never writes. *)
Definition handleLogin (accessCodeInput : jsstr) (state : AppState.t)
  : login_result * AppState.t :=
  let code := toLowerCase (trim accessCodeInput) in
  if jsstr_eqb code (toLowerCase (AppState.adminAccessCode state))
  then (AsAdmin, state)
  else
    match find (code_matches code) (AppState.collections state) with
    | Some matched => (AsInfluencer matched, state)
    | None => (Denied, state)
    end.

(** The notice [handleLogin] raises. *)
Definition handleLogin_notice (r : login_result) : ui_effect :=
  match r with
  | Denied => NotifyError (u "Invalid Access Code")
  | _ => NoNotice
  end.

(* ------------------------------------------------------------------ *)
(** ** Influencer page (InfluencerPage) *)

Inductive InfluencerView := Lookbook | ProductDetail | CartView | Success.

Module FormData.
Record t := mk {
  instagramId : jsstr;
  name : jsstr;
  phone : jsstr;
  address : jsstr;
  message : jsstr;
  extra : jsstr;
  agreed : bool
}.
Definition empty : t := mk [] [] [] [] [] [] false.
End FormData.

(** The state of one influencer session: the page's own state and the
    cart, which the page receives from [App] together with [setCart]. *)
Module Session.
Record t := mk {
  view : InfluencerView;
  selectedProduct : option Product.t;
  selectedSize : jsstr;
  formData : FormData.t;
  cart : list CartItem.t
}.

(** A session as it starts after login: [App] starts with an empty cart and
    [handleLogout] empties it again. *)
Definition initial : t := mk Lookbook None [] FormData.empty [].
End Session.

Definition placeholder_image : jsstr := u "https://picsum.photos/seed/nuuanu/400/600".

(** [selectedProduct.images[0] || placeholder] *)
Definition first_image (p : Product.t) : jsstr :=
  match Product.images p with
  | x :: _ => if jsstr_eqb x [] then placeholder_image else x
  | [] => placeholder_image
  end.

(** [handleNavigate]: the scroll bookkeeping has no effect on the state. *)
Definition handleNavigate (v : InfluencerView) (s : Session.t) : Session.t :=
  Session.mk v (Session.selectedProduct s) (Session.selectedSize s)
    (Session.formData s) (Session.cart s).

(** [addToCart] *)
Definition addToCart (collection : Collection.t) (s : Session.t)
  : ui_effect * Session.t :=
  match Session.selectedProduct s with
  | None => (Alert (u "Please select a size preference."), s)
  | Some p =>
    if jsstr_eqb (Session.selectedSize s) []
    then (Alert (u "Please select a size preference."), s)
    else if Z.of_nat (length (Session.cart s)) >=? Collection.maxProducts collection
    then (Alert (u "You've reached the selection limit of " ++
                 number_to_string (Collection.maxProducts collection) ++
                 u " products."), s)
    else
      let cart' := Session.cart s ++
        [CartItem.mk (Product.id p) (Product.name p) (Session.selectedSize s)
                     (first_image p)] in
      let s1 := handleNavigate Lookbook s in
      (NotifySuccess (u "Successfully added to selection"),
       Session.mk (Session.view s1) None [] (Session.formData s1) cart')
  end.

(** The remove button of the cart view: [cart.filter((_, i) => i !== idx)]. *)
Fixpoint remove_index {A} (idx : nat) (l : list A) : list A :=
  match l, idx with
  | [], _ => []
  | _ :: r, O => r
  | x :: r, S k => x :: remove_index k r
  end.

Definition removeFromCart (idx : nat) (s : Session.t) : Session.t :=
  Session.mk (Session.view s) (Session.selectedProduct s) (Session.selectedSize s)
    (Session.formData s) (remove_index idx (Session.cart s)).

Definition selectProduct (p : option Product.t) (s : Session.t) : Session.t :=
  Session.mk (Session.view s) p (Session.selectedSize s)
    (Session.formData s) (Session.cart s).

Definition selectSize (sz : jsstr) (s : Session.t) : Session.t :=
  Session.mk (Session.view s) (Session.selectedProduct s) sz
    (Session.formData s) (Session.cart s).

Definition setFormData (f : FormData.t) (s : Session.t) : Session.t :=
  Session.mk (Session.view s) (Session.selectedProduct s) (Session.selectedSize s)
    f (Session.cart s).

(** [new Date().toISOString().split('T')[0]] from the ISO timestamp. *)
Fixpoint date_part (iso : jsstr) : jsstr :=
  match iso with
  | [] => []
  | c :: r => if c =? 84 then [] else c :: date_part r
  end.

(** The entry [handleSubmit] builds from one cart item. *)
Definition entry_of_item (newId today : jsstr) (f : FormData.t) (item : CartItem.t)
  : ShippingEntry.t :=
  ShippingEntry.mk newId PREPARING today
    (FormData.instagramId f) (FormData.name f) (FormData.phone f)
    (FormData.address f) (FormData.message f) (FormData.extra f)
    (CartItem.productName item) (CartItem.size item) 1 [].

(** [cart.map(...)]: [gen k] is the value of the [k]-th call of
    [generateId]. *)
Fixpoint build_entries (gen : nat -> jsstr) (k : nat) (today : jsstr)
    (f : FormData.t) (items : list CartItem.t) : list ShippingEntry.t :=
  match items with
  | [] => []
  | it :: r => entry_of_item (gen k) today f it :: build_entries gen (S k) today f r
  end.

(** [onSubmission] of [App]: append the entries to the active collection. *)
Definition onSubmission (activeCollection : Collection.t)
    (newEntries : list ShippingEntry.t) : Collection.t :=
  Collection.with_shippingEntries activeCollection
    (Collection.shippingEntries activeCollection ++ newEntries).

(** [handleSubmit]: the notice, the collection after [onSubmission], and
    the session. *)
Definition handleSubmit (gen : nat -> jsstr) (now_iso : jsstr)
    (collection : Collection.t) (s : Session.t)
  : ui_effect * Collection.t * Session.t :=
  let f := Session.formData s in
  if jsstr_eqb (FormData.instagramId f) [] || jsstr_eqb (FormData.name f) [] ||
     jsstr_eqb (FormData.phone f) [] || jsstr_eqb (FormData.address f) [] ||
     negb (FormData.agreed f)
  then (Alert (u "Please complete all required fields and accept the terms."),
        collection, s)
  else
    let newEntries := build_entries gen 0 (date_part now_iso) f (Session.cart s) in
    let collection' := onSubmission collection newEntries in
    let s1 := handleNavigate Success s in
    (NoNotice, collection',
     Session.mk (Session.view s1) (Session.selectedProduct s1)
       (Session.selectedSize s1) (Session.formData s1) []).

(** The actions of an influencer session that touch the cart or the
    collection. *)
Inductive session_op :=
| OpSelectProduct (p : option Product.t)
| OpSelectSize (sz : jsstr)
| OpSetForm (f : FormData.t)
| OpNavigate (v : InfluencerView)
| OpAddToCart
| OpRemoveFromCart (idx : nat)
| OpSubmit (gen : nat -> jsstr) (now_iso : jsstr).

Definition session_step (cs : Collection.t * Session.t) (op : session_op)
  : Collection.t * Session.t :=
  let (c, s) := cs in
  match op with
  | OpSelectProduct p => (c, selectProduct p s)
  | OpSelectSize sz => (c, selectSize sz s)
  | OpSetForm f => (c, setFormData f s)
  | OpNavigate v => (c, handleNavigate v s)
  | OpAddToCart => (c, snd (addToCart c s))
  | OpRemoveFromCart idx => (c, removeFromCart idx s)
  | OpSubmit gen now =>
    let '(_, c', s') := handleSubmit gen now c s in (c', s')
  end.

Definition run_session (c : Collection.t) (ops : list session_op)
  : Collection.t * Session.t :=
  fold_left session_step ops (c, Session.initial).

(* ------------------------------------------------------------------ *)
(** ** Admin dashboard (AdminDashboard) *)

(** The sentinel [submitDate] of an added entry: '추가 제품'. *)
Definition extra_sentinel : jsstr := [52628; 44032; 32; 51228; 54408].

(** The copy made by the "Duplicate Entry" button:
    [{ ...entry, id: generateId(), submitDate: '추가 제품', productName: '',
    size: '' }], [newId] being the value [generateId()] returned. *)
Definition duplicate_of (newId : jsstr) (entry : ShippingEntry.t) : ShippingEntry.t :=
  ShippingEntry.mk newId (ShippingEntry.status entry) extra_sentinel
    (ShippingEntry.instagramId entry) (ShippingEntry.name entry)
    (ShippingEntry.phone entry) (ShippingEntry.address entry)
    (ShippingEntry.message entry) (ShippingEntry.extra entry)
    [] [] (ShippingEntry.quantity entry) (ShippingEntry.adminMemo entry).

(** The click handler of the "Duplicate Entry" button of [entry]. *)
Definition onDuplicateEntry (newId : jsstr) (collection : Collection.t)
    (entry : ShippingEntry.t) : ui_effect * Collection.t :=
  let copy := duplicate_of newId entry in
  (NotifySuccess (u "Entry duplicated (Fields cleared)"),
   Collection.with_shippingEntries collection
     (Collection.shippingEntries collection ++ [copy])).

(** Value of a digit in radix up to 36; 36 for a non-digit. *)
Definition digit_value (c : Z) : Z :=
  if (48 <=? c) && (c <=? 57) then c - 48
  else if (97 <=? c) && (c <=? 122) then c - 87
  else if (65 <=? c) && (c <=? 90) then c - 55
  else 36.

(** The longest prefix of digits of [radix], read as a number; [None] when
    there is no digit at all. *)
Fixpoint digits_prefix (radix : Z) (s : jsstr) (acc : Z) (seen : bool) : option Z :=
  match s with
  | c :: r =>
    if digit_value c <? radix
    then digits_prefix radix r (acc * radix + digit_value c) true
    else if seen then Some acc else None
  | [] => if seen then Some acc else None
  end.

(** The global [parseInt(string)] without radix: leading white space, an
    optional sign, an optional [0x] prefix, then the longest run of digits;
    [NaN] when there is no digit. Results are kept exact (a long digit run
    would be rounded to a double by JavaScript). *)
Definition parseInt (s : jsstr) : jsval :=
  let s1 := trimStart s in
  let '(sign, s2) :=
    match s1 with
    | c :: r => if c =? 45 then (-1, r) else if c =? 43 then (1, r) else (1, s1)
    | [] => (1, s1)
    end in
  let '(radix, s3) :=
    match s2 with
    | c0 :: c1 :: r =>
      if (c0 =? 48) && ((c1 =? 120) || (c1 =? 88)) then (16, r) else (10, s2)
    | _ => (10, s2)
    end in
  match digits_prefix radix s3 0 false with
  | Some v => JNumber (sign * v)
  | None => JNaN
  end.

(** [handleUpdate]: merge the fields and save. *)
Definition handleUpdate (collection : Collection.t) (updated : Collection.t)
  : ui_effect * Collection.t :=
  (NotifySuccess (u "Changes Saved"), updated).

(** The number [parseInt(value) || 1] evaluates to. *)
Definition maxProducts_input (value : jsstr) : Z :=
  match js_or (parseInt value) (JNumber 1) with
  | JNumber z => z
  | _ => 1 (* not reached: [JNumber 1] is truthy *)
  end.

(** [onChange] of the "Selection Limit" field, [value] being
    [e.target.value]. *)
Definition onMaxProductsChange (collection : Collection.t) (value : jsstr)
  : ui_effect * Collection.t :=
  handleUpdate collection
    (Collection.with_maxProducts collection (maxProducts_input value)).

(* ------------------------------------------------------------------ *)
(** ** Storage usage (utils.getStorageUsage) *)

(** The items of [localStorage]: the own keys that [for ... in] with the
    [hasOwnProperty] test visits (the test drops the [Storage] methods that
    [for ... in] also enumerates), with their values. *)
Definition Storage := list (jsstr * jsstr).

(** [total] after the loop. *)
Definition storage_total (ls : Storage) : Z :=
  fold_left (fun total '(x, v) => total + (Z.of_nat (length v) + Z.of_nat (length x)) * 2)
    ls 0.

(** [x.toFixed(2)] for [x = total / (1024 * 1024)], [total >= 0]: the
    integer [n] nearest to [100 * x] (the larger one on a tie), written
    with two decimals. The division by a power of two is exact. *)
Definition toFixed2_hundredths (total : Z) : Z :=
  (200 * total + 1048576) / 2097152.

Definition toFixed2 (total : Z) : jsstr :=
  let n := toFixed2_hundredths total in
  let frac := n mod 100 in
  number_to_string (n / 100) ++ [46; 48 + frac / 10; 48 + frac mod 10].

(** [getStorageUsage()] *)
Definition getStorageUsage (ls : Storage) : jsval :=
  JString (toFixed2 (storage_total ls)).

Definition MAX_STORAGE_MB : Z := 5.

(** [parseFloat] on a string of the form [digits.digits], as the exact
    fraction [num / den]; [None] for other strings. *)
Fixpoint read_digits (s : jsstr) (num den : Z) : Z * Z * jsstr :=
  match s with
  | c :: r => if (48 <=? c) && (c <=? 57) then read_digits r (num * 10 + (c - 48)) (den * 10)
              else (num, den, s)
  | [] => (num, den, s)
  end.

Definition parseFloat_decimal (s : jsstr) : option (Z * Z) :=
  match read_digits s 0 1 with
  | (i, _, 46 :: r) =>
    match read_digits r 0 1 with
    | (f, d, []) => Some (i * d + f, d)
    | _ => None
    end
  | (i, _, []) => Some (i, 1)
  | _ => None
  end.

(** [parseFloat(getStorageUsage()) >= MAX_STORAGE_MB * 0.95]. The right
    side evaluates to the double 4.75 = 19/4 exactly, and a two-decimal
    string reads as a double on the same side of 4.75 as its exact value. *)
Definition storage_nearly_full (ls : Storage) : bool :=
  match getStorageUsage ls with
  | JString str =>
    match parseFloat_decimal str with
    | Some (num, den) => 19 * den <=? num * 4
    | None => false
    end
  | _ => false
  end.

(* ------------------------------------------------------------------ *)
(** ** Creating a collection (App.createCollection) *)

(** [generateId()] is [Math.random().toString(36).substr(2, 9)]; [r] is the
    string [Math.random().toString(36)] produced. *)
Definition generateId (r : jsstr) : jsstr := firstn 9 (skipn 2 r).

(** [createCollection]: [r1] and [r2] are the strings of the two
    [Math.random().toString(36)] calls, in order, and [ls] the storage. *)
Definition createCollection (newCollectionName : jsstr) (ls : Storage)
    (r1 r2 : jsstr) (state : AppState.t) : ui_effect * AppState.t :=
  let name := trim newCollectionName in
  if jsstr_eqb name [] then (NoNotice, state)
  else if storage_nearly_full ls
  then (NotifyError (u "Storage nearly full. Delete old collections first."), state)
  else
    let newColl :=
      Collection.mk (generateId r1) name (firstn 6 (generateId r2)) 2 None []
        (u "Collection Story") (u "Share the inspiration behind this season.")
        [] [] in
    (NotifySuccess (u "Collection " ++ [34] ++ name ++ [34] ++ u " created"),
     AppState.with_collections state (AppState.collections state ++ [newColl])).

(** [updateCollection(updated)], the [onUpdate] of the dashboard: the
    collections of the state with the one of the id of [updated] replaced,
    and the new [activeCollection]. *)
Definition updateCollection (state : AppState.t) (updated : Collection.t)
  : AppState.t * Collection.t :=
  (AppState.with_collections state
     (map (fun c => if jsstr_eqb (Collection.id c) (Collection.id updated) then updated else c)
          (AppState.collections state)),
   updated).

(** [updateAdminCode(code)]: [setState(prev => ({ ...prev, adminAccessCode:
    code }))], [code] being the raw value of the "Admin Code" field. *)
Definition updateAdminCode (code : jsstr) (state : AppState.t) : AppState.t :=
  AppState.mk (AppState.collections state) (AppState.activeCollectionId state) code.

(** The [onDelete] of the dashboard; [confirmed] is the answer to
    [window.confirm]. [None]: the state is left as it is. *)
Definition onDeleteCollection (confirmed : bool) (state : AppState.t)
    (activeCollection : Collection.t) : option AppState.t :=
  if confirmed then
    Some (AppState.with_collections state
            (filter (fun c => negb (jsstr_eqb (Collection.id c) (Collection.id activeCollection)))
                    (AppState.collections state)))
  else None.

(* ------------------------------------------------------------------ *)
(** ** CSV export (utils.downloadCSV) *)

(** A JavaScript object as the export reads it: property lookup, with
    [undefined] for a missing property. *)
Definition jsobj := list (jsstr * jsval).

Fixpoint get (o : jsobj) (k : jsstr) : jsval :=
  match o with
  | [] => JUndefined
  | (k', v) :: r => if jsstr_eqb k k' then v else get r k
  end.

(** The enum values of [ShippingStatus]: '준비중' and '배송완료'. *)
Definition status_string (st : ShippingStatus) : jsstr :=
  match st with
  | PREPARING => [51456; 48708; 51473]
  | SHIPPED => [48176; 49569; 50756; 47308]
  end.

(** A [ShippingEntry] as a JavaScript object. *)
Definition entry_obj (e : ShippingEntry.t) : jsobj :=
  [(u "id", JString (ShippingEntry.id e));
   (u "status", JString (status_string (ShippingEntry.status e)));
   (u "submitDate", JString (ShippingEntry.submitDate e));
   (u "instagramId", JString (ShippingEntry.instagramId e));
   (u "name", JString (ShippingEntry.name e));
   (u "phone", JString (ShippingEntry.phone e));
   (u "address", JString (ShippingEntry.address e));
   (u "message", JString (ShippingEntry.message e));
   (u "extra", JString (ShippingEntry.extra e));
   (u "productName", JString (ShippingEntry.productName e));
   (u "size", JString (ShippingEntry.size e));
   (u "quantity", JNumber (ShippingEntry.quantity e));
   (u "adminMemo", JString (ShippingEntry.adminMemo e))].

(** [arr.join(sep)] *)
Fixpoint join (sep : jsstr) (l : list jsstr) : jsstr :=
  match l with
  | [] => []
  | [x] => x
  | x :: r => x ++ sep ++ join sep r
  end.

(** The [replace] of [escape]: every double quote (code unit 34) written
    twice. *)
Definition double_quotes (s : jsstr) : jsstr :=
  flat_map (fun c => if c =? 34 then [34; 34] else [c]) s.

(** The text [escape] quotes: [String] of [val], or of the empty string when [val] is falsy. *)
Definition cell_text (val : jsval) : jsstr := ToString (js_or val (JString [])).

(** The string [escape] returns for the text [s]: [s] with its quotes
    doubled, between two quotes. *)
Definition quoted (s : jsstr) : jsstr := [34] ++ double_quotes s ++ [34].

(** [escape] *)
Definition escape (val : jsval) : jsstr := quoted (cell_text val).

(** instagram ID, 이름, 전화번호, 받는분기타연락처, 받는분우편번호, 주소,
    제품명, 사이즈, 수량, 배송메세지1 *)
Definition customHeaders : list jsstr :=
  [u "instagram ID"; [51060; 47492]; [51204; 54868; 48264; 54840];
   [48155; 45716; 48516; 44592; 53440; 50672; 46973; 52376];
   [48155; 45716; 48516; 50864; 54200; 48264; 54840];
   [51452; 49548]; [51228; 54408; 47749]; [49324; 51060; 51592];
   [49688; 47049]; [48176; 49569; 47700; 49464; 51648; 49]].

(** The values [escape] is applied to in [row], in column order. *)
Definition csv_row_values (item : jsobj) : list jsval :=
  [get item (u "instagramId");
   get item (u "name");
   get item (u "phone");
   JString [];
   JString [];
   get item (u "address");
   get item (u "productName");
   get item (u "size");
   js_or (get item (u "quantity")) (JNumber 1);
   get item (u "message")].

(** [row] for one item. *)
Definition csv_row (item : jsobj) : list jsstr := map escape (csv_row_values item).

(** [csvString] *)
Definition csvString (data : list jsobj) : jsstr :=
  join [10] (join [44] customHeaders :: map (fun item => join [44] (csv_row item)) data).

(** *** The blob: the string as a USVString, UTF-8 encoded *)

(** A lead (high) and a trail (low) surrogate code unit. *)
Definition is_lead (c : Z) : bool := (55296 <=? c) && (c <=? 56319).
Definition is_trail (c : Z) : bool := (56320 <=? c) && (c <=? 57343).

(** Every code unit of a string is a 16-bit value. *)
Definition units_ok (s : jsstr) : Prop := Forall (fun c => 0 <= c < 65536) s.

(** The code point of the surrogate pair [hi], [lo]. *)
Definition pair_code_point (hi lo : Z) : Z := 65536 + (hi - 55296) * 1024 + (lo - 56320).

(** The conversion of a string to a USVString (WebIDL): the string read by
    code points, a surrogate pair giving its code point and a lone
    surrogate giving U+FFFD. *)
Fixpoint to_scalars (s : jsstr) : list Z :=
  match s with
  | [] => []
  | c :: r =>
    if is_lead c then
      match r with
      | d :: r' => if is_trail d then pair_code_point c d :: to_scalars r'
                   else 65533 :: to_scalars r
      | [] => [65533]
      end
    else if is_trail c then 65533 :: to_scalars r
    else c :: to_scalars r
  end.

(** The UTF-8 encoding of one code point. *)
Definition utf8_bytes (cp : Z) : list Z :=
  if cp <? 128 then [cp]
  else if cp <? 2048 then [192 + cp / 64; 128 + cp mod 64]
  else if cp <? 65536 then [224 + cp / 4096; 128 + cp / 64 mod 64; 128 + cp mod 64]
  else [240 + cp / 262144; 128 + cp / 4096 mod 64; 128 + cp / 64 mod 64; 128 + cp mod 64].

(** The UTF-16 code units of one code point. *)
Definition utf16_units (cp : Z) : jsstr :=
  if cp <? 65536 then [cp]
  else [55296 + (cp - 65536) / 1024; 56320 + (cp - 65536) mod 1024].

(** The bytes of [new Blob([s])]: the USVString of [s], UTF-8 encoded. *)
Definition blob_bytes (s : jsstr) : list Z := flat_map utf8_bytes (to_scalars s).

(** The USVString of [s] as a string of UTF-16 code units: [s] with every
    lone surrogate replaced by U+FFFD. *)
Definition to_usv (s : jsstr) : jsstr := flat_map utf16_units (to_scalars s).

(** [downloadCSV(filename, data)]: the file name and the bytes of the blob
    it downloads, made from U+FEFF followed by [csvString], or nothing when
    [data] is empty. *)
Definition downloadCSV (filename : jsstr) (data : list jsobj) : option (jsstr * list Z) :=
  match data with
  | [] => None
  | _ => Some (filename, blob_bytes (65279 :: csvString data))
  end.

(** The text fields of a shipping entry the export writes are strings of
    code units. *)
Definition entry_units_ok (e : ShippingEntry.t) : Prop :=
  Forall units_ok
    [ShippingEntry.instagramId e; ShippingEntry.name e; ShippingEntry.phone e;
     ShippingEntry.address e; ShippingEntry.productName e; ShippingEntry.size e;
     ShippingEntry.message e].

(** *** A standard CSV reader (RFC 4180), to read the export back.
    Records end at LF, CR or CRLF outside quotes; a quoted field may hold
    any character, a doubled quote standing for one; a trailing line end
    does not start a record; a leading byte-order mark is dropped. *)
Inductive csv_mode := FieldStart | Unquoted | Quoted | QuoteSeen.

Fixpoint csv_go (s : jsstr) (m : csv_mode) (fld : jsstr) (row : list jsstr)
    (rows : list (list jsstr)) : list (list jsstr) :=
  match s with
  | [] =>
    match m, fld, row with
    | FieldStart, [], [] => rev rows
    | _, _, _ => rev (rev (rev fld :: row) :: rows)
    end
  | c :: r =>
    match m with
    | Quoted =>
      if c =? 34 then csv_go r QuoteSeen fld row rows
      else csv_go r Quoted (c :: fld) row rows
    | _ =>
      if c =? 44 then csv_go r FieldStart [] (rev fld :: row) rows
      else if c =? 10 then csv_go r FieldStart [] [] (rev (rev fld :: row) :: rows)
      else if c =? 13 then
        match r with
        | 10 :: r' => csv_go r' FieldStart [] [] (rev (rev fld :: row) :: rows)
        | _ => csv_go r FieldStart [] [] (rev (rev fld :: row) :: rows)
        end
      else if c =? 34 then
        match m with
        | FieldStart => csv_go r Quoted fld row rows
        | QuoteSeen => csv_go r Quoted (34 :: fld) row rows
        | _ => csv_go r Unquoted (c :: fld) row rows
        end
      else csv_go r Unquoted (c :: fld) row rows
    end
  end.

Definition strip_bom (s : jsstr) : jsstr :=
  match s with
  | 65279 :: r => r
  | _ => s
  end.

Definition csv_read (text : jsstr) : list (list jsstr) :=
  csv_go (strip_bom text) FieldStart [] [] [].

(** *** Reading the file's bytes as text *)

Definition is_cont (b : Z) : bool := (128 <=? b) && (b <? 192).

(** UTF-8 decode without BOM or fail (Encoding standard), giving UTF-16
    code units; [None] on an ill-formed byte sequence. *)
Fixpoint utf8_decode (bs : list Z) : option jsstr :=
  match bs with
  | [] => Some []
  | b1 :: r =>
    if (0 <=? b1) && (b1 <? 128) then option_map (cons b1) (utf8_decode r)
    else if (194 <=? b1) && (b1 <? 224) then
      match r with
      | b2 :: r' =>
        if is_cont b2 then option_map (cons ((b1 - 192) * 64 + (b2 - 128))) (utf8_decode r')
        else None
      | [] => None
      end
    else if (224 <=? b1) && (b1 <? 240) then
      match r with
      | b2 :: b3 :: r' =>
        let cp := (b1 - 224) * 4096 + (b2 - 128) * 64 + (b3 - 128) in
        if is_cont b2 && is_cont b3 && (2048 <=? cp) && negb (is_lead cp || is_trail cp)
        then option_map (cons cp) (utf8_decode r')
        else None
      | _ => None
      end
    else if (240 <=? b1) && (b1 <? 245) then
      match r with
      | b2 :: b3 :: b4 :: r' =>
        let cp := (b1 - 240) * 262144 + (b2 - 128) * 4096 + (b3 - 128) * 64 + (b4 - 128) in
        if is_cont b2 && is_cont b3 && is_cont b4 && (65536 <=? cp) && (cp <=? 1114111)
        then option_map (app (utf16_units cp)) (utf8_decode r')
        else None
      | _ => None
      end
    else None
  end.

(** A Unicode scalar value: a code point that is not a surrogate. *)
Definition scalar (cp : Z) : Prop := 0 <= cp <= 1114111 /\ ~ (55296 <= cp <= 57343).

(** A string with no lone surrogate. *)
Fixpoint lone_free (s : jsstr) : bool :=
  match s with
  | [] => true
  | c :: r =>
    if is_lead c then
      match r with
      | d :: r' => is_trail d && lone_free r'
      | [] => false
      end
    else if is_trail c then false
    else lone_free r
  end.

(* ------------------------------------------------------------------ *)
(** ** Loading the persisted state (the state initialiser of App) *)

(** The values [JSON.parse] produces. A number keeps its lexeme. *)
Inductive json :=
| JSONNull
| JSONBool (b : bool)
| JSONNumber (lexeme : jsstr)
| JSONString (s : jsstr)
| JSONArray (l : list json)
| JSONObject (l : list (jsstr * json)).

Definition is_json_ws (c : Z) : bool := (c =? 9) || (c =? 10) || (c =? 13) || (c =? 32).

Fixpoint skip_ws (s : jsstr) : jsstr :=
  match s with
  | c :: r => if is_json_ws c then skip_ws r else s
  | [] => []
  end.

Fixpoint strip_prefix (p s : jsstr) : option jsstr :=
  match p, s with
  | [], _ => Some s
  | a :: p', b :: s' => if a =? b then strip_prefix p' s' else None
  | _ :: _, [] => None
  end.

Definition is_digit (c : Z) : bool := (48 <=? c) && (c <=? 57).

Definition hex_value (c : Z) : option Z :=
  let d := digit_value c in if d <? 16 then Some d else None.

(** The character a one-letter escape stands for. *)
Definition escape_char (e : Z) : option Z :=
  if (e =? 34) || (e =? 92) || (e =? 47) then Some e
  else if e =? 98 then Some 8
  else if e =? 102 then Some 12
  else if e =? 110 then Some 10
  else if e =? 114 then Some 13
  else if e =? 116 then Some 9
  else None.

(** The rest of a string literal after its opening quote. *)
Fixpoint parse_string_body (s : jsstr) (acc : jsstr) : option (jsstr * jsstr) :=
  match s with
  | [] => None
  | c :: r =>
    if c =? 34 then Some (rev acc, r)
    else if c =? 92 then
      match r with
      | e :: r' =>
        if e =? 117 then
          match r' with
          | h1 :: h2 :: h3 :: h4 :: r'' =>
            match hex_value h1, hex_value h2, hex_value h3, hex_value h4 with
            | Some a, Some b, Some c', Some d =>
              parse_string_body r'' ((((a * 16 + b) * 16 + c') * 16 + d) :: acc)
            | _, _, _, _ => None
            end
          | _ => None
          end
        else
          match escape_char e with
          | Some x => parse_string_body r' (x :: acc)
          | None => None
          end
      | [] => None
      end
    else if c <? 32 then None
    else parse_string_body r (c :: acc)
  end.

Fixpoint span_digits (s : jsstr) : jsstr * jsstr :=
  match s with
  | c :: r =>
    if is_digit c then let (d, rest) := span_digits r in (c :: d, rest) else ([], s)
  | [] => ([], [])
  end.

(** A number literal: [-? (0 | [1-9][0-9]* ) (. [0-9]+)? ([eE] [+-]? [0-9]+)?]. *)
Definition parse_number (s : jsstr) : option (jsstr * jsstr) :=
  let '(sgn, s1) :=
    match s with
    | c :: r => if c =? 45 then ([45], r) else ([], s)
    | [] => ([], s)
    end in
  let int_part :=
    match s1 with
    | c :: r =>
      if c =? 48 then Some ([48], r)
      else if is_digit c then Some (span_digits s1) else None
    | [] => None
    end in
  match int_part with
  | None => None
  | Some (ip, s2) =>
    let frac :=
      match s2 with
      | c :: r =>
        if c =? 46 then
          let (d, s3) := span_digits r in
          match d with [] => None | _ => Some (46 :: d, s3) end
        else Some ([], s2)
      | [] => Some ([], s2)
      end in
    match frac with
    | None => None
    | Some (fp, s3) =>
      let exp :=
        match s3 with
        | c :: r =>
          if (c =? 101) || (c =? 69) then
            let '(es, r1) :=
              match r with
              | c2 :: r2 => if (c2 =? 43) || (c2 =? 45) then ([c2], r2) else ([], r)
              | [] => ([], r)
              end in
            let (d, s4) := span_digits r1 in
            match d with [] => None | _ => Some (c :: es ++ d, s4) end
          else Some ([], s3)
        | [] => Some ([], s3)
        end in
      match exp with
      | None => None
      | Some (ep, s4) => Some (sgn ++ ip ++ fp ++ ep, s4)
      end
    end
  end.

(** A member set on an object under construction: a repeated key keeps its
    first position and takes the last value. *)
Fixpoint obj_set (l : list (jsstr * json)) (k : jsstr) (v : json) : list (jsstr * json) :=
  match l with
  | [] => [(k, v)]
  | (k', v') :: r => if jsstr_eqb k k' then (k', v) :: r else (k', v') :: obj_set r k v
  end.

(** One JSON value after optional white space; [fuel] bounds the nesting
    depth and the number of elements of each array or object. *)
Fixpoint parse_value (fuel : nat) (s : jsstr) : option (json * jsstr) :=
  match fuel with
  | O => None
  | S f =>
    let s := skip_ws s in
    match s with
    | [] => None
    | c :: r =>
      if c =? 110 then
        match strip_prefix (u "ull") r with Some r' => Some (JSONNull, r') | None => None end
      else if c =? 116 then
        match strip_prefix (u "rue") r with Some r' => Some (JSONBool true, r') | None => None end
      else if c =? 102 then
        match strip_prefix (u "alse") r with Some r' => Some (JSONBool false, r') | None => None end
      else if c =? 34 then
        match parse_string_body r [] with
        | Some (str, r') => Some (JSONString str, r')
        | None => None
        end
      else if c =? 91 then
        match skip_ws r with
        | 93 :: r' => Some (JSONArray [], r')
        | _ =>
          (fix elems (g : nat) (t : jsstr) (acc : list json) : option (json * jsstr) :=
             match g with
             | O => None
             | S g' =>
               match parse_value f t with
               | None => None
               | Some (v, t1) =>
                 match skip_ws t1 with
                 | 44 :: t2 => elems g' t2 (v :: acc)
                 | 93 :: t2 => Some (JSONArray (rev (v :: acc)), t2)
                 | _ => None
                 end
               end
             end) f r []
        end
      else if c =? 123 then
        match skip_ws r with
        | 125 :: r' => Some (JSONObject [], r')
        | _ =>
          (fix members (g : nat) (t : jsstr) (acc : list (jsstr * json))
             : option (json * jsstr) :=
             match g with
             | O => None
             | S g' =>
               match skip_ws t with
               | 34 :: t1 =>
                 match parse_string_body t1 [] with
                 | None => None
                 | Some (k, t2) =>
                   match skip_ws t2 with
                   | 58 :: t3 =>
                     match parse_value f t3 with
                     | None => None
                     | Some (v, t4) =>
                       match skip_ws t4 with
                       | 44 :: t5 => members g' t5 (obj_set acc k v)
                       | 125 :: t5 => Some (JSONObject (obj_set acc k v), t5)
                       | _ => None
                       end
                     end
                   | _ => None
                   end
                 end
               | _ => None
               end
             end) f r []
        end
      else
        match parse_number s with
        | Some (lex, r') => Some (JSONNumber lex, r')
        | None => None
        end
    end
  end.

(** [JSON.parse(text)]; [None] when it throws a [SyntaxError]. The fuel is
    the length of the text, which bounds both the nesting depth and the
    element counts. *)
Definition JSON_parse (text : jsstr) : option json :=
  match parse_value (S (length text)) text with
  | Some (v, r) => match skip_ws r with [] => Some v | _ => None end
  | None => None
  end.

Definition STORAGE_KEY : jsstr := u "nuuanu_app_state".

(** [defaultState], as the JSON value it stringifies to. *)
Definition defaultState : json :=
  JSONObject [(u "collections", JSONArray []);
              (u "activeCollectionId", JSONNull);
              (u "adminAccessCode", JSONString (u "admin"))].

(** What [localStorage.getItem(STORAGE_KEY)] does: return [null], return a
    string, or throw. *)
Inductive getItem_result :=
| ItemNull
| ItemString (saved : jsstr)
| ItemThrows.

(** The initialiser of [useState<AppState>]: the state it returns and
    whether it logged a failure with [console.error]. It raises no notice. *)
Definition load (r : getItem_result) : json * bool :=
  match r with
  | ItemThrows => (defaultState, true)
  | ItemNull => (defaultState, false)
  | ItemString saved =>
    if jsstr_eqb saved [] then (defaultState, false)
    else match JSON_parse saved with
         | Some v => (v, false)
         | None => (defaultState, true)
         end
  end.

(* ------------------------------------------------------------------ *)
(** ** Saving the state (the persistence effect of App) *)

(** A hexadecimal digit as [UnicodeEscape] writes it (lower case). *)
Definition hex_digit (d : Z) : Z := if d <? 10 then 48 + d else 87 + d.

(** [UnicodeEscape(n)]: a backslash, [u] and four hexadecimal digits. *)
Definition unicode_escape (n : Z) : jsstr :=
  [92; 117; hex_digit (n / 4096 mod 16); hex_digit (n / 256 mod 16);
   hex_digit (n / 16 mod 16); hex_digit (n mod 16)].

(** The text [QuoteJSONString] writes for one code point that is not a
    surrogate. *)
Definition json_char (c : Z) : jsstr :=
  if c =? 8 then [92; 98]
  else if c =? 9 then [92; 116]
  else if c =? 10 then [92; 110]
  else if c =? 12 then [92; 102]
  else if c =? 13 then [92; 114]
  else if c =? 34 then [92; 34]
  else if c =? 92 then [92; 92]
  else if c <? 32 then unicode_escape c
  else [c].

(** The inside of [QuoteJSONString(value)]: the string is read by code
    points; a surrogate pair is copied, a lone surrogate is escaped. *)
Fixpoint quote_units (s : jsstr) : jsstr :=
  match s with
  | [] => []
  | c :: r =>
    if is_lead c then
      match r with
      | d :: r' =>
        if is_trail d then c :: d :: quote_units r'
        else unicode_escape c ++ quote_units r
      | [] => unicode_escape c
      end
    else if is_trail c then unicode_escape c ++ quote_units r
    else json_char c ++ quote_units r
  end.

Definition QuoteJSONString (s : jsstr) : jsstr := [34] ++ quote_units s ++ [34].

(** [JSON.stringify(v)] without indentation. A number is written as its
    lexeme, which is what [JSON.stringify] writes for the canonical lexeme
    of an integer, the only numbers [state_json] produces. *)
Fixpoint JSON_stringify (v : json) : jsstr :=
  match v with
  | JSONNull => u "null"
  | JSONBool true => u "true"
  | JSONBool false => u "false"
  | JSONNumber lex => lex
  | JSONString s => QuoteJSONString s
  | JSONArray l => [91] ++ join [44] (map JSON_stringify l) ++ [93]
  | JSONObject l =>
    [123] ++ join [44] (map (fun '(k, x) => QuoteJSONString k ++ [58] ++ JSON_stringify x) l)
    ++ [125]
  end.

(** The objects of the state as [JSON.stringify] sees them: their own
    properties in creation order ([createCollection], [handleSubmit] and
    the product form build them in this order, and the spreads of the
    handlers keep it); [logoUrl], never set by the code, is left out when
    undefined. *)
Definition product_json (p : Product.t) : json :=
  JSONObject
    [(u "id", JSONString (Product.id p));
     (u "name", JSONString (Product.name p));
     (u "price", JSONString (Product.price p));
     (u "options", JSONArray (map JSONString (Product.options p)));
     (u "description", JSONString (Product.description p));
     (u "images", JSONArray (map JSONString (Product.images p)))].

Definition entry_json (e : ShippingEntry.t) : json :=
  JSONObject
    [(u "id", JSONString (ShippingEntry.id e));
     (u "status", JSONString (status_string (ShippingEntry.status e)));
     (u "submitDate", JSONString (ShippingEntry.submitDate e));
     (u "instagramId", JSONString (ShippingEntry.instagramId e));
     (u "name", JSONString (ShippingEntry.name e));
     (u "phone", JSONString (ShippingEntry.phone e));
     (u "address", JSONString (ShippingEntry.address e));
     (u "message", JSONString (ShippingEntry.message e));
     (u "extra", JSONString (ShippingEntry.extra e));
     (u "productName", JSONString (ShippingEntry.productName e));
     (u "size", JSONString (ShippingEntry.size e));
     (u "quantity", JSONNumber (number_to_string (ShippingEntry.quantity e)));
     (u "adminMemo", JSONString (ShippingEntry.adminMemo e))].

Definition collection_json (c : Collection.t) : json :=
  JSONObject
    ([(u "id", JSONString (Collection.id c));
      (u "name", JSONString (Collection.name c));
      (u "accessCode", JSONString (Collection.accessCode c));
      (u "maxProducts", JSONNumber (number_to_string (Collection.maxProducts c)))] ++
     match Collection.logoUrl c with
     | Some l => [(u "logoUrl", JSONString l)]
     | None => []
     end ++
     [(u "lookbookImages", JSONArray (map JSONString (Collection.lookbookImages c)));
      (u "descriptionTitle", JSONString (Collection.descriptionTitle c));
      (u "descriptionBody", JSONString (Collection.descriptionBody c));
      (u "products", JSONArray (map product_json (Collection.products c)));
      (u "shippingEntries", JSONArray (map entry_json (Collection.shippingEntries c)))]).

Definition state_json (st : AppState.t) : json :=
  JSONObject
    [(u "collections", JSONArray (map collection_json (AppState.collections st)));
     (u "activeCollectionId",
      match AppState.activeCollectionId st with
      | Some i => JSONString i
      | None => JSONNull
      end);
     (u "adminAccessCode", JSONString (AppState.adminAccessCode st))].

(** The effect [localStorage.setItem(STORAGE_KEY, JSON.stringify(state))]:
    the key and the text it stores. *)
Definition persist (st : AppState.t) : jsstr * jsstr :=
  (STORAGE_KEY, JSON_stringify (state_json st)).

(** The strings of a state, keys and values, are made of code units. *)
Fixpoint json_units_ok (v : json) : Prop :=
  match v with
  | JSONString s => units_ok s
  | JSONArray l =>
    (fix all (l : list json) : Prop :=
       match l with [] => True | x :: r => json_units_ok x /\ all r end) l
  | JSONObject l =>
    (fix all (l : list (jsstr * json)) : Prop :=
       match l with [] => True | (k, x) :: r => units_ok k /\ json_units_ok x /\ all r end) l
  | _ => True
  end.

(** The values [JSON.stringify] can be applied to in this model: strings of
    code units, numbers with the lexeme of an integer, objects with
    distinct keys. *)
Fixpoint json_wf (v : json) : Prop :=
  match v with
  | JSONNull | JSONBool _ => True
  | JSONNumber lex => exists z, lex = number_to_string z
  | JSONString s => units_ok s
  | JSONArray l =>
    (fix all (l : list json) : Prop :=
       match l with [] => True | x :: r => json_wf x /\ all r end) l
  | JSONObject l =>
    NoDup (map fst l) /\
    (fix all (l : list (jsstr * json)) : Prop :=
       match l with [] => True | (k, x) :: r => units_ok k /\ json_wf x /\ all r end) l
  end.

(** A bound on the nesting and element counts of a value, below the
    length of its text. *)
Fixpoint json_size (v : json) : nat :=
  match v with
  | JSONArray l =>
    S ((fix sz (l : list json) : nat :=
          match l with [] => O | x :: r => (json_size x + sz r)%nat end) l)
  | JSONObject l =>
    S ((fix sz (l : list (jsstr * json)) : nat :=
          match l with [] => O | (_, x) :: r => (json_size x + sz r)%nat end) l)
  | _ => 1%nat
  end.

(** What may follow a value in the text [JSON.stringify] writes. *)
Definition delim (rest : jsstr) : Prop :=
  match rest with [] => True | c :: _ => c = 44 \/ c = 93 \/ c = 125 end.

(** The loop [parse_value] runs over the elements of an array, as a
    function of the fuel [f] of the elements. *)
Definition parse_elems (f : nat) : nat -> jsstr -> list json -> option (json * jsstr) :=
  fix elems (g : nat) (t : jsstr) (acc : list json) : option (json * jsstr) :=
    match g with
    | O => None
    | S g' =>
      match parse_value f t with
      | None => None
      | Some (v, t1) =>
        match skip_ws t1 with
        | 44 :: t2 => elems g' t2 (v :: acc)
        | 93 :: t2 => Some (JSONArray (rev (v :: acc)), t2)
        | _ => None
        end
      end
    end.

(** The loop [parse_value] runs over the members of an object. *)
Definition parse_members (f : nat)
  : nat -> jsstr -> list (jsstr * json) -> option (json * jsstr) :=
  fix members (g : nat) (t : jsstr) (acc : list (jsstr * json)) : option (json * jsstr) :=
    match g with
    | O => None
    | S g' =>
      match skip_ws t with
      | 34 :: t1 =>
        match parse_string_body t1 [] with
        | None => None
        | Some (k, t2) =>
          match skip_ws t2 with
          | 58 :: t3 =>
            match parse_value f t3 with
            | None => None
            | Some (v, t4) =>
              match skip_ws t4 with
              | 44 :: t5 => members g' t5 (obj_set acc k v)
              | 125 :: t5 => Some (JSONObject (obj_set acc k v), t5)
              | _ => None
              end
            end
          | _ => None
          end
        end
      | _ => None
      end
    end.

(** Induction on JSON values through the elements of arrays and objects. *)
Section json_ind_nested.
Variable P : json -> Prop.
Hypothesis HNull : P JSONNull.
Hypothesis HBool : forall b, P (JSONBool b).
Hypothesis HNumber : forall lex, P (JSONNumber lex).
Hypothesis HString : forall s, P (JSONString s).
Hypothesis HArray : forall l, Forall P l -> P (JSONArray l).
Hypothesis HObject : forall l, Forall (fun kx => P (snd kx)) l -> P (JSONObject l).

Fixpoint json_ind' (v : json) : P v :=
  match v with
  | JSONNull => HNull
  | JSONBool b => HBool b
  | JSONNumber lex => HNumber lex
  | JSONString s => HString s
  | JSONArray l =>
    HArray l ((fix go (l : list json) : Forall P l :=
                 match l with
                 | [] => Forall_nil P
                 | x :: r => Forall_cons x (json_ind' x) (go r)
                 end) l)
  | JSONObject l =>
    HObject l ((fix go (l : list (jsstr * json)) : Forall (fun kx => P (snd kx)) l :=
                  match l with
                  | [] => Forall_nil _
                  | (k, x) :: r => Forall_cons (k, x) (json_ind' x) (go r)
                  end) l)
  end.
End json_ind_nested.

(* ------------------------------------------------------------------ *)
(** ** Selection and export of shipments (AdminDashboard) *)

(** A [Set<string>] as a list of its elements in insertion order. *)
Definition set_has (S : list jsstr) (x : jsstr) : bool := existsb (jsstr_eqb x) S.

Definition set_add (S : list jsstr) (x : jsstr) : list jsstr :=
  if set_has S x then S else S ++ [x].

Definition set_delete (S : list jsstr) (x : jsstr) : list jsstr :=
  filter (fun y => negb (jsstr_eqb y x)) S.

(** [new Set(l)] *)
Definition set_of_list (l : list jsstr) : list jsstr := fold_left set_add l [].

(** [toggleEntrySelection(id)]: the selection it sets. *)
Definition toggleEntrySelection (selectedEntries : list jsstr) (id : jsstr) : list jsstr :=
  let next := selectedEntries in
  if set_has next id then set_delete next id else set_add next id.



(** [dataToDownload] of [handleDownload]. *)
Definition dataToDownload (collection : Collection.t) (selectedEntries : list jsstr)
  : list ShippingEntry.t :=
  if (0 <? length selectedEntries)%nat
  then filter (fun e => set_has selectedEntries (ShippingEntry.id e))
              (Collection.shippingEntries collection)
  else Collection.shippingEntries collection.

(** [handleDownload()]: the download [downloadCSV] makes, and the notice. *)
Definition handleDownload (collection : Collection.t) (selectedEntries : list jsstr)
  : option (jsstr * list Z) * ui_effect :=
  let data := dataToDownload collection selectedEntries in
  (downloadCSV (Collection.name collection ++ u "_shipping_export.csv") (map entry_obj data),
   NotifySuccess (u "Exported " ++ number_to_string (Z.of_nat (length data)) ++ u " items")).

(** The edits of one row of the shipment table. *)
Inductive entry_edit :=
| EditStatus (st : ShippingStatus)
| EditProductName (v : jsstr)
| EditSize (v : jsstr)
| EditAdminMemo (v : jsstr).

(** [{ ...s, status: v }], [{ ...s, productName: v }], [{ ...s, size: v }]
    and [{ ...s, adminMemo: v }]. *)
Definition apply_entry_edit (ed : entry_edit) (s : ShippingEntry.t) : ShippingEntry.t :=
  let '(ShippingEntry.mk i st d ig n ph a m x pn sz q memo) := s in
  match ed with
  | EditStatus v => ShippingEntry.mk i v d ig n ph a m x pn sz q memo
  | EditProductName v => ShippingEntry.mk i st d ig n ph a m x v sz q memo
  | EditSize v => ShippingEntry.mk i st d ig n ph a m x pn v q memo
  | EditAdminMemo v => ShippingEntry.mk i st d ig n ph a m x pn sz q v
  end.

(** The [onChange] of the status select, the product name and size inputs
    and the memo of the row of [entry]:
    [collection.shippingEntries.map(s => s.id === entry.id ? {...} : s)],
    passed to [onUpdate]. *)
Definition onEntryEdit (collection : Collection.t) (entry : ShippingEntry.t)
    (ed : entry_edit) : Collection.t :=
  Collection.with_shippingEntries collection
    (map (fun s => if jsstr_eqb (ShippingEntry.id s) (ShippingEntry.id entry)
                   then apply_entry_edit ed s else s)
         (Collection.shippingEntries collection)).

(** The "Delete Record" button of the row of [entry]; [confirmed] is the
    answer to [window.confirm]. [None]: [onUpdate] is not called. *)
Definition onDeleteEntry (confirmed : bool) (collection : Collection.t)
    (entry : ShippingEntry.t) : option Collection.t :=
  if confirmed then
    Some (Collection.with_shippingEntries collection
            (filter (fun s => negb (jsstr_eqb (ShippingEntry.id s) (ShippingEntry.id entry)))
                    (Collection.shippingEntries collection)))
  else None.

(* ------------------------------------------------------------------ *)
(** ** The product catalog (AdminDashboard) *)

(** [{ ...c, products: ps }] *)
Definition with_products (c : Collection.t) (ps : list Product.t) : Collection.t :=
  Collection.mk (Collection.id c) (Collection.name c) (Collection.accessCode c)
    (Collection.maxProducts c) (Collection.logoUrl c) (Collection.lookbookImages c)
    (Collection.descriptionTitle c) (Collection.descriptionBody c) ps
    (Collection.shippingEntries c).

(** [str.split(sep)] for a separator of one code unit. *)
Fixpoint split_go (sep : Z) (s cur : jsstr) : list jsstr :=
  match s with
  | [] => [rev cur]
  | c :: r => if c =? sep then rev cur :: split_go sep r [] else split_go sep r (c :: cur)
  end.

Definition split (sep : Z) (s : jsstr) : list jsstr := split_go sep s [].

(** The options the "Size Options" field stores for the text [v]:
    [v.split(',').map(o => o.trim())]. *)
Definition options_of_input (v : jsstr) : list jsstr := map trim (split 44 v).

(** The text the field shows: [prod.options.join(',')]. *)
Definition options_text (p : Product.t) : jsstr := join [44] (Product.options p).

(** The field edits of the catalog card of a product. *)
Inductive product_edit :=
| EditName (v : jsstr)
| EditPrice (v : jsstr)
| EditOptions (v : jsstr)
| EditDescription (v : jsstr).

Definition apply_product_edit (ed : product_edit) (p : Product.t) : Product.t :=
  let '(Product.mk i n pr o d im) := p in
  match ed with
  | EditName v => Product.mk i v pr o d im
  | EditPrice v => Product.mk i n v o d im
  | EditOptions v => Product.mk i n pr (options_of_input v) d im
  | EditDescription v => Product.mk i n pr o v im
  end.

(** [onChange] of a field of the card of [prod]:
    [collection.products.map(p => p.id === prod.id ? {...} : p)]. *)
Definition onProductEdit (collection : Collection.t) (prod : Product.t) (ed : product_edit)
  : Collection.t :=
  with_products collection
    (map (fun p => if jsstr_eqb (Product.id p) (Product.id prod)
                   then apply_product_edit ed p else p)
         (Collection.products collection)).

(** [arr.findIndex(f)] *)
Fixpoint findIndex {A} (f : A -> bool) (l : list A) : Z :=
  match l with
  | [] => -1
  | x :: r => if f x then 0 else let i := findIndex f r in if i <? 0 then -1 else i + 1
  end.

(** [nextProds[k].images = imgs] on the copy [nextProds] of the array. *)
Fixpoint set_images_at (k : nat) (imgs : list jsstr) (ps : list Product.t) : list Product.t :=
  match ps, k with
  | [], _ => []
  | p :: r, O =>
    Product.mk (Product.id p) (Product.name p) (Product.price p) (Product.options p)
      (Product.description p) imgs :: r
  | p :: r, S k' => p :: set_images_at k' imgs r
  end.

(** The remove button of the [i]-th image of [prod]: the index [pIdx] of
    the first product with the id of [prod] receives the images of [prod]
    without the [i]-th ([newImgs.splice(i, 1)]). [None]: no product has
    that id, and [nextProds[-1].images = ...] throws a [TypeError]. *)
Definition removeProductImage (collection : Collection.t) (prod : Product.t) (i : nat)
  : option Collection.t :=
  let pIdx := findIndex (fun p => jsstr_eqb (Product.id p) (Product.id prod))
                        (Collection.products collection) in
  if pIdx <? 0 then None
  else
    let newImgs := remove_index i (Product.images prod) in
    Some (with_products collection
            (set_images_at (Z.to_nat pIdx) newImgs (Collection.products collection))).

(** The upload input of the card of [prod], [newImages] being the
    compressed files: [nextProds[pIdx].images = [...prod.images, ...newImages]]. *)
Definition addProductImages (collection : Collection.t) (prod : Product.t)
    (newImages : list jsstr) : option Collection.t :=
  let pIdx := findIndex (fun p => jsstr_eqb (Product.id p) (Product.id prod))
                        (Collection.products collection) in
  if pIdx <? 0 then None
  else Some (with_products collection
               (set_images_at (Z.to_nat pIdx) (Product.images prod ++ newImages)
                  (Collection.products collection))).

(** "Remove Product": [collection.products.filter(p => p.id !== prod.id)]
    when confirmed. *)
Definition deleteProduct (confirmed : bool) (collection : Collection.t) (prod : Product.t)
  : option Collection.t :=
  if confirmed then
    Some (with_products collection
            (filter (fun p => negb (jsstr_eqb (Product.id p) (Product.id prod)))
                    (Collection.products collection)))
  else None.

(** "Add Manually": the new product [{ id: generateId(), name: 'New Item',
    price: '0', options: ['OS'], description: '', images: [] }] appended
    through [handleUpdate]. *)
Definition addProduct (newId : jsstr) (collection : Collection.t) : ui_effect * Collection.t :=
  handleUpdate collection
    (with_products collection
       (Collection.products collection ++
        [Product.mk newId (u "New Item") (u "0") [u "OS"] [] []])).

(* ------------------------------------------------------------------ *)
(** ** The report tab (AdminDashboard) *)

(** Upper-case mapping of one code unit, as a string (ß becomes SS). The
    model covers the Basic Latin and Latin-1 letters; other code units
    (Hangul among them) are left as they are. *)
Definition upper_cu (c : Z) : jsstr :=
  if ((97 <=? c) && (c <=? 122)) || ((224 <=? c) && (c <=? 254) && negb (c =? 247))
  then [c - 32]
  else if c =? 223 then [83; 83]
  else if c =? 255 then [376]
  else if c =? 181 then [924]
  else [c].

(** [String.prototype.toUpperCase]. *)
Definition toUpperCase (s : jsstr) : jsstr := flat_map upper_cu s.

(** [acc[name] = acc[name] || { name, count: 0 }; acc[name].count += 1] on
    the accumulator, kept as its properties in creation order. *)
Fixpoint count_name (acc : list (jsstr * Z)) (name : jsstr) : list (jsstr * Z) :=
  match acc with
  | [] => [(name, 1)]
  | (k, n) :: r => if jsstr_eqb k name then (k, n + 1) :: r else (k, n) :: count_name r name
  end.

(** The reducer of the "Seeding Distribution" chart. Its keys are upper
    case, so none of them names a property the accumulator [{}] inherits
    from [Object.prototype]. *)
Definition distribution_step (acc : list (jsstr * Z)) (curr : ShippingEntry.t)
  : list (jsstr * Z) :=
  if jsstr_eqb (ShippingEntry.productName curr) [] then acc
  else count_name acc (toUpperCase (ShippingEntry.productName curr)).

(** A property key that is an array index: the canonical decimal string of
    an integer below 2^32 - 1; [Object.values] lists these first, in
    ascending numeric order, then the other keys in creation order. *)
Definition array_index_value (k : jsstr) : option Z :=
  match k with
  | [48] => Some 0
  | c :: _ =>
    if (49 <=? c) && (c <=? 57) && forallb is_digit k && (length k <=? 10)%nat then
      let v := fold_left (fun acc d => acc * 10 + (d - 48)) k 0 in
      if v <? 4294967295 then Some v else None
    else None
  | [] => None
  end.

Fixpoint insert_index (kv : jsstr * Z) (v : Z) (l : list (jsstr * Z)) : list (jsstr * Z) :=
  match l with
  | [] => [kv]
  | y :: r =>
    match array_index_value (fst y) with
    | Some w => if v <? w then kv :: l else y :: insert_index kv v r
    | None => kv :: l
    end
  end.

Fixpoint sort_indices (l : list (jsstr * Z)) : list (jsstr * Z) :=
  match l with
  | [] => []
  | kv :: r =>
    match array_index_value (fst kv) with
    | Some v => insert_index kv v (sort_indices r)
    | None => sort_indices r
    end
  end.

(** [Object.values(acc)], each value [{ name, count }] as the pair. *)
Definition object_values (acc : list (jsstr * Z)) : list (jsstr * Z) :=
  sort_indices acc ++ filter (fun kv => match array_index_value (fst kv) with
                                        | Some _ => false | None => true end) acc.

(** A key that [Object.values] lists among the array indices. *)
Definition is_index_key (k : jsstr) : bool :=
  match array_index_value k with Some _ => true | None => false end.

(** Two index keys in ascending numeric order. *)
Definition index_le (a b : jsstr * Z) : Prop :=
  match array_index_value (fst a), array_index_value (fst b) with
  | Some x, Some y => x <= y
  | _, _ => False
  end.

(** The data of the "Seeding Distribution" bar chart. *)
Definition distribution (collection : Collection.t) : list (jsstr * Z) :=
  object_values (fold_left distribution_step (Collection.shippingEntries collection) []).

(** The count the accumulator holds for the key [name] (0 when absent). *)
Fixpoint lookup_count (acc : list (jsstr * Z)) (name : jsstr) : Z :=
  match acc with
  | [] => 0
  | (k, n) :: r => if jsstr_eqb k name then n else lookup_count r name
  end.

(** The number of entries with a non-empty product name whose upper-case
    form is [name]. *)
Definition name_count (es : list ShippingEntry.t) (name : jsstr) : nat :=
  length (filter (fun s => negb (jsstr_eqb (ShippingEntry.productName s) []) &&
                           jsstr_eqb (toUpperCase (ShippingEntry.productName s)) name) es).

(** An entry counted by the chart: its product name is not empty. *)
Definition named (s : ShippingEntry.t) : bool :=
  negb (jsstr_eqb (ShippingEntry.productName s) []).

Definition sumZ (l : list Z) : Z := fold_right Z.add 0 l.

(** "Total Packets" and "Original Requests". *)
Definition total_packets (collection : Collection.t) : Z :=
  Z.of_nat (length (Collection.shippingEntries collection)).

Definition original_requests (collection : Collection.t) : Z :=
  Z.of_nat (length (filter (fun s => negb (jsstr_eqb (ShippingEntry.submitDate s) extra_sentinel))
                           (Collection.shippingEntries collection))).

(* ------------------------------------------------------------------ *)
(** ** The lookbook slider (InfluencerPage) *)

(** [nextSlide()]: the new [activeSlide] from [prev], [len] being
    [collection.lookbookImages.length]. *)
Definition nextSlide (len prev : Z) : Z :=
  if len =? 0 then prev
  else if prev + 2 >=? len then 0 else prev + 2.

(** [prevSlide()]: [len % 2 || 2] is [2] for an even length. *)
Definition prevSlide (len prev : Z) : Z :=
  if len =? 0 then prev
  else if prev - 2 <? 0
       then Z.max 0 (len - (if len mod 2 =? 0 then 2 else len mod 2))
       else prev - 2.

(* ------------------------------------------------------------------ *)
(** ** Sample data *)

Definition sample_product : Product.t :=
  Product.mk (u "p1") (u "Tee") (u "29000") [u "S"; u "M"] (u "cotton tee") [].

(** 김민지 *)
Definition sample_name : jsstr := [44608; 48124; 51648].

Definition sample_entry : ShippingEntry.t :=
  ShippingEntry.mk (generateId (u "0.4fzyo82mvyr")) PREPARING (u "2026-10-15") (u "abc") sample_name
    (u "010-1234-5678") (u "Seoul") (u "fast please") [] (u "Tee") (u "M") 2 [].

(** The same entry with a quantity of 0. *)
Definition sample_entry_q0 : ShippingEntry.t :=
  ShippingEntry.mk (generateId (u "0.4fzyo82mvyr")) PREPARING (u "2026-10-15") (u "abc") sample_name
    (u "010-1234-5678") (u "Seoul") (u "fast please") [] (u "Tee") (u "M") 0 [].

(** The same entry with a lone lead surrogate as its name. *)
Definition sample_entry_lone : ShippingEntry.t :=
  ShippingEntry.mk (generateId (u "0.4fzyo82mvyr")) PREPARING (u "2026-10-15") (u "abc") [55296]
    (u "010-1234-5678") (u "Seoul") (u "fast please") [] (u "Tee") (u "M") 2 [].

Definition sample_collection : Collection.t :=
  Collection.mk (u "c1") (u "SS26") (u "x7k2qa") 2 None []
    (u "Collection Story") (u "Share the inspiration behind this season.")
    [sample_product] [sample_entry].

(** A collection saved from the dashboard right after its creation. *)
Definition sample_new_collection : Collection.t :=
  Collection.mk (generateId (u "0.k3j2h1g0f9")) (u "SS27") (u "k3j2h1") 3 None [] [] [] [] [].

Definition sample_state : AppState.t :=
  AppState.mk [sample_collection] None (u "admin").

Definition sample_form : FormData.t :=
  FormData.mk (u "abc") sample_name (u "010-1234-5678") (u "Seoul")
    (u "fast please") [] true.

(** A checkout with the form filled in and one item in the cart. *)
Definition sample_checkout : Session.t :=
  Session.mk CartView None [] sample_form
    [CartItem.mk (u "p1") (u "Tee") (u "M") placeholder_image].

(* ================================================================== *)
(** * Proofs *)

(** ** General lemmas *)

Lemma jsstr_eqb_spec (a b : jsstr) : jsstr_eqb a b = true <-> a = b.
Proof.
  revert b; induction a as [|x a IH]; intros [|y b]; simpl;
    try (split; congruence).
  rewrite andb_true_iff, Z.eqb_eq, IH. split.
  - intros [-> ->]; reflexivity.
  - intros H; inversion H; auto.
Qed.

Lemma jsstr_eqb_false (a b : jsstr) : jsstr_eqb a b = false <-> a <> b.
Proof.
  rewrite <- jsstr_eqb_spec. destruct (jsstr_eqb a b); split; congruence.
Qed.

(** ** Evaluations on small inputs *)

Example number_to_string_ex :
  number_to_string 1203 = u "1203" /\ number_to_string 0 = u "0" /\
  number_to_string (-7) = u "-7" /\ number_to_string 10 = u "10".
Proof. vm_compute. repeat split. Qed.

Example storage_ex :
  getStorageUsage [(u "k", u "v")] = JString (u "0.00") /\
  toFixed2 (475 * 1048576 / 100) = u "4.75" /\
  storage_nearly_full [(u "k", u "v")] = false /\
  maxProducts_input (u "-3") = -3 /\ maxProducts_input [] = 1 /\
  maxProducts_input (u "0") = 1 /\ maxProducts_input (u "2.5") = 2 /\
  generateId (u "0") = [] /\ generateId (u "0.4fzyo82mvyr") = u "4fzyo82mv".
Proof. vm_compute. repeat split. Qed.

Example csv_ex :
  csv_read (u "a," ++ [34] ++ u "b," ++ [34;34] ++ u "c" ++ [34; 10] ++ u "x,y")
  = [[u "a"; u "b," ++ [34] ++ u "c"]; [u "x"; u "y"]].
Proof. vm_compute. reflexivity. Qed.

Example json_ex :
  JSON_parse (u " [1, -2.5e+3, true, null, {} , []] ") =
    Some (JSONArray [JSONNumber (u "1"); JSONNumber (u "-2.5e+3"); JSONBool true;
                     JSONNull; JSONObject []; JSONArray []]) /\
  JSON_parse (u "{") = None /\ JSON_parse (u "01") = None /\
  load (ItemString (u "{}")) = (JSONObject [], false) /\
  load (ItemString (u "42")) = (JSONNumber (u "42"), false) /\
  load (ItemString (u "oops")) = (defaultState, true) /\
  JSON_parse ([123; 34] ++ u "a" ++ [34; 58; 34] ++ u "x\u" ++ [34; 125]) = None /\
  JSON_parse ([123; 34] ++ u "a" ++ [34; 58; 34; 92] ++ u "u0041" ++ [34; 44; 34] ++ u "a" ++ [34; 58] ++ u "2}")
   = Some (JSONObject [(u "a", JSONNumber (u "2"))]).
Proof. vm_compute. repeat split. Qed.

(** ** Login *)

Lemma find_some_first {A} (f : A -> bool) (l : list A) (x : A) :
  find f l = Some x <->
  exists pre post, l = pre ++ x :: post /\ f x = true /\
                   Forall (fun y => f y = false) pre.
Proof.
  induction l as [|a l IH]; simpl.
  - split; [discriminate|].
    intros (pre & post & Heq & _); destruct pre; discriminate.
  - destruct (f a) eqn:Hfa.
    + split.
      * intros H; inversion H; subst. exists [], l. auto.
      * intros (pre & post & Heq & Hx & Hpre).
        destruct pre as [|b pre]; simpl in Heq; inversion Heq; subst.
        -- reflexivity.
        -- inversion Hpre; congruence.
    + rewrite IH. split.
      * intros (pre & post & Heq & Hx & Hpre).
        exists (a :: pre), post. subst. simpl. auto.
      * intros (pre & post & Heq & Hx & Hpre).
        destruct pre as [|b pre]; simpl in Heq; inversion Heq; subst.
        -- congruence.
        -- inversion Hpre; subst. exists pre, post. auto.
Qed.

Lemma find_none_all {A} (f : A -> bool) (l : list A) :
  find f l = None <-> Forall (fun y => f y = false) l.
Proof.
  induction l as [|a l IH]; simpl.
  - split; auto.
  - destruct (f a) eqn:Hfa.
    + split; [discriminate|]. intros H; inversion H; congruence.
    + rewrite IH. split; [auto|]. intros H; inversion H; auto.
Qed.

Lemma Forall_code_matches (code : jsstr) (l : list Collection.t) :
  Forall (fun y => code_matches code y = false) l <->
  Forall (fun c => toLowerCase (Collection.accessCode c) <> code) l.
Proof.
  split; apply Forall_impl; intros c; unfold code_matches;
    rewrite jsstr_eqb_false; auto.
Qed.

(** C1. [handleLogin] resolves an access code as follows: it never writes
    the application state; it depends on the input only through the input
    trimmed and lower-cased; when that equals the lower-cased admin code the
    result is the admin role, whatever the collections are; otherwise the
    result is the influencer role for the first collection, in array order,
    whose lower-cased access code equals it, and a denial when there is
    none. *)
Theorem handleLogin_resolve (input : jsstr) (state : AppState.t) :
  let code := toLowerCase (trim input) in
  snd (handleLogin input state) = state /\
  (forall input', toLowerCase (trim input') = code ->
     handleLogin input' state = handleLogin input state) /\
  (code = toLowerCase (AppState.adminAccessCode state) ->
     forall cs, fst (handleLogin input (AppState.with_collections state cs)) = AsAdmin) /\
  (code <> toLowerCase (AppState.adminAccessCode state) ->
     (forall c, fst (handleLogin input state) = AsInfluencer c <->
        exists pre post, AppState.collections state = pre ++ c :: post /\
          toLowerCase (Collection.accessCode c) = code /\
          Forall (fun c' => toLowerCase (Collection.accessCode c') <> code) pre) /\
     (fst (handleLogin input state) = Denied <->
        Forall (fun c => toLowerCase (Collection.accessCode c) <> code)
          (AppState.collections state))).
Proof.
  cbv zeta. unfold handleLogin.
  set (code := toLowerCase (trim input)).
  split; [|split; [|split]].
  - destruct (jsstr_eqb _ _); [reflexivity|].
    destruct (find _ _); reflexivity.
  - intros input' ->. reflexivity.
  - intros Hadm cs. simpl. rewrite Hadm.
    assert (E : jsstr_eqb (toLowerCase (AppState.adminAccessCode state))
                  (toLowerCase (AppState.adminAccessCode state)) = true)
      by (apply jsstr_eqb_spec; reflexivity).
    rewrite E. reflexivity.
  - intros Hadm. apply jsstr_eqb_false in Hadm. rewrite Hadm. split.
    + intros c. split.
      * destruct (find (code_matches code) (AppState.collections state)) as [m|] eqn:Hf;
          simpl; intros H; inversion H; subst.
        apply find_some_first in Hf as (pre & post & Heq & Hx & Hpre).
        exists pre, post. split; [exact Heq|]. split.
        -- apply jsstr_eqb_spec. exact Hx.
        -- apply Forall_code_matches. exact Hpre.
      * intros (pre & post & Heq & Hx & Hpre).
        assert (Hf : find (code_matches code) (AppState.collections state) = Some c).
        { apply find_some_first. exists pre, post. split; [exact Heq|]. split.
          - apply jsstr_eqb_spec. exact Hx.
          - apply Forall_code_matches. exact Hpre. }
        rewrite Hf. reflexivity.
    + rewrite <- Forall_code_matches, <- find_none_all.
      destruct (find (code_matches code) (AppState.collections state)); simpl;
        split; congruence.
Qed.

(** ** Cart *)

Lemma remove_index_length {A} (idx : nat) (l : list A) :
  (length (remove_index idx l) <= length l)%nat.
Proof.
  revert idx; induction l as [|x l IH]; intros [|k]; simpl; try lia.
  specialize (IH k). lia.
Qed.

(** The cart bound, kept by every step of a session. *)
Lemma session_step_bound (m : Z) (cs : Collection.t * Session.t) (op : session_op) :
  Collection.maxProducts (fst cs) = m ->
  Z.of_nat (length (Session.cart (snd cs))) <= Z.max 0 m ->
  Collection.maxProducts (fst (session_step cs op)) = m /\
  Z.of_nat (length (Session.cart (snd (session_step cs op)))) <= Z.max 0 m.
Proof.
  destruct cs as [c s]; simpl. intros Hm Hlen.
  destruct op as [p|sz|f|v| |idx|gen now]; simpl; auto.
  - unfold addToCart.
    destruct (Session.selectedProduct s) as [p|]; simpl; auto.
    destruct (jsstr_eqb (Session.selectedSize s) []); simpl; auto.
    destruct (Z.of_nat (length (Session.cart s)) >=? Collection.maxProducts c) eqn:Hge;
      simpl; auto.
    split; [exact Hm|]. rewrite length_app. simpl.
    rewrite Z.geb_leb, Z.leb_gt in Hge. lia.
  - split; [exact Hm|].
    pose proof (remove_index_length idx (Session.cart s)). lia.
  - unfold handleSubmit.
    destruct (_ || _); simpl; auto.
    split; [exact Hm|]. lia.
Qed.

Lemma run_bound (m : Z) (ops : list session_op) (cs : Collection.t * Session.t) :
  Collection.maxProducts (fst cs) = m ->
  Z.of_nat (length (Session.cart (snd cs))) <= Z.max 0 m ->
  Collection.maxProducts (fst (fold_left session_step ops cs)) = m /\
  Z.of_nat (length (Session.cart (snd (fold_left session_step ops cs)))) <= Z.max 0 m.
Proof.
  revert cs; induction ops as [|op ops IH]; intros cs Hm Hlen; simpl; auto.
  destruct (session_step_bound m cs op Hm Hlen) as [Hm' Hlen'].
  apply IH; assumption.
Qed.

(** Witness of C1: the code of the sample collection, typed in upper case
    with surrounding spaces, logs in as its influencer. *)
Lemma handleLogin_resolve_witness :
  toLowerCase (trim (u " X7K2QA ")) <> toLowerCase (AppState.adminAccessCode sample_state) /\
  fst (handleLogin (u " X7K2QA ") sample_state) = AsInfluencer sample_collection.
Proof.
  assert (Hne : toLowerCase (trim (u " X7K2QA ")) <>
                toLowerCase (AppState.adminAccessCode sample_state))
    by (vm_compute; discriminate).
  split; [exact Hne|].
  pose proof (handleLogin_resolve (u " X7K2QA ") sample_state) as H.
  cbv zeta in H. destruct H as (_ & _ & _ & H4).
  destruct (H4 Hne) as [H5 _].
  apply H5. exists [], []. split; [reflexivity|]. split.
  - vm_compute. reflexivity.
  - constructor.
Defined.

(** C2 (as amended). An add-to-cart with no product or no size chosen, or
    with a cart already holding [maxProducts] items or more, is refused with
    an alert and leaves the session unchanged; and along any sequence of
    session actions starting from the empty cart of a new session, the
    number of cart items never exceeds [maxProducts] when it is
    non-negative, and stays 0 when it is negative. *)
Theorem addToCart_bounded (c : Collection.t) (s : Session.t) (ops : list session_op) :
  ((Session.selectedProduct s = None \/ Session.selectedSize s = [] \/
    Collection.maxProducts c <= Z.of_nat (length (Session.cart s))) ->
   exists msg, addToCart c s = (Alert msg, s)) /\
  Z.of_nat (length (Session.cart (snd (run_session c ops)))) <=
    Z.max 0 (Collection.maxProducts c).
Proof.
  split.
  - intros H. unfold addToCart.
    destruct (Session.selectedProduct s) as [p|]; [|eexists; reflexivity].
    destruct (jsstr_eqb (Session.selectedSize s) []) eqn:Hsz; [eexists; reflexivity|].
    apply jsstr_eqb_false in Hsz.
    destruct (Z.of_nat (length (Session.cart s)) >=? Collection.maxProducts c) eqn:Hge;
      [eexists; reflexivity|].
    rewrite Z.geb_leb, Z.leb_gt in Hge.
    exfalso. destruct H as [H|[H|H]]; [discriminate|contradiction|lia].
  - unfold run_session.
    apply (run_bound (Collection.maxProducts c) ops (c, Session.initial));
      simpl; lia.
Qed.

(** Witness of C2: the sample collection's limit is 2; with two items in
    the cart a third add is refused. *)
Lemma addToCart_bounded_witness :
  let s := Session.mk ProductDetail (Some sample_product) (u "M") FormData.empty
             [CartItem.mk (u "p1") (u "Tee") (u "S") placeholder_image;
              CartItem.mk (u "p1") (u "Tee") (u "M") placeholder_image] in
  exists msg, addToCart sample_collection s = (Alert msg, s).
Proof.
  cbv zeta.
  apply (proj1 (addToCart_bounded sample_collection _ [])).
  right. right. vm_compute. discriminate.
Defined.

(** C2 fails as stated: the "Selection Limit" field stores [-1] for the
    input "-1"; a session on that collection then holds an empty cart,
    already above the limit, and the add of a sized product is refused. *)
Lemma addToCart_bounded_counterexample :
  let c := snd (onMaxProductsChange sample_collection (u "-1")) in
  let ops := [OpSelectProduct (Some sample_product); OpSelectSize (u "M"); OpAddToCart] in
  Collection.maxProducts c = -1 /\
  Session.cart (snd (run_session c ops)) = [] /\
  Collection.maxProducts c < Z.of_nat (length (Session.cart (snd (run_session c ops)))).
Proof.
  cbv zeta. split; [vm_compute; reflexivity|].
  split; vm_compute; reflexivity.
Qed.

(** ** Submission *)

Lemma build_entries_spec (gen : nat -> jsstr) (k : nat) (today : jsstr)
    (f : FormData.t) (items : list CartItem.t) :
  Forall2 (fun item e =>
    ShippingEntry.status e = PREPARING /\ ShippingEntry.submitDate e = today /\
    ShippingEntry.quantity e = 1 /\ ShippingEntry.adminMemo e = [] /\
    ShippingEntry.productName e = CartItem.productName item /\
    ShippingEntry.size e = CartItem.size item /\
    ShippingEntry.instagramId e = FormData.instagramId f /\
    ShippingEntry.name e = FormData.name f /\
    ShippingEntry.phone e = FormData.phone f /\
    ShippingEntry.address e = FormData.address f /\
    ShippingEntry.message e = FormData.message f /\
    ShippingEntry.extra e = FormData.extra f)
    items (build_entries gen k today f items).
Proof.
  revert k; induction items as [|it items IH]; intros k; simpl; constructor.
  - repeat split.
  - apply IH.
Qed.

(** C3. [handleSubmit] refuses, with an alert and no change to the
    collection or the session, unless Instagram id, name, phone and address
    are non-empty and the consent box is ticked. Otherwise it appends to the
    collection's [shippingEntries], after the existing ones, one entry per
    cart item in cart order, each with status PREPARING, the current date
    as [submitDate], quantity 1, an empty admin memo, product name and size
    from its cart item and the contact fields from the form; it empties the
    cart and shows the success view. *)
Theorem handleSubmit_contract (gen : nat -> jsstr) (now_iso : jsstr)
    (c : Collection.t) (s : Session.t) :
  let f := Session.formData s in
  (~ (FormData.instagramId f <> [] /\ FormData.name f <> [] /\
      FormData.phone f <> [] /\ FormData.address f <> [] /\
      FormData.agreed f = true) ->
   exists msg, handleSubmit gen now_iso c s = (Alert msg, c, s)) /\
  (FormData.instagramId f <> [] -> FormData.name f <> [] ->
   FormData.phone f <> [] -> FormData.address f <> [] ->
   FormData.agreed f = true ->
   exists es,
     handleSubmit gen now_iso c s =
       (NoNotice,
        Collection.with_shippingEntries c (Collection.shippingEntries c ++ es),
        Session.mk Success (Session.selectedProduct s) (Session.selectedSize s) f []) /\
     Forall2 (fun item e =>
       ShippingEntry.status e = PREPARING /\
       ShippingEntry.submitDate e = date_part now_iso /\
       ShippingEntry.quantity e = 1 /\ ShippingEntry.adminMemo e = [] /\
       ShippingEntry.productName e = CartItem.productName item /\
       ShippingEntry.size e = CartItem.size item /\
       ShippingEntry.instagramId e = FormData.instagramId f /\
       ShippingEntry.name e = FormData.name f /\
       ShippingEntry.phone e = FormData.phone f /\
       ShippingEntry.address e = FormData.address f /\
       ShippingEntry.message e = FormData.message f /\
       ShippingEntry.extra e = FormData.extra f)
       (Session.cart s) es).
Proof.
  cbv zeta. unfold handleSubmit. split.
  - intros Hnot.
    destruct (jsstr_eqb (FormData.instagramId (Session.formData s)) []) eqn:H1;
      [eexists; reflexivity|].
    destruct (jsstr_eqb (FormData.name (Session.formData s)) []) eqn:H2;
      [eexists; reflexivity|].
    destruct (jsstr_eqb (FormData.phone (Session.formData s)) []) eqn:H3;
      [eexists; reflexivity|].
    destruct (jsstr_eqb (FormData.address (Session.formData s)) []) eqn:H4;
      [eexists; reflexivity|].
    destruct (FormData.agreed (Session.formData s)) eqn:H5; [|eexists; reflexivity].
    exfalso. apply Hnot.
    apply jsstr_eqb_false in H1, H2, H3, H4. auto.
  - intros H1 H2 H3 H4 H5.
    apply jsstr_eqb_false in H1, H2, H3, H4.
    rewrite H1, H2, H3, H4, H5. simpl.
    eexists. split; [reflexivity|].
    apply build_entries_spec.
Qed.

(** Witness of C3: the end-to-end scenario of the specification. The
    sample product is added at size M and the filled-in form submitted:
    exactly one PREPARING entry of size M for the product is appended and
    the cart is empty afterwards. *)
Lemma handleSubmit_contract_witness :
  let s1 := snd (addToCart sample_collection
              (selectSize (u "M") (selectProduct (Some sample_product)
                 (setFormData sample_form Session.initial)))) in
  let now := u "2026-10-15T08:00:00.000Z" in
  (exists es,
     handleSubmit (fun _ => u "id") now sample_collection s1 =
       (NoNotice,
        Collection.with_shippingEntries sample_collection
          (Collection.shippingEntries sample_collection ++ es),
        Session.mk Success (Session.selectedProduct s1) (Session.selectedSize s1)
          (Session.formData s1) []) /\
     length es = 1%nat) /\
  Collection.shippingEntries (snd (fst (handleSubmit (fun _ => u "id") now sample_collection s1))) =
    Collection.shippingEntries sample_collection ++
    [ShippingEntry.mk (u "id") PREPARING (u "2026-10-15") (u "abc") sample_name
       (u "010-1234-5678") (u "Seoul") (u "fast please") [] (u "Tee") (u "M") 1 []].
Proof.
  cbv zeta. split.
  - pose proof (handleSubmit_contract (fun _ => u "id") (u "2026-10-15T08:00:00.000Z")
      sample_collection
      (snd (addToCart sample_collection
              (selectSize (u "M") (selectProduct (Some sample_product)
                 (setFormData sample_form Session.initial)))))) as [_ H].
    cbv zeta in H.
    destruct (H ltac:(vm_compute; intros Hc; discriminate Hc)
                ltac:(vm_compute; intros Hc; discriminate Hc)
                ltac:(vm_compute; intros Hc; discriminate Hc)
                ltac:(vm_compute; intros Hc; discriminate Hc)
                ltac:(vm_compute; reflexivity)) as (es & Heq & HF).
    exists es. split; [exact Heq|].
    apply Forall2_length in HF. rewrite <- HF. vm_compute. reflexivity.
  - vm_compute. reflexivity.
Defined.

(** ** Duplicating a shipping entry *)

(** C4 (as amended). The "Duplicate Entry" button appends exactly one entry
    after the existing ones, which are left as they are. The new entry has
    as id the value of a new [generateId()] call, the extra-item sentinel
    '추가 제품' as [submitDate], empty product name and size, and every
    other field (status, instagramId, name, phone, address, message, extra,
    quantity, adminMemo) equal to the source entry's; the other fields of
    the collection are unchanged. *)
Theorem onDuplicateEntry_contract (newId : jsstr) (c : Collection.t)
    (e : ShippingEntry.t) :
  exists d,
    snd (onDuplicateEntry newId c e) =
      Collection.with_shippingEntries c (Collection.shippingEntries c ++ [d]) /\
    ShippingEntry.id d = newId /\
    ShippingEntry.submitDate d = extra_sentinel /\
    ShippingEntry.productName d = [] /\ ShippingEntry.size d = [] /\
    ShippingEntry.status d = ShippingEntry.status e /\
    ShippingEntry.instagramId d = ShippingEntry.instagramId e /\
    ShippingEntry.name d = ShippingEntry.name e /\
    ShippingEntry.phone d = ShippingEntry.phone e /\
    ShippingEntry.address d = ShippingEntry.address e /\
    ShippingEntry.message d = ShippingEntry.message e /\
    ShippingEntry.extra d = ShippingEntry.extra e /\
    ShippingEntry.quantity d = ShippingEntry.quantity e /\
    ShippingEntry.adminMemo d = ShippingEntry.adminMemo e.
Proof.
  exists (duplicate_of newId e). split; [reflexivity|].
  repeat split.
Qed.

(** C4 fails as stated: the id of the copy is whatever [generateId()]
    returns, and nothing compares it with the source id. When
    [Math.random().toString(36)] yields a string with the same nine
    characters after "0." as the one that made the source id, the copy
    carries the source id. *)
Lemma onDuplicateEntry_contract_counterexample :
  let c' := snd (onDuplicateEntry (generateId (u "0.4fzyo82mvq1"))
                   sample_collection sample_entry) in
  In sample_entry (Collection.shippingEntries sample_collection) /\
  exists d, Collection.shippingEntries c' =
              Collection.shippingEntries sample_collection ++ [d] /\
            ShippingEntry.id d = ShippingEntry.id sample_entry.
Proof.
  cbv zeta. split; [left; reflexivity|].
  eexists. split; [reflexivity|]. vm_compute. reflexivity.
Qed.

(** ** CSV export *)

Lemma double_quotes_cons (c : Z) (s : jsstr) :
  double_quotes (c :: s) = (if c =? 34 then [34; 34] else [c]) ++ double_quotes s.
Proof. reflexivity. Qed.

(** Reading the inside of a quoted field gives back the text. *)
Lemma csv_go_quoted (s rest fld : jsstr) (row : list jsstr) (rows : list (list jsstr)) :
  csv_go (double_quotes s ++ 34 :: rest) Quoted fld row rows =
  csv_go rest QuoteSeen (rev s ++ fld) row rows.
Proof.
  revert fld; induction s as [|c s IH]; intros fld; [reflexivity|].
  rewrite double_quotes_cons. destruct (c =? 34) eqn:Hc.
  - apply Z.eqb_eq in Hc; subst c. simpl.
    rewrite IH. simpl. rewrite <- app_assoc. reflexivity.
  - simpl. rewrite Hc. rewrite IH. simpl. rewrite <- app_assoc. reflexivity.
Qed.

Lemma quoted_app (s rest : jsstr) :
  quoted s ++ rest = 34 :: double_quotes s ++ 34 :: rest.
Proof. unfold quoted. simpl. rewrite <- app_assoc. reflexivity. Qed.

Lemma csv_go_cell_comma (s rest : jsstr) (row : list jsstr) (rows : list (list jsstr)) :
  csv_go (quoted s ++ 44 :: rest) FieldStart [] row rows =
  csv_go rest FieldStart [] (s :: row) rows.
Proof.
  rewrite quoted_app. simpl. rewrite csv_go_quoted. simpl.
  rewrite app_nil_r, rev_involutive. reflexivity.
Qed.

Lemma csv_go_cell_lf (s rest : jsstr) (row : list jsstr) (rows : list (list jsstr)) :
  csv_go (quoted s ++ 10 :: rest) FieldStart [] row rows =
  csv_go rest FieldStart [] [] (rev (s :: row) :: rows).
Proof.
  rewrite quoted_app. simpl. rewrite csv_go_quoted. simpl.
  rewrite app_nil_r, rev_involutive. reflexivity.
Qed.

Lemma csv_go_cell_end (s : jsstr) (row : list jsstr) (rows : list (list jsstr)) :
  csv_go (quoted s) FieldStart [] row rows = rev (rev (s :: row) :: rows).
Proof.
  rewrite <- (app_nil_r (quoted s)), quoted_app. simpl. rewrite csv_go_quoted.
  simpl. rewrite app_nil_r, rev_involutive. reflexivity.
Qed.

Lemma join_cons2 (sep x y : jsstr) (r : list jsstr) :
  join sep (x :: y :: r) = x ++ sep ++ join sep (y :: r).
Proof. reflexivity. Qed.

Lemma csv_go_row_lf (cs : list jsstr) (rest : jsstr) (row : list jsstr)
    (rows : list (list jsstr)) :
  cs <> [] ->
  csv_go (join [44] (map quoted cs) ++ 10 :: rest) FieldStart [] row rows =
  csv_go rest FieldStart [] [] (rev (rev cs ++ row) :: rows).
Proof.
  revert row; induction cs as [|x cs IH]; intros row Hne; [congruence|].
  destruct cs as [|y cs].
  - simpl join. rewrite csv_go_cell_lf. reflexivity.
  - change (map quoted (x :: y :: cs)) with (quoted x :: quoted y :: map quoted cs).
    rewrite join_cons2.
    change (quoted y :: map quoted cs) with (map quoted (y :: cs)).
    replace ((quoted x ++ [44] ++ join [44] (map quoted (y :: cs))) ++ 10 :: rest)
      with (quoted x ++ 44 :: (join [44] (map quoted (y :: cs)) ++ 10 :: rest))
      by (rewrite <- !app_assoc; reflexivity).
    rewrite csv_go_cell_comma, IH by discriminate.
    change (rev (x :: y :: cs)) with (rev (y :: cs) ++ [x]).
    rewrite <- app_assoc. reflexivity.
Qed.

Lemma csv_go_row_end (cs : list jsstr) (row : list jsstr) (rows : list (list jsstr)) :
  cs <> [] ->
  csv_go (join [44] (map quoted cs)) FieldStart [] row rows =
  rev (rev (rev cs ++ row) :: rows).
Proof.
  revert row; induction cs as [|x cs IH]; intros row Hne; [congruence|].
  destruct cs as [|y cs].
  - simpl join. rewrite csv_go_cell_end. reflexivity.
  - change (map quoted (x :: y :: cs)) with (quoted x :: quoted y :: map quoted cs).
    rewrite join_cons2.
    change (quoted y :: map quoted cs) with (map quoted (y :: cs)).
    change ([44] ++ join [44] (map quoted (y :: cs)))
      with (44 :: join [44] (map quoted (y :: cs))).
    rewrite csv_go_cell_comma, IH by discriminate.
    change (rev (x :: y :: cs)) with (rev (y :: cs) ++ [x]).
    rewrite <- app_assoc. reflexivity.
Qed.

(** Reading back lines of quoted cells gives back the cells. *)
Lemma csv_go_rows (rs : list (list jsstr)) (rows : list (list jsstr)) :
  rs <> [] -> Forall (fun cs => cs <> []) rs ->
  csv_go (join [10] (map (fun cs => join [44] (map quoted cs)) rs)) FieldStart [] [] rows =
  rev rows ++ rs.
Proof.
  revert rows; induction rs as [|cs rs IH]; intros rows Hne Hall; [congruence|].
  inversion Hall as [|? ? Hcs Hrs]; subst.
  destruct rs as [|cs2 rs].
  - simpl. rewrite csv_go_row_end by exact Hcs.
    rewrite app_nil_r, rev_involutive. reflexivity.
  - change (map (fun cs => join [44] (map quoted cs)) (cs :: cs2 :: rs))
      with (join [44] (map quoted cs) :: join [44] (map quoted cs2) ::
            map (fun cs => join [44] (map quoted cs)) rs).
    rewrite join_cons2.
    change (join [44] (map quoted cs2) :: map (fun cs => join [44] (map quoted cs)) rs)
      with (map (fun cs => join [44] (map quoted cs)) (cs2 :: rs)).
    change ([10] ++ join [10] (map (fun cs => join [44] (map quoted cs)) (cs2 :: rs)))
      with (10 :: join [10] (map (fun cs => join [44] (map quoted cs)) (cs2 :: rs))).
    rewrite csv_go_row_lf by exact Hcs.
    rewrite app_nil_r, rev_involutive, IH by (discriminate || exact Hrs).
    simpl. rewrite <- app_assoc. reflexivity.
Qed.

(** The header row is read back as the ten header strings. *)
Lemma csv_go_header (rest : jsstr) :
  csv_go (join [44] customHeaders ++ 10 :: rest) FieldStart [] [] [] =
  csv_go rest FieldStart [] [] [customHeaders].
Proof. reflexivity. Qed.

Lemma csv_go_document (rs : list (list jsstr)) :
  rs <> [] -> Forall (fun cs => cs <> []) rs ->
  csv_go (join [10] (join [44] customHeaders ::
            map (fun cs => join [44] (map quoted cs)) rs)) FieldStart [] [] [] =
  customHeaders :: rs.
Proof.
  intros Hne HF.
  destruct rs as [|r0 rs']; [congruence|].
  replace (join [10] (join [44] customHeaders ::
            map (fun cs => join [44] (map quoted cs)) (r0 :: rs')))
    with (join [44] customHeaders ++ 10 ::
            join [10] (map (fun cs => join [44] (map quoted cs)) (r0 :: rs')))
    by reflexivity.
  rewrite csv_go_header, csv_go_rows by assumption. reflexivity.
Qed.

Lemma cell_text_string (s : jsstr) : cell_text (JString s) = s.
Proof. unfold cell_text, js_or. destruct s; reflexivity. Qed.

Lemma cell_text_quantity (q : Z) :
  cell_text (js_or (JNumber q) (JNumber 1)) =
  if q =? 0 then u "1" else number_to_string q.
Proof.
  unfold cell_text, js_or. simpl.
  destruct (q =? 0) eqn:E; simpl; rewrite ?E; reflexivity.
Qed.

(** The cells of the row of one shipping entry, before quoting. *)
Lemma csv_row_entry (e : ShippingEntry.t) :
  csv_row (entry_obj e) =
  map quoted
    [ShippingEntry.instagramId e; ShippingEntry.name e; ShippingEntry.phone e;
     []; []; ShippingEntry.address e; ShippingEntry.productName e;
     ShippingEntry.size e;
     (if ShippingEntry.quantity e =? 0 then u "1"
      else number_to_string (ShippingEntry.quantity e));
     ShippingEntry.message e].
Proof.
  unfold csv_row, csv_row_values.
  replace (get (entry_obj e) (u "instagramId"))
    with (JString (ShippingEntry.instagramId e)) by reflexivity.
  replace (get (entry_obj e) (u "name")) with (JString (ShippingEntry.name e))
    by reflexivity.
  replace (get (entry_obj e) (u "phone")) with (JString (ShippingEntry.phone e))
    by reflexivity.
  replace (get (entry_obj e) (u "address")) with (JString (ShippingEntry.address e))
    by reflexivity.
  replace (get (entry_obj e) (u "productName"))
    with (JString (ShippingEntry.productName e)) by reflexivity.
  replace (get (entry_obj e) (u "size")) with (JString (ShippingEntry.size e))
    by reflexivity.
  replace (get (entry_obj e) (u "quantity")) with (JNumber (ShippingEntry.quantity e))
    by reflexivity.
  replace (get (entry_obj e) (u "message")) with (JString (ShippingEntry.message e))
    by reflexivity.
  cbn [map]. unfold escape.
  rewrite cell_text_quantity, !cell_text_string.
  reflexivity.
Qed.

(** *** The blob's bytes, and reading them back *)

Ltac zcmp :=
  repeat match goal with
  | |- context [?a <? ?b] => destruct (Z.ltb_spec a b)
  | |- context [?a <=? ?b] => destruct (Z.leb_spec a b)
  | |- context [?a =? ?b] => destruct (Z.eqb_spec a b)
  end; cbn [andb orb negb].
Ltac bsolve :=
  repeat match goal with
  | |- context [?a <? ?b] => destruct (Z.ltb_spec a b)
  | |- context [?a <=? ?b] => destruct (Z.leb_spec a b)
  end; cbn [andb orb negb]; (reflexivity || lia).

Ltac step_if :=
  match goal with
  | |- context [if ?b then _ else _] =>
    (replace b with true by (symmetry; bsolve)) ||
    (replace b with false by (symmetry; bsolve))
  end; cbv iota beta.

Lemma utf16_units_bmp (cp : Z) : cp < 65536 -> utf16_units cp = [cp].
Proof. intros H. unfold utf16_units. destruct (Z.ltb_spec cp 65536); [reflexivity | lia]. Qed.

Ltac split64 x :=
  let q := fresh "q" in let r := fresh "r" in
  pose proof (Z.div_mod x 64 ltac:(lia)); pose proof (Z.mod_pos_bound x 64 ltac:(lia));
  set (q := x / 64) in *; set (r := x mod 64) in *; clearbody q r.

Lemma utf8_decode_bytes (cp : Z) (rest : list Z) :
  scalar cp ->
  utf8_decode (utf8_bytes cp ++ rest) = option_map (app (utf16_units cp)) (utf8_decode rest).
Proof.
  intros [H1 H2]. unfold utf8_bytes.
  destruct (Z.ltb_spec cp 128).
  - rewrite utf16_units_bmp by lia.
    cbn [app utf8_decode]. step_if.
    destruct (utf8_decode rest); reflexivity.
  - destruct (Z.ltb_spec cp 2048).
    + rewrite utf16_units_bmp by lia.
      cbn [app utf8_decode]. unfold is_cont.
      split64 cp.
      replace ((192 + q - 192) * 64 + (128 + r - 128)) with cp by lia.
      (do 3 step_if).
      destruct (utf8_decode rest); reflexivity.
    + destruct (Z.ltb_spec cp 65536).
      * rewrite utf16_units_bmp by lia.
        cbn [app utf8_decode]. unfold is_cont, is_lead, is_trail.
        replace (cp / 4096) with (cp / 64 / 64) by (rewrite Z.div_div by lia; reflexivity).
        split64 cp. split64 q.
        replace ((224 + q0 - 224) * 4096 + (128 + r0 - 128) * 64 + (128 + r - 128)) with cp
          by lia.
        (do 4 step_if).
        destruct (utf8_decode rest); reflexivity.
      * cbn [app utf8_decode]. unfold is_cont.
        replace (cp / 262144) with (cp / 64 / 64 / 64) by (rewrite !Z.div_div by lia; reflexivity).
        replace (cp / 4096) with (cp / 64 / 64) by (rewrite Z.div_div by lia; reflexivity).
        remember (utf16_units cp) as us eqn:Hus.
        split64 cp. split64 q. split64 q0.
        replace ((240 + q1 - 240) * 262144 + (128 + r1 - 128) * 4096 +
                 (128 + r0 - 128) * 64 + (128 + r - 128)) with cp by lia.
        (do 5 step_if). subst us.
        destruct (utf8_decode rest); reflexivity.
Qed.

Lemma utf8_decode_encode (cps : list Z) :
  Forall scalar cps ->
  utf8_decode (flat_map utf8_bytes cps) = Some (flat_map utf16_units cps).
Proof.
  induction cps as [|cp cps IH]; intros H; [reflexivity|].
  inversion H as [|? ? Hcp Hcps]; subst.
  cbn [flat_map]. rewrite utf8_decode_bytes by exact Hcp. rewrite IH by exact Hcps.
  reflexivity.
Qed.

Lemma to_scalars_valid (s : jsstr) : units_ok s -> Forall scalar (to_scalars s).
Proof.
  unfold units_ok.
  remember (length s) as n eqn:Hn. assert (Hle : (length s <= n)%nat) by lia. clear Hn.
  revert s Hle. induction n as [|n IH]; intros s Hle Hs.
  - destruct s; [constructor | cbn in Hle; lia].
  - destruct s as [|c r]; [constructor|].
    inversion Hs as [|? ? Hc Hr]; subst. cbn in Hle.
    cbn [to_scalars]. unfold is_lead, is_trail.
    destruct r as [|d r'].
    + zcmp; repeat constructor; unfold scalar; lia.
    + inversion Hr as [|? ? Hd Hr']; subst. cbn in Hle.
      zcmp; try (constructor; [unfold scalar, pair_code_point; lia|]);
        try (apply IH; [cbn; lia | assumption]);
        try (apply IH; [cbn; lia | constructor; assumption]).
Qed.

Lemma to_scalars_sep (x y : jsstr) (c : Z) :
  is_lead c = false -> is_trail c = false ->
  to_scalars (x ++ c :: y) = to_scalars x ++ c :: to_scalars y.
Proof.
  intros Hl Ht.
  remember (length x) as n eqn:Hn. assert (Hle : (length x <= n)%nat) by lia. clear Hn.
  revert x Hle. induction n as [|n IH]; intros x Hle.
  - destruct x; [| cbn in Hle; lia]. cbn [app to_scalars]. rewrite Hl, Ht. reflexivity.
  - destruct x as [|c0 x']; [cbn [app to_scalars]; rewrite Hl, Ht; reflexivity|].
    cbn in Hle. cbn [app to_scalars].
    destruct (is_lead c0) eqn:L0.
    + destruct x' as [|d x''].
      * cbn [app]. rewrite Ht. cbn [to_scalars]. rewrite Hl, Ht. reflexivity.
      * cbn [app]. destruct (is_trail d) eqn:Td.
        -- rewrite IH by (cbn in Hle; lia). reflexivity.
        -- change (d :: x'' ++ c :: y) with ((d :: x'') ++ c :: y).
           rewrite (IH (d :: x'')) by (cbn in Hle |- *; lia). reflexivity.
    + destruct (is_trail c0); rewrite IH by lia; reflexivity.
Qed.

Lemma to_usv_sep (x y : jsstr) (c : Z) :
  0 <= c < 55296 \/ 57343 < c < 65536 -> to_usv (x ++ c :: y) = to_usv x ++ c :: to_usv y.
Proof.
  intros Hc. unfold to_usv.
  rewrite to_scalars_sep by (unfold is_lead, is_trail; zcmp; lia).
  rewrite flat_map_app. cbn [flat_map]. unfold utf16_units at 2.
  destruct (Z.ltb_spec c 65536); [reflexivity | lia].
Qed.

Lemma to_usv_join (c : Z) (l : list jsstr) :
  0 <= c < 55296 -> to_usv (join [c] l) = join [c] (map to_usv l).
Proof.
  intros Hc. induction l as [|x l IH]; [reflexivity|].
  destruct l as [|y l]; [reflexivity|].
  change (join [c] (x :: y :: l)) with (x ++ [c] ++ join [c] (y :: l)).
  change (join [c] (map to_usv (x :: y :: l)))
    with (to_usv x ++ [c] ++ join [c] (map to_usv (y :: l))).
  cbn [app]. rewrite to_usv_sep by lia. rewrite IH. reflexivity.
Qed.

Lemma to_scalars_pair (c d : Z) (r : jsstr) :
  is_lead c = true -> is_trail d = true ->
  to_scalars (c :: d :: r) = pair_code_point c d :: to_scalars r.
Proof. intros Lc Td. cbn [to_scalars]. rewrite Lc, Td. reflexivity. Qed.

Lemma to_scalars_lone_lead (c : Z) (r : jsstr) :
  is_lead c = true -> (forall d r', r = d :: r' -> is_trail d = false) ->
  to_scalars (c :: r) = 65533 :: to_scalars r.
Proof.
  intros Lc Hr. cbn [to_scalars]. rewrite Lc.
  destruct r as [|d r']; [reflexivity|]. rewrite (Hr d r' eq_refl). reflexivity.
Qed.

Lemma to_scalars_trail (c : Z) (r : jsstr) :
  is_lead c = false -> is_trail c = true -> to_scalars (c :: r) = 65533 :: to_scalars r.
Proof. intros Lc Tc. cbn [to_scalars]. rewrite Lc, Tc. reflexivity. Qed.

Lemma to_scalars_other (c : Z) (r : jsstr) :
  is_lead c = false -> is_trail c = false -> to_scalars (c :: r) = c :: to_scalars r.
Proof. intros Lc Tc. cbn [to_scalars]. rewrite Lc, Tc. reflexivity. Qed.

Lemma to_scalars_double_quotes (s : jsstr) :
  to_scalars (double_quotes s) = double_quotes (to_scalars s).
Proof.
  remember (length s) as n eqn:Hn. assert (Hle : (length s <= n)%nat) by lia. clear Hn.
  revert s Hle. induction n as [|n IH]; intros s Hle.
  - destruct s; [reflexivity | cbn in Hle; lia].
  - destruct s as [|c r]; [reflexivity|]. cbn in Hle.
    destruct (is_lead c) eqn:Lc.
    + assert (Hc : (c =? 34) = false) by (unfold is_lead in Lc; zcmp; lia).
      rewrite double_quotes_cons, Hc. cbn [app].
      destruct r as [|d r'].
      * cbn. rewrite Lc. reflexivity.
      * destruct (is_trail d) eqn:Td.
        -- assert (Hd : (d =? 34) = false) by (unfold is_trail in Td; zcmp; lia).
           rewrite double_quotes_cons, Hd. cbn [app].
           rewrite !to_scalars_pair by assumption.
           rewrite IH by (cbn in Hle; lia). rewrite double_quotes_cons.
           unfold pair_code_point, is_lead, is_trail in *.
           destruct (Z.eqb_spec (65536 + (c - 55296) * 1024 + (d - 56320)) 34); [lia|].
           reflexivity.
        -- rewrite (to_scalars_lone_lead c (d :: r')) by (exact Lc || (intros ? ? [= <- _]; exact Td)).
           rewrite to_scalars_lone_lead; [| exact Lc |].
           ++ rewrite IH by (cbn in Hle |- *; lia). reflexivity.
           ++ intros d' r'' Heq. rewrite double_quotes_cons in Heq.
              destruct (Z.eqb_spec d 34); cbn [app] in Heq; injection Heq as <- _;
                [reflexivity | exact Td].
    + destruct (is_trail c) eqn:Tc.
      * assert (Hc : (c =? 34) = false) by (unfold is_trail in Tc; zcmp; lia).
        rewrite double_quotes_cons, Hc. cbn [app].
        rewrite !to_scalars_trail by assumption.
        rewrite IH by lia. reflexivity.
      * rewrite (to_scalars_other c r) by assumption.
        rewrite !double_quotes_cons.
        destruct (Z.eqb_spec c 34) as [->|Hne].
        -- cbn [app]. rewrite !to_scalars_other by reflexivity.
           rewrite IH by lia. reflexivity.
        -- cbn [app]. rewrite to_scalars_other by assumption.
           rewrite IH by lia. reflexivity.
Qed.

Lemma flat_map_units_double_quotes (cps : list Z) :
  flat_map utf16_units (double_quotes cps) = double_quotes (flat_map utf16_units cps).
Proof.
  unfold double_quotes. induction cps as [|c cps IH]; [reflexivity|].
  cbn [flat_map]. rewrite flat_map_app, IH, flat_map_app. f_equal.
  unfold utf16_units. destruct (Z.eqb_spec c 34) as [->|Hne]; [reflexivity|].
  cbn [flat_map]. destruct (Z.ltb_spec c 65536); cbn [flat_map].
  - destruct (Z.eqb_spec c 34); [lia|]. reflexivity.
  - pose proof (Z.div_pos (c - 65536) 1024 ltac:(lia) ltac:(lia)).
    pose proof (Z.mod_pos_bound (c - 65536) 1024 ltac:(lia)).
    zcmp; try lia; reflexivity.
Qed.

Lemma to_usv_double_quotes (s : jsstr) :
  to_usv (double_quotes s) = double_quotes (to_usv s).
Proof.
  unfold to_usv. rewrite to_scalars_double_quotes, flat_map_units_double_quotes. reflexivity.
Qed.

Lemma to_usv_quoted (s : jsstr) : to_usv (quoted s) = quoted (to_usv s).
Proof.
  unfold quoted. change ([34] ++ double_quotes s ++ [34]) with ([] ++ 34 :: (double_quotes s ++ [34])).
  rewrite to_usv_sep by lia. rewrite to_usv_sep by lia.
  rewrite to_usv_double_quotes. reflexivity.
Qed.

Lemma to_usv_ascii (s : jsstr) : Forall (fun c => 0 <= c < 55296) s -> to_usv s = s.
Proof.
  induction s as [|c s IH]; intros H; [reflexivity|].
  inversion H as [|? ? Hc Hs]; subst.
  change (c :: s) with ([] ++ c :: s). rewrite to_usv_sep by lia.
  rewrite IH by exact Hs. reflexivity.
Qed.

Lemma is_lead_spec (c : Z) : is_lead c = true <-> 55296 <= c <= 56319.
Proof. unfold is_lead. rewrite andb_true_iff, Z.leb_le, Z.leb_le. reflexivity. Qed.

Lemma is_trail_spec (c : Z) : is_trail c = true <-> 56320 <= c <= 57343.
Proof. unfold is_trail. rewrite andb_true_iff, Z.leb_le, Z.leb_le. reflexivity. Qed.

Lemma utf16_units_pair (c d : Z) :
  is_lead c = true -> is_trail d = true -> utf16_units (pair_code_point c d) = [c; d].
Proof.
  intros Lc Td. apply is_lead_spec in Lc. apply is_trail_spec in Td.
  unfold utf16_units, pair_code_point.
  destruct (Z.ltb_spec (65536 + (c - 55296) * 1024 + (d - 56320)) 65536); [lia|].
  replace (65536 + (c - 55296) * 1024 + (d - 56320) - 65536)
    with ((d - 56320) + (c - 55296) * 1024) by lia.
  rewrite Z.div_add, Z.mod_add by lia.
  rewrite Z.div_small, Z.mod_small by lia.
  f_equal; [lia | f_equal; lia].
Qed.

Lemma to_usv_lone_free (s : jsstr) :
  units_ok s -> (to_usv s = s <-> lone_free s = true).
Proof.
  unfold units_ok.
  remember (length s) as n eqn:Hn. assert (Hle : (length s <= n)%nat) by lia. clear Hn.
  revert s Hle. induction n as [|n IH]; intros s Hle Hs.
  - destruct s; [split; reflexivity | cbn in Hle; lia].
  - destruct s as [|c r]; [split; reflexivity|]. cbn in Hle.
    inversion Hs as [|? ? Hc Hr]; subst.
    unfold to_usv. cbn [to_scalars lone_free].
    destruct (is_lead c) eqn:Lc.
    + destruct r as [|d r'].
      * apply is_lead_spec in Lc. cbn. split; [intros Hx; injection Hx; lia | discriminate].
      * inversion Hr as [|? ? Hd Hr']; subst.
        destruct (is_trail d) eqn:Td; cbn [andb].
        -- cbn [flat_map]. rewrite utf16_units_pair by assumption.
           rewrite <- (IH r') by (cbn in Hle; lia || assumption).
           unfold to_usv. cbn [app].
           split; [intros H; injection H as H; exact H | intros H; rewrite H; reflexivity].
        -- cbn [flat_map]. unfold utf16_units at 1. cbn [Z.ltb]. split; [|discriminate].
           intros Hx. apply is_lead_spec in Lc. injection Hx; intros; lia.
    + destruct (is_trail c) eqn:Tc.
      * cbn [flat_map]. split; [|discriminate]. intros Hx.
        rewrite utf16_units_bmp in Hx by lia. apply is_trail_spec in Tc.
        injection Hx; intros; lia.
      * cbn [flat_map]. unfold utf16_units at 1.
        destruct (Z.ltb_spec c 65536) as [Hlt|Hge]; [|lia].
        rewrite <- (IH r) by (lia || assumption). unfold to_usv. cbn [app].
        split; [intros Hx; injection Hx as Hx; exact Hx | intros Hx; rewrite Hx; reflexivity].
Qed.

Lemma units_ok_app (a b : jsstr) : units_ok a -> units_ok b -> units_ok (a ++ b).
Proof. intros Ha Hb. apply Forall_app. split; assumption. Qed.

Lemma units_ok_join (sep : jsstr) (l : list jsstr) :
  units_ok sep -> Forall units_ok l -> units_ok (join sep l).
Proof.
  intros Hs Hl. induction Hl as [|x l Hx Hl IH]; [constructor|].
  destruct l as [|y l]; [exact Hx|].
  change (join sep (x :: y :: l)) with (x ++ sep ++ join sep (y :: l)).
  apply units_ok_app; [exact Hx|]. apply units_ok_app; assumption.
Qed.

Lemma units_ok_quoted (s : jsstr) : units_ok s -> units_ok (quoted s).
Proof.
  intros Hs. unfold quoted. apply units_ok_app; [repeat constructor; lia|].
  apply units_ok_app; [|repeat constructor; lia].
  induction Hs as [|c s Hc Hs IH]; [constructor|].
  rewrite double_quotes_cons. apply units_ok_app; [|exact IH].
  destruct (c =? 34); repeat constructor; lia.
Qed.

Lemma dec_digits_ascii (fuel : nat) (n : Z) (acc : jsstr) :
  0 <= n -> Forall (fun c => 0 <= c < 55296) acc ->
  Forall (fun c => 0 <= c < 55296) (dec_digits fuel n acc).
Proof.
  revert n acc. induction fuel as [|f IH]; intros n acc Hn Hacc; [exact Hacc|].
  pose proof (Z.mod_pos_bound n 10 ltac:(lia)) as Hm.
  cbn [dec_digits]. destruct (n <? 10).
  - constructor; [lia | exact Hacc].
  - apply IH; [apply Z.div_pos; lia|]. constructor; [lia | exact Hacc].
Qed.

Lemma number_to_string_ascii (n : Z) :
  Forall (fun c => 0 <= c < 55296) (number_to_string n).
Proof.
  unfold number_to_string. destruct (n <? 0) eqn:E.
  - apply Z.ltb_lt in E. constructor; [lia|].
    apply dec_digits_ascii; [lia | constructor].
  - apply Z.ltb_ge in E. apply dec_digits_ascii; [lia | constructor].
Qed.

Lemma ascii_units_ok (s : jsstr) : Forall (fun c => 0 <= c < 55296) s -> units_ok s.
Proof. apply Forall_impl. intros c Hc. lia. Qed.

Lemma quantity_text_ascii (q : Z) :
  Forall (fun c => 0 <= c < 55296) (if q =? 0 then u "1" else number_to_string q).
Proof.
  destruct (q =? 0); [change (u "1") with [49]; repeat constructor; lia | apply number_to_string_ascii].
Qed.

Lemma to_usv_bom (t : jsstr) : to_usv (65279 :: t) = 65279 :: to_usv t.
Proof. change (65279 :: t) with ([] ++ 65279 :: t). rewrite to_usv_sep by lia. reflexivity. Qed.

Lemma to_usv_row (e : ShippingEntry.t) :
  to_usv (join [44] (map quoted
    [ShippingEntry.instagramId e; ShippingEntry.name e; ShippingEntry.phone e;
     []; []; ShippingEntry.address e; ShippingEntry.productName e;
     ShippingEntry.size e;
     (if ShippingEntry.quantity e =? 0 then u "1"
      else number_to_string (ShippingEntry.quantity e));
     ShippingEntry.message e])) =
  join [44] (map quoted
    [to_usv (ShippingEntry.instagramId e); to_usv (ShippingEntry.name e);
     to_usv (ShippingEntry.phone e); []; []; to_usv (ShippingEntry.address e);
     to_usv (ShippingEntry.productName e); to_usv (ShippingEntry.size e);
     (if ShippingEntry.quantity e =? 0 then u "1"
      else number_to_string (ShippingEntry.quantity e));
     to_usv (ShippingEntry.message e)]).
Proof.
  rewrite to_usv_join by lia. rewrite map_map. cbn [map].
  rewrite !to_usv_quoted.
  rewrite (to_usv_ascii (if ShippingEntry.quantity e =? 0 then u "1"
                         else number_to_string (ShippingEntry.quantity e)))
    by apply quantity_text_ascii.
  reflexivity.
Qed.

(** The export of a non-empty list of entries: the bytes of the blob, their
    UTF-8 decoding, and the rows a CSV reader reads from it. *)
Lemma export_read (filename : jsstr) (es : list ShippingEntry.t) :
  es <> [] -> Forall entry_units_ok es ->
  let text := 65279 :: join [10] (join [44] customHeaders ::
                map (fun e => join [44] (map quoted
                  [ShippingEntry.instagramId e; ShippingEntry.name e; ShippingEntry.phone e;
                   []; []; ShippingEntry.address e; ShippingEntry.productName e;
                   ShippingEntry.size e;
                   (if ShippingEntry.quantity e =? 0 then u "1"
                    else number_to_string (ShippingEntry.quantity e));
                   ShippingEntry.message e])) es) in
  downloadCSV filename (map entry_obj es) = Some (filename, blob_bytes text) /\
  utf8_decode (blob_bytes text) = Some (to_usv text) /\
  csv_read (to_usv text) = customHeaders ::
    map (fun e =>
      [to_usv (ShippingEntry.instagramId e); to_usv (ShippingEntry.name e);
       to_usv (ShippingEntry.phone e); []; []; to_usv (ShippingEntry.address e);
       to_usv (ShippingEntry.productName e); to_usv (ShippingEntry.size e);
       (if ShippingEntry.quantity e =? 0 then u "1"
        else number_to_string (ShippingEntry.quantity e));
       to_usv (ShippingEntry.message e)]) es.
Proof.
  intros Hne Hu text. split; [|split].
  - destruct es as [|e0 es']; [congruence|].
    unfold downloadCSV, csvString, text. rewrite !map_map.
    erewrite map_ext with (f := fun x => join [44] (csv_row (entry_obj x)));
      [reflexivity|].
    intros e. cbv beta. rewrite csv_row_entry. reflexivity.
  - unfold blob_bytes, to_usv. apply utf8_decode_encode, to_scalars_valid.
    unfold text. constructor; [lia|].
    apply units_ok_join; [repeat constructor; lia|].
    constructor; [apply units_ok_join; [repeat constructor; lia | repeat constructor; lia]|].
    apply Forall_map. apply (Forall_impl _ (fun e (He : entry_units_ok e) => He)) in Hu.
    eapply Forall_impl; [|exact Hu]. intros e He. unfold entry_units_ok in He.
    apply units_ok_join; [repeat constructor; lia|].
    inversion He as [|? ? H1 He1]; subst. inversion He1 as [|? ? H2 He2]; subst.
    inversion He2 as [|? ? H3 He3]; subst. inversion He3 as [|? ? H4 He4]; subst.
    inversion He4 as [|? ? H5 He5]; subst. inversion He5 as [|? ? H6 He6]; subst.
    inversion He6 as [|? ? H7 _]; subst.
    repeat (apply Forall_cons; [apply units_ok_quoted|]); try assumption;
      try constructor; try apply ascii_units_ok, quantity_text_ascii.
  - unfold text. rewrite to_usv_bom, to_usv_join by lia. cbn [map].
    replace (to_usv (join [44] customHeaders)) with (join [44] customHeaders)
      by (vm_compute; reflexivity).
    rewrite map_map.
    erewrite map_ext by (intros e; apply to_usv_row).
    rewrite <- (map_map _ (fun cs => join [44] (map quoted cs))).
    unfold csv_read. cbn [strip_bom].
    apply csv_go_document.
    + destruct es; [congruence|]. discriminate.
    + apply Forall_forall. intros cs Hin. apply in_map_iff in Hin.
      destruct Hin as (e & <- & _). discriminate.
Qed.

(** C5 (as amended). [downloadCSV] emits nothing for an empty list. For a
    non-empty list of shipping entries (whose strings are made of 16-bit
    code units) the string it puts in the blob is a byte-order mark, then
    the ten header strings joined by commas (unquoted), then one line per
    entry whose ten fields are each wrapped in double quotes with embedded
    quotes doubled, the fourth and fifth being empty. The file's bytes are
    the UTF-8 encoding of that string as a USVString; decoding them as
    UTF-8 gives the string with each lone surrogate replaced by U+FFFD, and
    a standard CSV reader gives back the header row and, for each entry, its
    instagramId, name, phone, address, productName, size and message with
    that same replacement (so exactly, Hangul included, for a field with no
    lone surrogate, and only then), and its quantity as a decimal string,
    except that a quantity of 0 is read back as "1". *)
Theorem downloadCSV_export (filename : jsstr) (entries : list ShippingEntry.t) :
  (entries = [] -> downloadCSV filename (map entry_obj entries) = None) /\
  (entries <> [] -> Forall entry_units_ok entries ->
   let text := 65279 :: join [10] (join [44] customHeaders ::
                 map (fun e => join [44] (map quoted
                   [ShippingEntry.instagramId e; ShippingEntry.name e; ShippingEntry.phone e;
                    []; []; ShippingEntry.address e; ShippingEntry.productName e;
                    ShippingEntry.size e;
                    (if ShippingEntry.quantity e =? 0 then u "1"
                     else number_to_string (ShippingEntry.quantity e));
                    ShippingEntry.message e])) entries) in
   downloadCSV filename (map entry_obj entries) = Some (filename, blob_bytes text) /\
   utf8_decode (blob_bytes text) = Some (to_usv text) /\
   csv_read (to_usv text) = customHeaders ::
     map (fun e =>
       [to_usv (ShippingEntry.instagramId e); to_usv (ShippingEntry.name e);
        to_usv (ShippingEntry.phone e); []; []; to_usv (ShippingEntry.address e);
        to_usv (ShippingEntry.productName e); to_usv (ShippingEntry.size e);
        (if ShippingEntry.quantity e =? 0 then u "1"
         else number_to_string (ShippingEntry.quantity e));
        to_usv (ShippingEntry.message e)]) entries) /\
  (forall s, units_ok s -> (to_usv s = s <-> lone_free s = true)).
Proof.
  split; [intros ->; reflexivity|]. split.
  - apply export_read.
  - apply to_usv_lone_free.
Qed.

(** Witness for C5: the export of the single sample entry (Hangul name,
    quantity 2) is read back field by field. *)
Lemma downloadCSV_export_witness :
  [sample_entry] <> [] /\ Forall entry_units_ok [sample_entry] /\
  exists bytes text,
    downloadCSV (u "shipping.csv") (map entry_obj [sample_entry]) = Some (u "shipping.csv", bytes) /\
    utf8_decode bytes = Some text /\
    csv_read text =
      [customHeaders;
       [u "abc"; sample_name; u "010-1234-5678"; []; []; u "Seoul"; u "Tee"; u "M";
        u "2"; u "fast please"]].
Proof.
  assert (Hne : [sample_entry] <> []) by discriminate.
  assert (Hu : Forall entry_units_ok [sample_entry]).
  { constructor; [|constructor]. unfold entry_units_ok, units_ok. cbn.
    repeat (constructor || lia). }
  split; [exact Hne|]. split; [exact Hu|].
  destruct (downloadCSV_export (u "shipping.csv") [sample_entry]) as [_ [H _]].
  destruct (H Hne Hu) as (H1 & H2 & H3).
  eexists; eexists. split; [exact H1|]. split; [exact H2|]. rewrite H3. vm_compute. reflexivity.
Defined.

(** Counterexample to C5 as stated: an entry whose quantity is 0 is read
    back from the export with quantity "1", not "0" (the text of String(0)),
    and an entry whose name is a lone surrogate is read back with the name
    U+FFFD; parsing the output does not reproduce every field. *)
Lemma downloadCSV_export_counterexample :
  ShippingEntry.quantity sample_entry_q0 = 0 /\
  number_to_string 0 = u "0" /\
  ShippingEntry.name sample_entry_lone = [55296] /\
  exists bytes text,
    downloadCSV (u "shipping.csv") (map entry_obj [sample_entry_q0; sample_entry_lone]) =
      Some (u "shipping.csv", bytes) /\
    utf8_decode bytes = Some text /\
    nth 8 (nth 1 (csv_read text) []) [] = u "1" /\
    nth 1 (nth 2 (csv_read text) []) [] = [65533].
Proof.
  split; [reflexivity|]. split; [vm_compute; reflexivity|]. split; [reflexivity|].
  eexists; eexists. split; [reflexivity|]. split; [cbv; reflexivity|].
  split; vm_compute; reflexivity.
Qed.

(** [parseInt] yields either [NaN] or a number. *)
Lemma parseInt_cases (s : jsstr) :
  parseInt s = JNaN \/ exists z, parseInt s = JNumber z.
Proof.
  unfold parseInt.
  repeat match goal with
  | |- context [match ?p with (_, _) => _ end] => destruct p
  end.
  destruct (digits_prefix _ _ _ _); [right; eexists; reflexivity | left; reflexivity].
Qed.

(** C6 (as amended). Editing the Selection Limit field to [value] stores
    [parseInt(value)] as the collection's maxProducts when that is a nonzero
    number, and 1 when it is NaN or 0; no other field changes. The stored
    value is therefore never 0, but it is negative for a negative input. *)
Theorem onMaxProductsChange_value (collection : Collection.t) (value : jsstr) :
  snd (onMaxProductsChange collection value) =
    Collection.with_maxProducts collection (maxProducts_input value) /\
  maxProducts_input value =
    match parseInt value with
    | JNumber z => if z =? 0 then 1 else z
    | _ => 1
    end /\
  maxProducts_input value <> 0.
Proof.
  assert (E : maxProducts_input value =
    match parseInt value with
    | JNumber z => if z =? 0 then 1 else z
    | _ => 1
    end).
  { unfold maxProducts_input, js_or.
    destruct (parseInt_cases value) as [-> | [z ->]]; [reflexivity|].
    simpl. destruct (z =? 0); reflexivity. }
  split; [reflexivity|]. split; [exact E|].
  rewrite E. destruct (parseInt value) as [| | |z| |]; try discriminate.
  destruct (z =? 0) eqn:Hz; [discriminate|].
  apply Z.eqb_neq. exact Hz.
Qed.

(** Counterexample to C6 as stated: typing -3 in the Selection Limit field
    stores -3, which is not a positive integer. *)
Lemma onMaxProductsChange_value_counterexample :
  Collection.maxProducts (snd (onMaxProductsChange sample_collection (u "-3"))) = -3 /\
  ~ (0 < -3).
Proof. split; [vm_compute; reflexivity | lia]. Qed.

(** C7 (as amended). Creating a collection whose name is empty after
    trimming does nothing and shows nothing. Otherwise, when the storage
    estimate is at or above 95% of [MAX_STORAGE_MB], it shows an error and
    leaves the state unchanged. Otherwise it appends exactly one collection,
    named by the trimmed name, whose id is [generateId()], whose access code
    is the first 6 characters of a second [generateId()] (so
    [min 6 (length r2 - 2)] characters, fewer than 6 when
    [Math.random().toString(36)] is short), with maxProducts 2 and no
    products, shipping entries or lookbook images. *)
Theorem createCollection_contract (newCollectionName : jsstr) (ls : Storage)
    (r1 r2 : jsstr) (state : AppState.t) :
  (trim newCollectionName = [] ->
   createCollection newCollectionName ls r1 r2 state = (NoNotice, state)) /\
  (trim newCollectionName <> [] -> storage_nearly_full ls = true ->
   exists msg, createCollection newCollectionName ls r1 r2 state = (NotifyError msg, state)) /\
  (trim newCollectionName <> [] -> storage_nearly_full ls = false ->
   exists msg coll,
     createCollection newCollectionName ls r1 r2 state =
       (NotifySuccess msg,
        AppState.with_collections state (AppState.collections state ++ [coll])) /\
     Collection.id coll = generateId r1 /\
     Collection.name coll = trim newCollectionName /\
     Collection.accessCode coll = firstn 6 (generateId r2) /\
     length (Collection.accessCode coll) = Nat.min 6 (length r2 - 2) /\
     Collection.maxProducts coll = 2 /\
     Collection.products coll = [] /\
     Collection.shippingEntries coll = [] /\
     Collection.lookbookImages coll = []).
Proof.
  unfold createCollection.
  split; [|split].
  - intros ->. reflexivity.
  - intros Hn Hf. rewrite (proj2 (jsstr_eqb_false _ _) Hn), Hf. eexists. reflexivity.
  - intros Hn Hf. rewrite (proj2 (jsstr_eqb_false _ _) Hn), Hf.
    do 2 eexists. split; [reflexivity|].
    cbn [Collection.id Collection.name Collection.accessCode Collection.maxProducts
         Collection.products Collection.shippingEntries Collection.lookbookImages].
    repeat split.
    unfold generateId. rewrite !length_firstn, length_skipn. lia.
Qed.

(** Witness for C7: a non-blank name with empty storage creates the
    collection. *)
Lemma createCollection_contract_witness :
  exists msg coll,
    createCollection (u " SS27 ") [] (u "0.abcdefghijk") (u "0.x7k2qa9zz") sample_state =
      (NotifySuccess msg,
       AppState.with_collections sample_state (AppState.collections sample_state ++ [coll])) /\
    Collection.accessCode coll = u "x7k2qa".
Proof.
  destruct (createCollection_contract (u " SS27 ") [] (u "0.abcdefghijk") (u "0.x7k2qa9zz")
              sample_state) as (_ & _ & H).
  destruct (H ltac:(vm_compute; discriminate) ltac:(vm_compute; reflexivity))
    as (msg & coll & Heq & _ & _ & Hcode & _).
  exists msg, coll. split; [exact Heq|]. rewrite Hcode. vm_compute. reflexivity.
Defined.

(** Counterexample to C7 as stated: a blank name is refused without any
    warning, and when [Math.random()] is 0.5 (whose base-36 text is 0.i) the
    access code has 1 character, not 6. *)
Lemma createCollection_contract_counterexample :
  createCollection (u "   ") [] (u "0.abcdefghijk") (u "0.x7k2qa9zz") sample_state =
    (NoNotice, sample_state) /\
  exists msg coll,
    createCollection (u "SS27") [] (u "0.abcdefghijk") (u "0.i") sample_state =
      (NotifySuccess msg,
       AppState.with_collections sample_state (AppState.collections sample_state ++ [coll])) /\
    Collection.accessCode coll = u "i" /\ length (Collection.accessCode coll) <> 6%nat.
Proof.
  split; [vm_compute; reflexivity|].
  do 2 eexists. split; [vm_compute; reflexivity|].
  split; [reflexivity | discriminate].
Qed.

(** C8 (as amended). The initial state is the default document, without a
    log, when nothing is stored under [STORAGE_KEY] or the stored string is
    empty; it is the default document, with a [console.error] log, when
    reading storage throws or the stored string is non-empty and not valid
    JSON; and it is
    the parsed value itself, without a log, whenever the stored string is
    valid JSON, whatever its structure. No notice is shown in any case. *)
Theorem load_contract (r : getItem_result) :
  (r = ItemNull -> load r = (defaultState, false)) /\
  (r = ItemThrows -> load r = (defaultState, true)) /\
  (r = ItemString [] -> load r = (defaultState, false)) /\
  (forall saved, r = ItemString saved -> saved <> [] -> JSON_parse saved = None ->
   load r = (defaultState, true)) /\
  (forall saved v, r = ItemString saved -> saved <> [] -> JSON_parse saved = Some v ->
   load r = (v, false)).
Proof.
  split; [intros ->; reflexivity|].
  split; [intros ->; reflexivity|].
  split; [intros ->; reflexivity|].
  split.
  - intros saved -> Hne Hp. unfold load.
    rewrite (proj2 (jsstr_eqb_false _ _) Hne), Hp. reflexivity.
  - intros saved v -> Hne Hp. unfold load.
    rewrite (proj2 (jsstr_eqb_false _ _) Hne), Hp. reflexivity.
Qed.

(** Witness for C8: the text [JSON.stringify(defaultState)] is loaded back
    as the default document. *)
Lemma load_contract_witness :
  load (ItemString ([123; 34] ++ u "collections" ++ [34; 58; 91; 93; 44; 34] ++
                    u "activeCollectionId" ++ [34; 58] ++ u "null," ++ [34] ++
                    u "adminAccessCode" ++ [34; 58; 34] ++ u "admin" ++ [34; 125])) =
    (defaultState, false).
Proof.
  destruct (load_contract (ItemString ([123; 34] ++ u "collections" ++ [34; 58; 91; 93; 44; 34] ++
                    u "activeCollectionId" ++ [34; 58] ++ u "null," ++ [34] ++
                    u "adminAccessCode" ++ [34; 58; 34] ++ u "admin" ++ [34; 125])))
    as (_ & _ & _ & _ & H).
  apply (H _ defaultState eq_refl); [discriminate | vm_compute; reflexivity].
Defined.

(** Counterexample to C8 as stated: the stored text [{}] is valid JSON but
    has none of the AppState fields; it is loaded as the empty object, with
    no fallback to the default document and no log. *)
Lemma load_contract_counterexample :
  load (ItemString (u "{}")) = (JSONObject [], false) /\ JSONObject [] <> defaultState.
Proof. split; [vm_compute; reflexivity | discriminate]. Qed.

Lemma read_digits_digit (d : Z) (r : jsstr) (num den : Z) :
  0 <= d <= 9 ->
  read_digits ((48 + d) :: r) num den = read_digits r (num * 10 + d) (den * 10).
Proof.
  intros Hd. cbn [read_digits].
  replace ((48 <=? 48 + d) && (48 + d <=? 57)) with true
    by (symmetry; apply andb_true_iff; split; apply Z.leb_le; lia).
  f_equal. lia.
Qed.

Lemma read_digits_dot (r : jsstr) (num den : Z) :
  read_digits (46 :: r) num den = (num, den, 46 :: r).
Proof. reflexivity. Qed.

Lemma dec_digits_app (fuel : nat) (n : Z) (acc rest : jsstr) :
  dec_digits fuel n acc ++ rest = dec_digits fuel n (acc ++ rest).
Proof.
  revert n acc. induction fuel as [|f IH]; intros n acc; [reflexivity|].
  simpl. destruct (n <? 10); [reflexivity|]. apply (IH (n / 10) (_ :: acc)).
Qed.

Lemma read_dec_digits (fuel : nat) (n : Z) (acc : jsstr) (num den : Z) :
  0 <= n < 10 ^ Z.of_nat fuel ->
  exists k, 0 <= k /\
    read_digits (dec_digits fuel n acc) num den =
    read_digits acc (num * 10 ^ k + n) (den * 10 ^ k).
Proof.
  revert n acc num den.
  induction fuel as [|f IH]; intros n acc num den Hn.
  - simpl in Hn. exists 0. split; [lia|]. simpl.
    replace n with 0 by lia. f_equal; ring.
  - rewrite Nat2Z.inj_succ, Z.pow_succ_r in Hn by lia.
    pose proof (Z.mod_pos_bound n 10 ltac:(lia)) as Hm.
    pose proof (Z.div_mod n 10 ltac:(lia)) as Hdm.
    cbn [dec_digits]. destruct (n <? 10) eqn:E.
    + apply Z.ltb_lt in E. exists 1. split; [lia|].
      rewrite read_digits_digit by lia.
      rewrite Z.mod_small by lia. f_equal; lia.
    + apply Z.ltb_ge in E.
      destruct (IH (n / 10) ((48 + n mod 10) :: acc) num den) as (k & Hk & ->).
      { split; [apply Z.div_pos; lia|].
        apply Z.div_lt_upper_bound; lia. }
      exists (k + 1). split; [lia|].
      rewrite read_digits_digit by lia.
      rewrite Z.pow_add_r, Z.pow_1_r by lia. f_equal; lia.
Qed.

Lemma number_to_string_nonneg (q : Z) :
  0 <= q -> number_to_string q = dec_digits (S (Z.to_nat (Z.log2 q))) q [].
Proof.
  intros Hq. unfold number_to_string.
  destruct (q <? 0) eqn:E; [apply Z.ltb_lt in E; lia | reflexivity].
Qed.

Lemma number_to_string_fuel (q : Z) :
  0 <= q -> 0 <= q < 10 ^ Z.of_nat (S (Z.to_nat (Z.log2 q))).
Proof.
  intros Hq. split; [exact Hq|].
  pose proof (Z.log2_nonneg q).
  rewrite Nat2Z.inj_succ, Z2Nat.id by lia.
  destruct (Z.eq_dec q 0) as [->|Hq0]; [reflexivity|].
  destruct (Z.log2_spec q ltac:(lia)) as [_ Hlt].
  eapply Z.lt_le_trans; [exact Hlt|].
  apply Z.pow_le_mono_l. lia.
Qed.

Lemma storage_total_fold_nonneg (ls : Storage) (acc : Z) :
  0 <= acc ->
  0 <= fold_left (fun total '(x, v) => total + (Z.of_nat (length v) + Z.of_nat (length x)) * 2)
         ls acc.
Proof.
  revert acc. induction ls as [|[x v] ls IH]; intros acc Hacc; [exact Hacc|].
  simpl. apply IH. lia.
Qed.

Lemma storage_total_nonneg (ls : Storage) : 0 <= storage_total ls.
Proof. apply storage_total_fold_nonneg. lia. Qed.

(** The text [toFixed2 total] reads back as [n / 100], [n] its number of
    hundredths. *)
Lemma toFixed2_read (total : Z) :
  0 <= total ->
  parseFloat_decimal (toFixed2 total) = Some (toFixed2_hundredths total, 100).
Proof.
  intros Ht. unfold toFixed2.
  set (n := toFixed2_hundredths total).
  assert (Hn : 0 <= n) by (apply Z.div_pos; lia).
  pose proof (Z.mod_pos_bound n 100 ltac:(lia)) as Hf.
  pose proof (Z.div_mod n 100 ltac:(lia)) as Hdm.
  assert (Hq : 0 <= n / 100) by (apply Z.div_pos; lia).
  pose proof (Z.mod_pos_bound (n mod 100) 10 ltac:(lia)) as Hf2.
  pose proof (Z.div_mod (n mod 100) 10 ltac:(lia)) as Hdm2.
  assert (Hf1 : 0 <= n mod 100 / 10 <= 9).
  { split; [apply Z.div_pos; lia|].
    assert (n mod 100 / 10 < 10) by (apply Z.div_lt_upper_bound; lia). lia. }
  rewrite (number_to_string_nonneg _ Hq), dec_digits_app.
  unfold parseFloat_decimal.
  destruct (read_dec_digits (S (Z.to_nat (Z.log2 (n / 100)))) (n / 100)
              ([] ++ [46; 48 + n mod 100 / 10; 48 + n mod 100 mod 10]) 0 1
              (number_to_string_fuel _ Hq)) as (k & Hk & ->).
  cbn [app]. rewrite read_digits_dot. cbv beta iota.
  rewrite !read_digits_digit by lia. cbn [read_digits]. cbv beta iota.
  f_equal. f_equal. lia.
Qed.

(** C9 (as amended). [getStorageUsage()] returns a string, not a number:
    the sum [total] of [2 * (key.length + value.length)] over the stored
    pairs, divided by 1048576 and formatted by [toFixed(2)]. That string
    reads as [n / 100], where [n] is the integer nearest to
    [100 * total / 1048576] (the larger one on a tie). For the single pair
    (k, v) it is the string 0.00. *)
Theorem getStorageUsage_estimate (ls : Storage) :
  let total := storage_total ls in
  let n := toFixed2_hundredths total in
  getStorageUsage ls = JString (toFixed2 total) /\
  typeof (getStorageUsage ls) = u "string" /\
  0 <= total /\
  n * 2097152 <= 200 * total + 1048576 < (n + 1) * 2097152 /\
  parseFloat_decimal (toFixed2 total) = Some (n, 100) /\
  getStorageUsage [(u "k", u "v")] = JString (u "0.00").
Proof.
  cbv zeta.
  pose proof (storage_total_nonneg ls) as Ht.
  split; [reflexivity|]. split; [reflexivity|]. split; [exact Ht|].
  split; [|split; [apply toFixed2_read; exact Ht | vm_compute; reflexivity]].
  unfold toFixed2_hundredths.
  pose proof (Z.div_mod (200 * storage_total ls + 1048576) 2097152 ltac:(lia)).
  pose proof (Z.mod_pos_bound (200 * storage_total ls + 1048576) 2097152 ltac:(lia)).
  lia.
Qed.

(** Counterexample to C9 as stated: for the single pair (k, v) the
    estimate is the string 0.00, of type string, not a number. *)
Lemma getStorageUsage_estimate_counterexample :
  getStorageUsage [(u "k", u "v")] = JString (u "0.00") /\
  typeof (getStorageUsage [(u "k", u "v")]) = u "string" /\
  u "string" <> u "number".
Proof. split; [vm_compute; reflexivity|]. split; [reflexivity | discriminate]. Qed.

Lemma double_quotes_id (s : jsstr) :
  Forall (fun c => c <> 34) s -> double_quotes s = s.
Proof.
  induction 1 as [|c s Hc _ IH]; [reflexivity|].
  rewrite double_quotes_cons, IH.
  destruct (c =? 34) eqn:E; [apply Z.eqb_eq in E; contradiction | reflexivity].
Qed.

Lemma dec_digits_no_quote (fuel : nat) (n : Z) (acc : jsstr) :
  0 <= n -> Forall (fun c => c <> 34) acc ->
  Forall (fun c => c <> 34) (dec_digits fuel n acc).
Proof.
  revert n acc. induction fuel as [|f IH]; intros n acc Hn Hacc; [exact Hacc|].
  pose proof (Z.mod_pos_bound n 10 ltac:(lia)) as Hm.
  cbn [dec_digits]. destruct (n <? 10).
  - constructor; [lia | exact Hacc].
  - apply IH; [apply Z.div_pos; lia|]. constructor; [lia | exact Hacc].
Qed.

Lemma number_to_string_no_quote (n : Z) :
  Forall (fun c => c <> 34) (number_to_string n).
Proof.
  unfold number_to_string. destruct (n <? 0) eqn:E.
  - apply Z.ltb_lt in E. constructor; [lia|].
    apply dec_digits_no_quote; [lia | constructor].
  - apply Z.ltb_ge in E. apply dec_digits_no_quote; [lia | constructor].
Qed.

(** C10. In the row [downloadCSV] writes for an item, the quantity cell
    holds [String(quantity)] when the quantity is truthy and 1 otherwise; for
    a numeric quantity [n] it is exactly the decimal text of [n] between
    quotes, or 1 when [n] is 0. The two blank columns always hold the empty
    quoted string, and every text column holds [String(value)] for a truthy
    value and the empty quoted string for a falsy one (empty string, null,
    undefined, a missing property, 0, false or NaN), never the text null or
    undefined. *)
Theorem csv_row_defaults (item : jsobj) :
  let q := get item (u "quantity") in
  length (csv_row item) = 10%nat /\
  nth 8 (csv_row item) [] = quoted (if truthy q then ToString q else u "1") /\
  (forall n, q = JNumber n ->
   nth 8 (csv_row item) [] =
     [34] ++ (if n =? 0 then u "1" else number_to_string n) ++ [34]) /\
  nth 3 (csv_row item) [] = [34; 34] /\
  nth 4 (csv_row item) [] = [34; 34] /\
  (forall i key,
   In (i, key) [(0%nat, u "instagramId"); (1%nat, u "name"); (2%nat, u "phone");
                (5%nat, u "address"); (6%nat, u "productName"); (7%nat, u "size");
                (9%nat, u "message")] ->
   nth i (csv_row item) [] =
     quoted (if truthy (get item key) then ToString (get item key) else []) /\
   (truthy (get item key) = false -> nth i (csv_row item) [] = [34; 34])).
Proof.
  cbv zeta.
  assert (Hq : nth 8 (csv_row item) [] =
    quoted (if truthy (get item (u "quantity")) then ToString (get item (u "quantity"))
            else u "1")).
  { cbn [csv_row csv_row_values map nth]. unfold escape, cell_text, js_or.
    destruct (truthy (get item (u "quantity"))) eqn:E; rewrite ?E; reflexivity. }
  split; [reflexivity|]. split; [exact Hq|].
  split; [|split; [reflexivity|split; [reflexivity|]]].
  - intros n Hn. rewrite Hq, Hn. unfold quoted. cbn [truthy ToString].
    destruct (n =? 0); [reflexivity|].
    cbn [negb]. rewrite double_quotes_id by apply number_to_string_no_quote.
    reflexivity.
  - intros i key Hin. clear Hq.
    assert (Hc : nth i (csv_row item) [] =
      quoted (if truthy (get item key) then ToString (get item key) else [])).
    { cbn [In] in Hin.
      repeat destruct Hin as [Hin | Hin]; try contradiction;
        injection Hin as <- <-;
        cbn [csv_row csv_row_values map nth]; unfold escape, cell_text, js_or;
        match goal with
        | |- context [if truthy ?v then _ else _] => destruct (truthy v)
        end; reflexivity. }
    split; [exact Hc|]. intros Hf. rewrite Hc, Hf. reflexivity.
Qed.

(** Witness for C10: an entry with quantity 0 is exported with quantity 1,
    and an item without a name property gets an empty name cell. *)
Lemma csv_row_defaults_witness :
  nth 8 (csv_row (entry_obj sample_entry_q0)) [] = [34; 49; 34] /\
  nth 1 (csv_row [(u "quantity", JNumber 3)]) [] = [34; 34].
Proof.
  destruct (csv_row_defaults (entry_obj sample_entry_q0)) as (_ & _ & H1 & _).
  destruct (csv_row_defaults [(u "quantity", JNumber 3)]) as (_ & _ & _ & _ & _ & H2).
  split.
  - rewrite (H1 0 eq_refl). reflexivity.
  - apply (H2 1%nat (u "name")); [simpl; auto | reflexivity].
Defined.

(* ------------------------------------------------------------------ *)
(** ** Saving and loading the state *)

Lemma hex_value_digit (d : Z) : 0 <= d < 16 -> hex_value (hex_digit d) = Some d.
Proof.
  intros Hd. unfold hex_value, hex_digit, digit_value.
  destruct (d <? 10) eqn:E.
  - apply Z.ltb_lt in E.
    replace ((48 <=? 48 + d) && (48 + d <=? 57)) with true
      by (symmetry; apply andb_true_iff; split; apply Z.leb_le; lia).
    replace (48 + d - 48) with d by lia.
    replace (d <? 16) with true by (symmetry; apply Z.ltb_lt; lia). reflexivity.
  - apply Z.ltb_ge in E.
    replace ((48 <=? 87 + d) && (87 + d <=? 57)) with false
      by (symmetry; apply andb_false_iff; right; apply Z.leb_gt; lia).
    replace ((97 <=? 87 + d) && (87 + d <=? 122)) with true
      by (symmetry; apply andb_true_iff; split; apply Z.leb_le; lia).
    replace (87 + d - 87) with d by lia.
    replace (d <? 16) with true by (symmetry; apply Z.ltb_lt; lia). reflexivity.
Qed.

Lemma parse_string_body_u (h1 h2 h3 h4 : Z) (t acc : jsstr) :
  parse_string_body (92 :: 117 :: h1 :: h2 :: h3 :: h4 :: t) acc =
  match hex_value h1, hex_value h2, hex_value h3, hex_value h4 with
  | Some a, Some b, Some c', Some d =>
    parse_string_body t ((((a * 16 + b) * 16 + c') * 16 + d) :: acc)
  | _, _, _, _ => None
  end.
Proof. reflexivity. Qed.

Lemma parse_unicode_escape (n : Z) (t acc : jsstr) :
  0 <= n < 65536 ->
  parse_string_body (unicode_escape n ++ t) acc = parse_string_body t (n :: acc).
Proof.
  intros Hn. unfold unicode_escape. cbn [app].
  rewrite parse_string_body_u.
  assert (H4096 : n / 4096 = n / 16 / 16 / 16) by (rewrite !Z.div_div by lia; reflexivity).
  assert (H256 : n / 256 = n / 16 / 16) by (rewrite !Z.div_div by lia; reflexivity).
  rewrite H4096, H256.
  pose proof (Z.div_mod n 16 ltac:(lia)).
  pose proof (Z.div_mod (n / 16) 16 ltac:(lia)).
  pose proof (Z.div_mod (n / 16 / 16) 16 ltac:(lia)).
  pose proof (Z.div_mod (n / 16 / 16 / 16) 16 ltac:(lia)).
  pose proof (Z.mod_pos_bound n 16 ltac:(lia)).
  pose proof (Z.mod_pos_bound (n / 16) 16 ltac:(lia)).
  pose proof (Z.mod_pos_bound (n / 16 / 16) 16 ltac:(lia)).
  pose proof (Z.mod_pos_bound (n / 16 / 16 / 16) 16 ltac:(lia)).
  rewrite !hex_value_digit by lia. cbv beta iota.
  f_equal. f_equal.
  assert (n / 16 / 16 / 16 < 16).
  { apply Z.div_lt_upper_bound; [lia|].
    apply Z.div_lt_upper_bound; [lia|].
    apply Z.div_lt_upper_bound; lia. }
  assert (0 <= n / 16 / 16 / 16) by (apply Z.div_pos; [apply Z.div_pos; [apply Z.div_pos|]|]; lia).
  rewrite (Z.mod_small (n / 16 / 16 / 16)) by lia.
  lia.
Qed.

Lemma parse_json_char (c : Z) (t acc : jsstr) :
  0 <= c < 65536 ->
  parse_string_body (json_char c ++ t) acc = parse_string_body t (c :: acc).
Proof.
  intros Hc. unfold json_char.
  destruct (c =? 8) eqn:E8; [apply Z.eqb_eq in E8; subst; reflexivity|].
  destruct (c =? 9) eqn:E9; [apply Z.eqb_eq in E9; subst; reflexivity|].
  destruct (c =? 10) eqn:E10; [apply Z.eqb_eq in E10; subst; reflexivity|].
  destruct (c =? 12) eqn:E12; [apply Z.eqb_eq in E12; subst; reflexivity|].
  destruct (c =? 13) eqn:E13; [apply Z.eqb_eq in E13; subst; reflexivity|].
  destruct (c =? 34) eqn:E34; [apply Z.eqb_eq in E34; subst; reflexivity|].
  destruct (c =? 92) eqn:E92; [apply Z.eqb_eq in E92; subst; reflexivity|].
  destruct (c <? 32) eqn:E32; [apply parse_unicode_escape; exact Hc|].
  cbn [app parse_string_body]. rewrite E34, E92, E32. reflexivity.
Qed.

Lemma parse_high_unit (c : Z) (t acc : jsstr) :
  55296 <= c ->
  parse_string_body (c :: t) acc = parse_string_body t (c :: acc).
Proof.
  intros Hc. cbn [parse_string_body].
  replace (c =? 34) with false by (symmetry; apply Z.eqb_neq; lia).
  replace (c =? 92) with false by (symmetry; apply Z.eqb_neq; lia).
  replace (c <? 32) with false by (symmetry; apply Z.ltb_ge; lia).
  reflexivity.
Qed.

Lemma quote_units_parse_n (n : nat) :
  forall s t acc, (length s <= n)%nat -> units_ok s ->
  parse_string_body (quote_units s ++ 34 :: t) acc = Some (rev acc ++ s, t).
Proof.
  induction n as [|n IH]; intros s t acc Hlen Hs.
  - destruct s; [|simpl in Hlen; lia].
    simpl. rewrite app_nil_r. reflexivity.
  - destruct s as [|c r]; [simpl; rewrite app_nil_r; reflexivity|].
    inversion Hs as [|? ? Hc Hr]; subst.
    simpl in Hlen.
    cbn [quote_units].
    destruct (is_lead c) eqn:L.
    + destruct r as [|d r'].
      * rewrite parse_unicode_escape by exact Hc.
        simpl. reflexivity.
      * inversion Hr as [|? ? Hd Hr']; subst.
        destruct (is_trail d) eqn:T.
        -- unfold is_lead, is_trail in *.
           apply andb_true_iff in L as [L _]. apply andb_true_iff in T as [T _].
           apply Z.leb_le in L. apply Z.leb_le in T.
           cbn [app]. rewrite parse_high_unit by lia. rewrite parse_high_unit by lia.
           rewrite IH by (simpl in Hlen; auto; lia).
           simpl. rewrite <- !app_assoc. reflexivity.
        -- rewrite <- app_assoc, parse_unicode_escape by exact Hc.
           rewrite IH by (simpl in *; auto; lia).
           simpl. rewrite <- !app_assoc. reflexivity.
    + destruct (is_trail c) eqn:T.
      * rewrite <- app_assoc, parse_unicode_escape by exact Hc.
        rewrite IH by (auto; lia).
        simpl. rewrite <- !app_assoc. reflexivity.
      * rewrite <- app_assoc, parse_json_char by exact Hc.
        rewrite IH by (auto; lia).
        simpl. rewrite <- !app_assoc. reflexivity.
Qed.

Lemma quote_units_parse (s t acc : jsstr) :
  units_ok s ->
  parse_string_body (quote_units s ++ 34 :: t) acc = Some (rev acc ++ s, t).
Proof. intros Hs. apply (quote_units_parse_n (length s)); [lia | exact Hs]. Qed.

Lemma dec_digits_S (f : nat) (n : Z) (acc : jsstr) :
  dec_digits (S f) n acc =
  if n <? 10 then (48 + n mod 10) :: acc else dec_digits f (n / 10) ((48 + n mod 10) :: acc).
Proof. reflexivity. Qed.

Lemma dec_digits_shape (f : nat) (n : Z) (acc : jsstr) :
  0 <= n < 10 ^ Z.of_nat (S f) ->
  exists d ds, dec_digits (S f) n acc = (48 + d) :: ds ++ acc /\ 0 <= d <= 9 /\
    (1 <= n -> 1 <= d) /\ (n = 0 -> ds = []) /\ Forall (fun c => is_digit c = true) ds.
Proof.
  revert n acc. induction f as [|f IH]; intros n acc Hn.
  - simpl in Hn. exists n, []. rewrite dec_digits_S.
    replace (n <? 10) with true by (symmetry; apply Z.ltb_lt; lia).
    rewrite Z.mod_small by lia. repeat split; auto; lia.
  - pose proof (Z.mod_pos_bound n 10 ltac:(lia)) as Hm.
    pose proof (Z.div_mod n 10 ltac:(lia)) as Hdm.
    rewrite dec_digits_S. destruct (n <? 10) eqn:E.
    + apply Z.ltb_lt in E. exists n, []. rewrite Z.mod_small by lia.
      repeat split; auto; lia.
    + apply Z.ltb_ge in E.
      rewrite Nat2Z.inj_succ, Z.pow_succ_r in Hn by lia.
      destruct (IH (n / 10) ((48 + n mod 10) :: acc)) as (d & ds & Heq & Hd & H1 & _ & Hds).
      { split; [apply Z.div_pos; lia|]. apply Z.div_lt_upper_bound; lia. }
      exists d, (ds ++ [48 + n mod 10]). rewrite Heq, <- app_assoc.
      split; [reflexivity|]. split; [exact Hd|].
      split; [intros; apply H1; apply Z.div_le_lower_bound; lia|].
      split; [lia|].
      apply Forall_app. split; [exact Hds|]. constructor; [|constructor].
      unfold is_digit. apply andb_true_iff. split; apply Z.leb_le; lia.
Qed.

Lemma span_digits_app (ds rest : jsstr) :
  Forall (fun c => is_digit c = true) ds ->
  match rest with [] => True | c :: _ => is_digit c = false end ->
  span_digits (ds ++ rest) = (ds, rest).
Proof.
  intros Hds Hr. induction Hds as [|c ds Hc _ IH].
  - destruct rest as [|c r]; [reflexivity|]. simpl. rewrite Hr. reflexivity.
  - simpl. rewrite Hc, IH. reflexivity.
Qed.

Lemma parse_number_digits (sgn : jsstr) (d : Z) (ds rest : jsstr) :
  sgn = [] \/ sgn = [45] ->
  0 <= d <= 9 -> (d = 0 -> ds = []) -> Forall (fun c => is_digit c = true) ds ->
  delim rest ->
  parse_number (sgn ++ (48 + d) :: ds ++ rest) = Some (sgn ++ (48 + d) :: ds, rest).
Proof.
  intros Hsgn Hd Hd0 Hds Hr.
  assert (Hrd : match rest with [] => True | c :: _ => is_digit c = false end).
  { destruct rest as [|c r]; [exact I|]. unfold is_digit.
    simpl in Hr. destruct Hr as [ -> | [ -> | -> ] ]; reflexivity. }
  destruct (Z.eq_dec d 0) as [->|Hnz].
  - rewrite (Hd0 eq_refl).
    destruct Hsgn as [-> | ->];
      (destruct rest as [|c r]; [|destruct Hr as [ -> | [ -> | -> ] ]]); reflexivity.
  - assert (Hdig : is_digit (48 + d) = true)
      by (unfold is_digit; apply andb_true_iff; split; apply Z.leb_le; lia).
    assert (Hsd : span_digits ((48 + d) :: ds ++ rest) = ((48 + d) :: ds, rest)).
    { change ((48 + d) :: ds ++ rest) with (((48 + d) :: ds) ++ rest).
      apply span_digits_app; [constructor; [exact Hdig | exact Hds] | exact Hrd]. }
    assert (H45 : (48 + d =? 45) = false) by (apply Z.eqb_neq; lia).
    assert (H48 : (48 + d =? 48) = false) by (apply Z.eqb_neq; lia).
    remember (48 + d) as x eqn:Ex. clear Ex.
    remember (ds ++ rest) as t eqn:Et.
    unfold parse_number.
    destruct Hsgn as [-> | ->]; cbn [app]; cbv beta iota;
      rewrite ?H45, ?Z.eqb_refl; cbv beta iota; rewrite H48, Hdig, Hsd; cbv beta iota;
      (destruct rest as [|c r]; [|destruct Hr as [ -> | [ -> | -> ] ]]);
      simpl; rewrite ?app_nil_r; reflexivity.
Qed.

Lemma parse_number_lexeme (z : Z) (rest : jsstr) :
  delim rest ->
  parse_number (number_to_string z ++ rest) = Some (number_to_string z, rest).
Proof.
  intros Hr. unfold number_to_string.
  destruct (z <? 0) eqn:E.
  - apply Z.ltb_lt in E.
    destruct (dec_digits_shape (Z.to_nat (Z.log2 (- z))) (- z) [])
      as (d & ds & Heq & Hd & H1 & H0 & Hds).
    { apply (number_to_string_fuel (- z)). lia. }
    rewrite Heq, app_nil_r.
    apply (parse_number_digits [45]); auto; lia.
  - apply Z.ltb_ge in E.
    destruct (dec_digits_shape (Z.to_nat (Z.log2 z)) z [])
      as (d & ds & Heq & Hd & H1 & H0 & Hds).
    { apply (number_to_string_fuel z). lia. }
    rewrite Heq, app_nil_r.
    apply (parse_number_digits []); auto.
    intros ->. apply H0. destruct (Z.eq_dec z 0); [assumption|]. specialize (H1 ltac:(lia)). lia.
Qed.

Lemma is_json_ws_false (c : Z) :
  ~ (c = 9 \/ c = 10 \/ c = 13 \/ c = 32) -> is_json_ws c = false.
Proof.
  intros H. unfold is_json_ws.
  destruct (Z.eqb_spec c 9), (Z.eqb_spec c 10), (Z.eqb_spec c 13), (Z.eqb_spec c 32);
    simpl; first [reflexivity | exfalso; apply H; auto].
Qed.

Lemma skip_ws_nonws (c : Z) (r : jsstr) :
  is_json_ws c = false -> skip_ws (c :: r) = c :: r.
Proof. intros H. simpl. rewrite H. reflexivity. Qed.

Lemma number_to_string_head (z : Z) :
  exists c t, number_to_string z = c :: t /\ (c = 45 \/ 48 <= c <= 57).
Proof.
  unfold number_to_string. destruct (z <? 0) eqn:E.
  - exists 45. eexists. split; [reflexivity | left; reflexivity].
  - apply Z.ltb_ge in E.
    destruct (dec_digits_shape (Z.to_nat (Z.log2 z)) z [])
      as (d & ds & Heq & Hd & _).
    { apply (number_to_string_fuel z). lia. }
    rewrite Heq. exists (48 + d), (ds ++ []). split; [reflexivity | right; lia].
Qed.

Lemma parse_value_number (f : nat) (s : jsstr) :
  match s with c :: _ => c = 45 \/ 48 <= c <= 57 | [] => False end ->
  parse_value (S f) s =
  match parse_number s with Some (lex, r') => Some (JSONNumber lex, r') | None => None end.
Proof.
  destruct s as [|c r]; [contradiction|]. intros Hc.
  assert (Hws : is_json_ws c = false) by (apply is_json_ws_false; lia).
  cbn [parse_value]. rewrite (skip_ws_nonws c r Hws).
  rewrite (proj2 (Z.eqb_neq c 110)) by lia.
  rewrite (proj2 (Z.eqb_neq c 116)) by lia.
  rewrite (proj2 (Z.eqb_neq c 102)) by lia.
  rewrite (proj2 (Z.eqb_neq c 34)) by lia.
  rewrite (proj2 (Z.eqb_neq c 91)) by lia.
  rewrite (proj2 (Z.eqb_neq c 123)) by lia.
  reflexivity.
Qed.

Lemma parse_value_string (f : nat) (r : jsstr) :
  parse_value (S f) (34 :: r) =
  match parse_string_body r [] with
  | Some (str, r') => Some (JSONString str, r')
  | None => None
  end.
Proof. reflexivity. Qed.

Lemma parse_value_array (f : nat) (r : jsstr) :
  match skip_ws r with c :: _ => c <> 93 | [] => True end ->
  parse_value (S f) (91 :: r) = parse_elems f f r [].
Proof.
  intros H. change (parse_value (S f) (91 :: r)) with
    (match skip_ws r with 93 :: r' => Some (JSONArray [], r') | _ => parse_elems f f r [] end).
  destruct (skip_ws r) as [|c s]; [reflexivity|].
  destruct c as [|p|p]; try reflexivity.
  repeat (destruct p as [p|p|]; try reflexivity).
  exfalso; apply H; reflexivity.
Qed.

Lemma parse_value_object (f : nat) (r : jsstr) :
  match skip_ws r with c :: _ => c <> 125 | [] => True end ->
  parse_value (S f) (123 :: r) = parse_members f f r [].
Proof.
  intros H. change (parse_value (S f) (123 :: r)) with
    (match skip_ws r with 125 :: r' => Some (JSONObject [], r') | _ => parse_members f f r [] end).
  destruct (skip_ws r) as [|c s]; [reflexivity|].
  destruct c as [|p|p]; try reflexivity.
  repeat (destruct p as [p|p|]; try reflexivity).
  exfalso; apply H; reflexivity.
Qed.

Lemma json_size_pos (v : json) : (1 <= json_size v)%nat.
Proof. destruct v; simpl; lia. Qed.

Lemma json_size_array (l : list json) :
  json_size (JSONArray l) = S (list_sum (map json_size l)).
Proof. induction l as [|x l IH]; simpl in *; [reflexivity|]. injection IH as IH. lia. Qed.

Lemma json_size_object (l : list (jsstr * json)) :
  json_size (JSONObject l) = S (list_sum (map (fun kx => json_size (snd kx)) l)).
Proof.
  induction l as [|[k x] l IH]; simpl in *; [reflexivity|]. injection IH as IH. lia.
Qed.

Lemma json_wf_array (l : list json) : json_wf (JSONArray l) <-> Forall json_wf l.
Proof.
  induction l as [|x l IH]; simpl in *.
  - split; auto.
  - rewrite Forall_cons_iff, <- IH. tauto.
Qed.

Lemma json_wf_object (l : list (jsstr * json)) :
  json_wf (JSONObject l) <->
  NoDup (map fst l) /\ Forall (fun kx => units_ok (fst kx) /\ json_wf (snd kx)) l.
Proof.
  simpl. apply and_iff_compat_l.
  induction l as [|[k x] l IH]; simpl.
  - split; auto.
  - rewrite Forall_cons_iff, <- IH. simpl. tauto.
Qed.

Lemma sizes_bound {A} (sz : A -> nat) (l : list A) (f : nat) :
  (forall x, (1 <= sz x)%nat) ->
  (list_sum (map sz l) <= f)%nat ->
  Forall (fun x => (sz x <= f)%nat) l /\ (length l <= f)%nat.
Proof.
  intros Hpos. revert f. induction l as [|x l IH]; intros f Hl; simpl in *.
  - split; [constructor | lia].
  - pose proof (Hpos x). destruct f as [|f]; [lia|].
    destruct (IH f ltac:(lia)) as [H1 H2]. split; [|lia].
    constructor; [lia|]. eapply Forall_impl; [|exact H1]. simpl. intros; lia.
Qed.

Lemma obj_set_fresh (acc : list (jsstr * json)) (k : jsstr) (v : json) :
  ~ In k (map fst acc) -> obj_set acc k v = acc ++ [(k, v)].
Proof.
  induction acc as [|[k' v'] acc IH]; simpl; intros H; [reflexivity|].
  rewrite (proj2 (jsstr_eqb_false k k')) by (intros ->; apply H; left; reflexivity).
  rewrite IH by tauto. reflexivity.
Qed.

Lemma parse_elems_S (f g : nat) (t : jsstr) (acc : list json) :
  parse_elems f (S g) t acc =
  match parse_value f t with
  | None => None
  | Some (v, t1) =>
    match skip_ws t1 with
    | 44 :: t2 => parse_elems f g t2 (v :: acc)
    | 93 :: t2 => Some (JSONArray (rev (v :: acc)), t2)
    | _ => None
    end
  end.
Proof. reflexivity. Qed.

Lemma parse_members_S (f g : nat) (t : jsstr) (acc : list (jsstr * json)) :
  parse_members f (S g) t acc =
  match skip_ws t with
  | 34 :: t1 =>
    match parse_string_body t1 [] with
    | None => None
    | Some (k, t2) =>
      match skip_ws t2 with
      | 58 :: t3 =>
        match parse_value f t3 with
        | None => None
        | Some (v, t4) =>
          match skip_ws t4 with
          | 44 :: t5 => parse_members f g t5 (obj_set acc k v)
          | 125 :: t5 => Some (JSONObject (obj_set acc k v), t5)
          | _ => None
          end
        end
      | _ => None
      end
    end
  | _ => None
  end.
Proof. reflexivity. Qed.

Section Loops.
Variable f : nat.
Hypothesis IH : forall v rest, json_wf v -> (json_size v <= f)%nat -> delim rest ->
  parse_value f (JSON_stringify v ++ rest) = Some (v, rest).

Lemma parse_elems_ok (l : list json) : forall g acc rest,
  l <> [] -> Forall json_wf l -> Forall (fun x => (json_size x <= f)%nat) l ->
  (length l <= g)%nat -> delim rest ->
  parse_elems f g (join [44] (map JSON_stringify l) ++ 93 :: rest) acc =
  Some (JSONArray (rev acc ++ l), rest).
Proof.
  induction l as [|x l IHl]; intros g acc rest Hne Hwf Hsz Hlen Hr; [congruence|].
  destruct g as [|g]; [simpl in Hlen; lia|].
  apply Forall_cons_iff in Hwf as [Hx Hwf]. apply Forall_cons_iff in Hsz as [Hxs Hsz].
  rewrite parse_elems_S. destruct l as [|y l].
  - change (join [44] (map JSON_stringify [x])) with (JSON_stringify x).
    rewrite IH by (auto; simpl; auto).
    rewrite skip_ws_nonws by reflexivity. cbv beta iota. reflexivity.
  - change (join [44] (map JSON_stringify (x :: y :: l))) with
      (JSON_stringify x ++ [44] ++ join [44] (map JSON_stringify (y :: l))).
    rewrite <- !app_assoc.
    rewrite IH by (auto; simpl; auto).
    cbn [app]. rewrite skip_ws_nonws by reflexivity. cbv beta iota.
    rewrite IHl by (simpl in *; auto; congruence || lia).
    simpl. rewrite <- app_assoc. reflexivity.
Qed.

Lemma parse_members_ok (l : list (jsstr * json)) : forall g acc rest,
  l <> [] -> NoDup (map fst (acc ++ l)) ->
  Forall (fun kx => units_ok (fst kx) /\ json_wf (snd kx) /\ (json_size (snd kx) <= f)%nat) l ->
  (length l <= g)%nat -> delim rest ->
  parse_members f g
    (join [44] (map (fun '(k, x) => QuoteJSONString k ++ [58] ++ JSON_stringify x) l)
     ++ 125 :: rest) acc =
  Some (JSONObject (acc ++ l), rest).
Proof.
  induction l as [|[k x] l IHl]; intros g acc rest Hne Hnd Hok Hlen Hr; [congruence|].
  destruct g as [|g]; [simpl in Hlen; lia|].
  apply Forall_cons_iff in Hok as [(Hk & Hx & Hxs) Hok]. simpl in Hk, Hx, Hxs.
  assert (Hfresh : ~ In k (map fst acc)).
  { rewrite map_app in Hnd. simpl in Hnd. apply NoDup_remove_2 in Hnd.
    intros Hin; apply Hnd, in_or_app; left; exact Hin. }
  rewrite parse_members_S. destruct l as [|[k2 x2] l0].
  - change (join [44] (map (fun '(k, x) => QuoteJSONString k ++ [58] ++ JSON_stringify x)
              [(k, x)])) with (QuoteJSONString k ++ [58] ++ JSON_stringify x).
    unfold QuoteJSONString at 1. rewrite <- !app_assoc. cbn [app].
    rewrite skip_ws_nonws by reflexivity. cbv beta iota.
    rewrite quote_units_parse by exact Hk. cbn [rev app].
    rewrite skip_ws_nonws by reflexivity. cbv beta iota.
    rewrite IH by (auto; simpl; auto).
    rewrite skip_ws_nonws by reflexivity. cbv beta iota.
    rewrite obj_set_fresh by exact Hfresh. reflexivity.
  - change (join [44] (map (fun '(k, x) => QuoteJSONString k ++ [58] ++ JSON_stringify x)
              ((k, x) :: (k2, x2) :: l0))) with
      ((QuoteJSONString k ++ [58] ++ JSON_stringify x) ++ [44] ++
       join [44] (map (fun '(k, x) => QuoteJSONString k ++ [58] ++ JSON_stringify x)
              ((k2, x2) :: l0))).
    unfold QuoteJSONString at 1. rewrite <- !app_assoc. cbn [app].
    rewrite skip_ws_nonws by reflexivity. cbv beta iota.
    rewrite quote_units_parse by exact Hk. cbn [rev app].
    rewrite skip_ws_nonws by reflexivity. cbv beta iota.
    rewrite IH by (auto; simpl; auto).
    cbn [app]. rewrite skip_ws_nonws by reflexivity. cbv beta iota.
    rewrite obj_set_fresh by exact Hfresh.
    rewrite IHl by (simpl in *; rewrite ?app_nil_r, <- ?app_assoc; auto; congruence || lia).
    rewrite <- app_assoc. reflexivity.
Qed.
End Loops.

Lemma stringify_head (v : json) : json_wf v ->
  exists c t, JSON_stringify v = c :: t /\ is_json_ws c = false /\ c <> 93 /\ c <> 125.
Proof.
  intros Hwf. destruct v as [|b|lex|s|l|l]; [| destruct b | | | |].
  4: { destruct Hwf as [z ->]. destruct (number_to_string_head z) as (c & t & E & Hc).
       exists c, t. rewrite E. split; [reflexivity|].
       split; [apply is_json_ws_false; lia | lia]. }
  all: do 2 eexists; split; [reflexivity|];
    split; [vm_compute; reflexivity | split; intro Hc; vm_compute in Hc; discriminate Hc].
Qed.

Lemma join_length (sep : jsstr) (l : list jsstr) :
  (list_sum (map (@length Z) l) <= length (join sep l))%nat.
Proof.
  induction l as [|x l IH]; [simpl; lia|].
  destruct l as [|y l]; [simpl; lia|].
  rewrite join_cons2, !length_app. simpl map in *. simpl list_sum in *. lia.
Qed.

Lemma list_sum_map_le {A} (f g : A -> nat) (l : list A) :
  Forall (fun x => (f x <= g x)%nat) l -> (list_sum (map f l) <= list_sum (map g l))%nat.
Proof. induction 1; simpl; lia. Qed.

Lemma json_size_length (v : json) :
  json_wf v -> (json_size v <= length (JSON_stringify v))%nat.
Proof.
  induction v as [| b | lex | s | l IHl | l IHl] using json_ind'; intros Hwf.
  - simpl. lia.
  - destruct b; simpl; lia.
  - destruct Hwf as [z ->]. destruct (number_to_string_head z) as (c & t & E & _).
    simpl json_size. rewrite E. simpl. lia.
  - unfold JSON_stringify, QuoteJSONString. rewrite !length_app. simpl. lia.
  - apply json_wf_array in Hwf.
    rewrite json_size_array. change (JSON_stringify (JSONArray l)) with
      ([91] ++ join [44] (map JSON_stringify l) ++ [93]).
    rewrite !length_app. simpl length.
    pose proof (join_length [44] (map JSON_stringify l)).
    assert (list_sum (map json_size l) <= list_sum (map (@length Z) (map JSON_stringify l)))%nat.
    { rewrite map_map. apply list_sum_map_le.
      apply Forall_forall. intros x Hx.
      apply (proj1 (Forall_forall _ l) IHl x Hx), (proj1 (Forall_forall _ l) Hwf x Hx). }
    lia.
  - apply json_wf_object in Hwf as [_ Hwf].
    rewrite json_size_object. change (JSON_stringify (JSONObject l)) with
      ([123] ++ join [44] (map (fun '(k, x) => QuoteJSONString k ++ [58] ++ JSON_stringify x) l)
       ++ [125]).
    rewrite !length_app. change (length [123]) with 1%nat. change (length [125]) with 1%nat.
    pose proof (join_length [44]
      (map (fun '(k, x) => QuoteJSONString k ++ [58] ++ JSON_stringify x) l)).
    assert (list_sum (map (fun kx => json_size (snd kx)) l) <=
            list_sum (map (@length Z)
              (map (fun '(k, x) => QuoteJSONString k ++ [58%Z] ++ JSON_stringify x) l)))%nat.
    { rewrite map_map. apply list_sum_map_le.
      apply Forall_forall. intros [k x] Hx.
      pose proof (proj1 (Forall_forall _ l) IHl (k, x) Hx) as H1.
      pose proof (proj1 (Forall_forall _ l) Hwf (k, x) Hx) as H2.
      simpl in H1, H2. specialize (H1 (proj2 H2)).
      simpl snd. rewrite !length_app. lia. }
    lia.
Qed.

Lemma parse_stringify (fuel : nat) : forall v rest,
  json_wf v -> (json_size v <= fuel)%nat -> delim rest ->
  parse_value fuel (JSON_stringify v ++ rest) = Some (v, rest).
Proof.
  induction fuel as [|f IH]; intros v rest Hwf Hsz Hr.
  { pose proof (json_size_pos v). lia. }
  destruct v as [|b|lex|s|l|l].
  - reflexivity.
  - destruct b; reflexivity.
  - destruct Hwf as [z ->]. change (JSON_stringify (JSONNumber (number_to_string z))) with (number_to_string z).
    destruct (number_to_string_head z) as (c & t & E & Hc).
    rewrite parse_value_number by (rewrite E; exact Hc).
    rewrite parse_number_lexeme by exact Hr. reflexivity.
  - change (JSON_stringify (JSONString s)) with ([34] ++ quote_units s ++ [34]).
    rewrite <- !app_assoc. cbn [app]. rewrite parse_value_string.
    rewrite quote_units_parse by exact Hwf. reflexivity.
  - destruct l as [|x l']; [reflexivity|].
    apply json_wf_array in Hwf. rewrite json_size_array in Hsz.
    destruct (sizes_bound json_size (x :: l') f json_size_pos ltac:(lia)) as [Hs Hlen].
    change (JSON_stringify (JSONArray (x :: l'))) with
      ([91] ++ join [44] (map JSON_stringify (x :: l')) ++ [93]).
    rewrite <- !app_assoc. cbn [app].
    rewrite parse_value_array.
    + rewrite (parse_elems_ok f IH); try first [reflexivity | discriminate | assumption].
    + apply Forall_cons_iff in Hwf as [Hx _].
      destruct (stringify_head x Hx) as (c & t & E & Hws & H93 & _).
      assert (Hj : exists t', join [44] (map JSON_stringify (x :: l')) ++ 93 :: rest = c :: t').
      { destruct l' as [|y l'']; cbn [map join]; rewrite E; cbn [app]; eexists; reflexivity. }
      destruct Hj as [t' Hj]. rewrite Hj, skip_ws_nonws by exact Hws. exact H93.
  - destruct l as [|[k x] l']; [reflexivity|].
    apply json_wf_object in Hwf as [Hnd Hwf]. rewrite json_size_object in Hsz.
    destruct (sizes_bound (fun kx => json_size (snd kx)) ((k, x) :: l') f
                (fun kx => json_size_pos (snd kx)) ltac:(lia)) as [Hs Hlen].
    change (JSON_stringify (JSONObject ((k, x) :: l'))) with
      ([123] ++ join [44] (map (fun '(k, x) => QuoteJSONString k ++ [58] ++ JSON_stringify x)
                          ((k, x) :: l')) ++ [125]).
    rewrite <- !app_assoc. cbn [app].
    rewrite parse_value_object.
    + rewrite (parse_members_ok f IH); try first [reflexivity | discriminate | assumption].
      apply Forall_forall. intros kx Hin.
      pose proof (proj1 (Forall_forall _ _) Hwf kx Hin).
      pose proof (proj1 (Forall_forall _ _) Hs kx Hin). simpl in *. tauto.
    + assert (Hj : exists t', join [44] (map (fun '(k, x) => QuoteJSONString k ++ 58 ::
                     JSON_stringify x) ((k, x) :: l')) ++ 125 :: rest = 34 :: t').
      { destruct l' as [|y l'']; cbn [map join]; unfold QuoteJSONString; cbn [app];
          eexists; reflexivity. }
      destruct Hj as [t' Hj]. rewrite Hj, skip_ws_nonws by reflexivity. discriminate.
Qed.

Lemma load_stringify (v : json) :
  json_wf v -> load (ItemString (JSON_stringify v)) = (v, false).
Proof.
  intros Hwf. destruct (stringify_head v Hwf) as (c & t & E & _).
  unfold load. replace (jsstr_eqb (JSON_stringify v) []) with false by (rewrite E; reflexivity).
  unfold JSON_parse.
  pose proof (parse_stringify (S (length (JSON_stringify v))) v [] Hwf) as H.
  rewrite app_nil_r in H. rewrite H; [reflexivity| |exact I].
  pose proof (json_size_length v Hwf). lia.
Qed.

Lemma json_units_ok_array (l : list json) :
  json_units_ok (JSONArray l) <-> Forall json_units_ok l.
Proof.
  induction l as [|x l IH]; simpl in *.
  - split; auto.
  - rewrite Forall_cons_iff, <- IH. tauto.
Qed.

Lemma json_units_ok_object (l : list (jsstr * json)) :
  json_units_ok (JSONObject l) <->
  Forall (fun kx => units_ok (fst kx) /\ json_units_ok (snd kx)) l.
Proof.
  induction l as [|[k x] l IH]; simpl in *.
  - split; auto.
  - rewrite Forall_cons_iff, <- IH. simpl. tauto.
Qed.

Lemma array_wf {A} (g : A -> json) (l : list A) :
  (forall a, json_units_ok (g a) -> json_wf (g a)) ->
  json_units_ok (JSONArray (map g l)) -> json_wf (JSONArray (map g l)).
Proof.
  intros Hg Hu. apply json_wf_array. apply json_units_ok_array in Hu.
  rewrite Forall_map in *. eapply Forall_impl; [|exact Hu]. exact Hg.
Qed.

Lemma object_wf (l : list (jsstr * json)) :
  NoDup (map fst l) ->
  Forall (fun kx => json_units_ok (snd kx) -> json_wf (snd kx)) l ->
  json_units_ok (JSONObject l) -> json_wf (JSONObject l).
Proof.
  intros Hnd Himp Hu. apply json_wf_object. split; [exact Hnd|].
  apply json_units_ok_object in Hu.
  apply Forall_forall. intros kx Hin.
  pose proof (proj1 (Forall_forall _ _) Himp kx Hin).
  pose proof (proj1 (Forall_forall _ _) Hu kx Hin). cbv beta in *. tauto.
Qed.

Ltac member_wf :=
  repeat constructor; simpl snd;
  first [ exact (fun H => H)
        | intros _; eexists; reflexivity
        | apply array_wf; intros ? H; exact H
        | idtac ].

Lemma product_json_wf (p : Product.t) :
  json_units_ok (product_json p) -> json_wf (product_json p).
Proof.
  apply object_wf; [repeat constructor; cbn; intuition discriminate | member_wf].
Qed.

Lemma entry_json_wf (e : ShippingEntry.t) :
  json_units_ok (entry_json e) -> json_wf (entry_json e).
Proof.
  apply object_wf; [repeat constructor; cbn; intuition discriminate | member_wf].
Qed.

Lemma collection_json_wf (c : Collection.t) :
  json_units_ok (collection_json c) -> json_wf (collection_json c).
Proof.
  unfold collection_json. destruct (Collection.logoUrl c) as [l|]; cbn [app];
  (apply object_wf; [repeat constructor; cbn; intuition discriminate | member_wf]).
  - apply array_wf. exact product_json_wf.
  - apply array_wf. exact entry_json_wf.
  - apply array_wf. exact product_json_wf.
  - apply array_wf. exact entry_json_wf.
Qed.

Lemma state_json_wf (st : AppState.t) :
  json_units_ok (state_json st) -> json_wf (state_json st).
Proof.
  apply object_wf; [repeat constructor; cbn; intuition discriminate | member_wf].
  - apply array_wf. exact collection_json_wf.
  - destruct (AppState.activeCollectionId st); exact (fun H => H).
Qed.

(** The persistence effect stores the state under [STORAGE_KEY], and the
    initialiser of the next session reads that text back as the same state
    without logging an error, as long as its strings are made of 16-bit
    code units (which every JavaScript string is). *)
Theorem persist_load (st : AppState.t) :
  json_units_ok (state_json st) ->
  fst (persist st) = STORAGE_KEY /\ load (ItemString (snd (persist st))) = (state_json st, false).
Proof.
  intros Hu. split; [reflexivity|]. apply load_stringify, state_json_wf, Hu.
Qed.

(** Witness: the sample state, with its Hangul name, is saved and loaded
    back. *)
Lemma persist_load_witness :
  json_units_ok (state_json sample_state) /\
  fst (persist sample_state) = STORAGE_KEY /\
  load (ItemString (snd (persist sample_state))) = (state_json sample_state, false).
Proof.
  assert (H : json_units_ok (state_json sample_state)).
  { cbn. repeat split; repeat constructor; lia. }
  split; [exact H | apply (persist_load sample_state H)].
Defined.

(** [JSON.parse] reads back what [JSON.stringify] writes: strings with
    quotes, control characters and lone surrogates, integers, and nested
    arrays and objects with distinct keys. *)
Theorem JSON_parse_stringify (v : json) :
  json_wf v -> JSON_parse (JSON_stringify v) = Some v.
Proof.
  intros Hwf. unfold JSON_parse.
  pose proof (parse_stringify (S (length (JSON_stringify v))) v [] Hwf) as H.
  rewrite app_nil_r in H. rewrite H; [reflexivity| |exact I].
  pose proof (json_size_length v Hwf). lia.
Qed.

(** Witness: an object holding a string with a quote, a line feed and a
    lone surrogate, and a negative number. *)
Lemma JSON_parse_stringify_witness :
  let v := JSONObject [(u "a", JSONArray [JSONString [34; 10; 55296];
                                          JSONNumber (number_to_string (-12))]);
                       (u "b", JSONNull)] in
  json_wf v /\ JSON_parse (JSON_stringify v) = Some v.
Proof.
  intros v.
  assert (H : json_wf v).
  { cbn. split; [repeat constructor; cbn; intuition discriminate|].
    repeat split; repeat constructor; try lia. exists (-12); reflexivity. }
  split; [exact H | apply (JSON_parse_stringify v H)].
Defined.

(* ------------------------------------------------------------------ *)
(** ** Selecting and exporting shipments *)

Lemma set_has_In (S : list jsstr) (x : jsstr) : set_has S x = true <-> In x S.
Proof.
  unfold set_has. rewrite existsb_exists. split.
  - intros (y & Hy & E). apply jsstr_eqb_spec in E. subst. exact Hy.
  - intros H. exists x. split; [exact H | apply jsstr_eqb_spec; reflexivity].
Qed.

Lemma set_has_false (S : list jsstr) (x : jsstr) : set_has S x = false <-> ~ In x S.
Proof. rewrite <- set_has_In. destruct (set_has S x); split; congruence. Qed.

Lemma In_set_delete (S : list jsstr) (x y : jsstr) : In y (set_delete S x) <-> In y S /\ y <> x.
Proof.
  unfold set_delete. rewrite filter_In. rewrite negb_true_iff, jsstr_eqb_false. tauto.
Qed.

Lemma In_set_add (S : list jsstr) (x y : jsstr) : In y (set_add S x) <-> In y S \/ x = y.
Proof.
  unfold set_add. destruct (set_has S x) eqn:E.
  - apply set_has_In in E. split; [tauto|]. intros [H| <-]; assumption.
  - rewrite in_app_iff. simpl. tauto.
Qed.

Lemma NoDup_set_add (S : list jsstr) (x : jsstr) : NoDup S -> NoDup (set_add S x).
Proof.
  intros H. unfold set_add. destruct (set_has S x) eqn:E; [exact H|].
  apply set_has_false in E. apply NoDup_app; [exact H | repeat constructor; simpl; tauto |].
  intros a Ha [<-|[]]. contradiction.
Qed.







(** X3. Toggling the check box of an entry flips the membership of its id
    and of no other id; toggling twice gives back the same members; the
    selection never holds an id twice. *)
Theorem toggleEntrySelection_flip (S : list jsstr) (id : jsstr) :
  NoDup S ->
  NoDup (toggleEntrySelection S id) /\
  (forall x, set_has (toggleEntrySelection S id) x =
             if jsstr_eqb x id then negb (set_has S id) else set_has S x) /\
  (forall x, set_has (toggleEntrySelection (toggleEntrySelection S id) id) x = set_has S x).
Proof.
  intros Hnd.
  assert (Hflip : forall T, forall x, set_has (toggleEntrySelection T id) x =
             if jsstr_eqb x id then negb (set_has T id) else set_has T x).
  { intros T x. unfold toggleEntrySelection. cbv zeta.
    destruct (jsstr_eqb x id) eqn:Ex.
    - apply jsstr_eqb_spec in Ex. subst x.
      destruct (set_has T id) eqn:E; simpl.
      + apply set_has_false. rewrite In_set_delete. tauto.
      + apply set_has_In. rewrite In_set_add. right; reflexivity.
    - apply jsstr_eqb_false in Ex.
      destruct (set_has T id) eqn:E.
      + destruct (set_has T x) eqn:E2.
        * apply set_has_In. apply set_has_In in E2. apply In_set_delete. tauto.
        * apply set_has_false. apply set_has_false in E2. rewrite In_set_delete. tauto.
      + destruct (set_has T x) eqn:E2.
        * apply set_has_In. apply set_has_In in E2. apply In_set_add. tauto.
        * apply set_has_false. apply set_has_false in E2. rewrite In_set_add. intros [H|H]; [tauto|congruence]. }
  split; [|split; [exact (Hflip S)|]].
  - unfold toggleEntrySelection. cbv zeta. destruct (set_has S id).
    + apply NoDup_filter, Hnd.
    + apply NoDup_set_add, Hnd.
  - intros x. rewrite Hflip. destruct (jsstr_eqb x id) eqn:Ex.
    + apply jsstr_eqb_spec in Ex. subst x. rewrite Hflip, (proj2 (jsstr_eqb_spec id id) eq_refl).
      apply negb_involutive.
    + rewrite Hflip, Ex. reflexivity.
Qed.

Lemma toggleEntrySelection_flip_witness :
  NoDup [u "a"; u "b"] /\
  NoDup (toggleEntrySelection [u "a"; u "b"] (u "a")) /\
  (forall x, set_has (toggleEntrySelection [u "a"; u "b"] (u "a")) x =
             if jsstr_eqb x (u "a") then negb (set_has [u "a"; u "b"] (u "a"))
             else set_has [u "a"; u "b"] x) /\
  (forall x, set_has (toggleEntrySelection (toggleEntrySelection [u "a"; u "b"] (u "a")) (u "a")) x =
             set_has [u "a"; u "b"] x).
Proof.
  assert (H : NoDup [u "a"; u "b"]).
  { constructor; [intros [H|[]]; discriminate H|]. constructor; [intros []|constructor]. }
  split; [exact H|]. apply toggleEntrySelection_flip. exact H.
Defined.

Lemma filter_none {A} (f : A -> bool) (l : list A) :
  (forall x, In x l -> f x = false) -> filter f l = [].
Proof.
  induction l as [|x l IH]; intros H; simpl; [reflexivity|].
  rewrite (H x (or_introl eq_refl)). apply IH. intros y Hy. apply H. right; exact Hy.
Qed.


Lemma download_none_selected (c : Collection.t) (S : list jsstr) :
  S <> [] ->
  (forall e, In e (Collection.shippingEntries c) -> ~ In (ShippingEntry.id e) S) ->
  handleDownload c S = (None, NotifySuccess (u "Exported 0 items")).
Proof.
  intros Hne Hst. unfold handleDownload, dataToDownload.
  destruct S as [|x S']; [congruence|]. simpl Nat.ltb. cbv iota.
  replace (filter _ _) with (@nil ShippingEntry.t); [reflexivity|].
  symmetry. apply filter_none. intros e He.
  apply set_has_false, Hst, He.
Qed.

(** X5. A non-empty selection that holds no id of a current entry exports
    nothing, yet reports a success: "Exported 0 items". *)
Theorem handleDownload_stale (c : Collection.t) (S : list jsstr) :
  S <> [] ->
  (forall e, In e (Collection.shippingEntries c) -> ~ In (ShippingEntry.id e) S) ->
  handleDownload c S = (None, NotifySuccess (u "Exported 0 items")).
Proof. apply download_none_selected. Qed.

Lemma handleDownload_stale_witness :
  [u "gone"] <> [] /\
  (forall e, In e (Collection.shippingEntries sample_collection) ->
             ~ In (ShippingEntry.id e) [u "gone"]) /\
  handleDownload sample_collection [u "gone"] = (None, NotifySuccess (u "Exported 0 items")).
Proof.
  assert (H1 : [u "gone"] <> []) by discriminate.
  assert (H2 : forall e, In e (Collection.shippingEntries sample_collection) ->
                         ~ In (ShippingEntry.id e) [u "gone"]).
  { intros e [<-|[]] [H|[]]. vm_compute in H. discriminate H. }
  split; [exact H1|]. split; [exact H2|]. apply handleDownload_stale; assumption.
Defined.

(** X6. Deleting an entry does not clear its check box: after selecting one
    entry and deleting it, the selection still counts one item, and
    "Download Excel" exports nothing while it reports "Exported 0 items". *)
Theorem select_delete_download (c : Collection.t) (e : ShippingEntry.t) :
  let S := toggleEntrySelection [] (ShippingEntry.id e) in
  length S = 1%nat /\
  match onDeleteEntry true c e with
  | Some c' => handleDownload c' S = (None, NotifySuccess (u "Exported 0 items"))
  | None => False
  end.
Proof.
  cbv zeta. split; [reflexivity|].
  unfold onDeleteEntry. apply download_none_selected; [discriminate|].
  intros s Hs. simpl in Hs. apply filter_In in Hs as [_ Hs].
  apply negb_true_iff, jsstr_eqb_false in Hs. simpl. intros [H|[]]. congruence.
Qed.

(** X7. "Download Excel" with a selection exports exactly the selected
    entries that are still in the table, in table order, and the notice
    counts them; with no selection it exports every entry. When the entries'
    strings are made of code units, the file's bytes decode as UTF-8, and a
    CSV reader reads from them the header row and one row per exported
    entry: its text fields with each lone surrogate replaced by U+FFFD, and
    its quantity, 0 being written as 1. *)
Theorem handleDownload_rows (c : Collection.t) (S : list jsstr) :
  let data := if (0 <? length S)%nat
              then filter (fun e => set_has S (ShippingEntry.id e))
                          (Collection.shippingEntries c)
              else Collection.shippingEntries c in
  (forall e, In e data <->
     In e (Collection.shippingEntries c) /\ (S = [] \/ In (ShippingEntry.id e) S)) /\
  snd (handleDownload c S) =
    NotifySuccess (u "Exported " ++ number_to_string (Z.of_nat (length data)) ++ u " items") /\
  (data <> [] -> Forall entry_units_ok (Collection.shippingEntries c) ->
   exists bytes text,
     fst (handleDownload c S) =
       Some (Collection.name c ++ u "_shipping_export.csv", bytes) /\
     utf8_decode bytes = Some text /\
     csv_read text = customHeaders ::
       map (fun e =>
         [to_usv (ShippingEntry.instagramId e); to_usv (ShippingEntry.name e);
          to_usv (ShippingEntry.phone e); []; []; to_usv (ShippingEntry.address e);
          to_usv (ShippingEntry.productName e); to_usv (ShippingEntry.size e);
          (if ShippingEntry.quantity e =? 0 then u "1"
           else number_to_string (ShippingEntry.quantity e));
          to_usv (ShippingEntry.message e)]) data).
Proof.
  intros data.
  assert (Hin : forall e, In e data <->
     In e (Collection.shippingEntries c) /\ (S = [] \/ In (ShippingEntry.id e) S)).
  { intros e. unfold data. destruct S as [|x S']; [cbn [length Nat.ltb Nat.leb]; tauto|].
    replace ((0 <? length (x :: S'))%nat) with true by reflexivity.
    rewrite filter_In, set_has_In. split; [tauto|]. intros [H [H'|H']]; [discriminate|tauto]. }
  split; [exact Hin|]. split; [reflexivity|].
  intros Hne Hu.
  assert (Hud : Forall entry_units_ok data).
  { apply Forall_forall. intros e He. apply Hin in He as [He _].
    rewrite Forall_forall in Hu. apply Hu, He. }
  destruct (export_read (Collection.name c ++ u "_shipping_export.csv") data Hne Hud)
    as (H1 & H2 & H3).
  eexists; eexists. split; [exact H1|]. split; [exact H2 | exact H3].
Qed.

(* ------------------------------------------------------------------ *)
(** ** Editing, duplicating and deleting shipments *)

Lemma with_shippingEntries_twice (c : Collection.t) (es es' : list ShippingEntry.t) :
  Collection.with_shippingEntries (Collection.with_shippingEntries c es) es' =
  Collection.with_shippingEntries c es'.
Proof. reflexivity. Qed.

Lemma shippingEntries_with (c : Collection.t) (es : list ShippingEntry.t) :
  Collection.shippingEntries (Collection.with_shippingEntries c es) = es.
Proof. reflexivity. Qed.

Lemma with_shippingEntries_same (c : Collection.t) :
  Collection.with_shippingEntries c (Collection.shippingEntries c) = c.
Proof. destruct c; reflexivity. Qed.

Lemma apply_entry_edit_id (ed : entry_edit) (s : ShippingEntry.t) :
  ShippingEntry.id (apply_entry_edit ed s) = ShippingEntry.id s.
Proof. destruct s, ed; reflexivity. Qed.

Lemma apply_entry_edit_submitDate (ed : entry_edit) (s : ShippingEntry.t) :
  ShippingEntry.submitDate (apply_entry_edit ed s) = ShippingEntry.submitDate s.
Proof. destruct s, ed; reflexivity. Qed.

Lemma apply_entry_edit_idem (ed : entry_edit) (s : ShippingEntry.t) :
  apply_entry_edit ed (apply_entry_edit ed s) = apply_entry_edit ed s.
Proof. destruct s, ed; reflexivity. Qed.

Lemma apply_entry_edit_productName (ed : entry_edit) (s : ShippingEntry.t) :
  ShippingEntry.productName (apply_entry_edit ed s) =
  match ed with EditProductName v => v | _ => ShippingEntry.productName s end.
Proof. destruct s, ed; reflexivity. Qed.

(** X8. An edit of a row changes no entry id and no other field of the
    collection, and repeating the same edit changes nothing more. *)
Theorem onEntryEdit_ids_idem (c : Collection.t) (e : ShippingEntry.t) (ed : entry_edit) :
  map ShippingEntry.id (Collection.shippingEntries (onEntryEdit c e ed)) =
    map ShippingEntry.id (Collection.shippingEntries c) /\
  Collection.with_shippingEntries (onEntryEdit c e ed) (Collection.shippingEntries c) = c /\
  onEntryEdit (onEntryEdit c e ed) e ed = onEntryEdit c e ed.
Proof.
  unfold onEntryEdit. split; [|split].
  - rewrite shippingEntries_with, map_map. apply map_ext. intros s.
    destruct (jsstr_eqb _ _); [apply apply_entry_edit_id | reflexivity].
  - rewrite with_shippingEntries_twice. apply with_shippingEntries_same.
  - rewrite with_shippingEntries_twice, shippingEntries_with. f_equal.
    rewrite map_map. apply map_ext. intros s.
    destruct (jsstr_eqb (ShippingEntry.id s) (ShippingEntry.id e)) eqn:E.
    + rewrite apply_entry_edit_id, E. apply apply_entry_edit_idem.
    + rewrite E. reflexivity.
Qed.

(** X9. Edits of two different rows commute. *)
Theorem onEntryEdit_commute (c : Collection.t) (e1 e2 : ShippingEntry.t)
    (ed1 ed2 : entry_edit) :
  ShippingEntry.id e1 <> ShippingEntry.id e2 ->
  onEntryEdit (onEntryEdit c e1 ed1) e2 ed2 = onEntryEdit (onEntryEdit c e2 ed2) e1 ed1.
Proof.
  intros Hne. unfold onEntryEdit. rewrite !with_shippingEntries_twice. f_equal.
  rewrite ?shippingEntries_with.
  rewrite !map_map. apply map_ext. intros s.
  destruct (jsstr_eqb (ShippingEntry.id s) (ShippingEntry.id e1)) eqn:E1;
  destruct (jsstr_eqb (ShippingEntry.id s) (ShippingEntry.id e2)) eqn:E2;
  rewrite ?apply_entry_edit_id, ?E1, ?E2; try reflexivity.
  apply jsstr_eqb_spec in E1, E2. congruence.
Qed.

Lemma onEntryEdit_commute_witness :
  u "a" <> u "b" /\
  onEntryEdit (onEntryEdit sample_collection
     (ShippingEntry.mk (u "a") PREPARING [] [] [] [] [] [] [] [] [] 0 []) (EditSize (u "M")))
     (ShippingEntry.mk (u "b") PREPARING [] [] [] [] [] [] [] [] [] 0 []) (EditAdminMemo (u "x")) =
  onEntryEdit (onEntryEdit sample_collection
     (ShippingEntry.mk (u "b") PREPARING [] [] [] [] [] [] [] [] [] 0 []) (EditAdminMemo (u "x")))
     (ShippingEntry.mk (u "a") PREPARING [] [] [] [] [] [] [] [] [] 0 []) (EditSize (u "M")).
Proof.
  assert (H : u "a" <> u "b") by discriminate.
  split; [exact H|]. apply onEntryEdit_commute. exact H.
Defined.

Lemma fold_distribution_ext (f : ShippingEntry.t -> ShippingEntry.t) (es : list ShippingEntry.t) acc :
  (forall s, ShippingEntry.productName (f s) = ShippingEntry.productName s) ->
  fold_left distribution_step (map f es) acc = fold_left distribution_step es acc.
Proof.
  intros Hf. revert acc. induction es as [|s es IH]; intros acc; [reflexivity|].
  cbn [map fold_left]. rewrite IH. unfold distribution_step. rewrite Hf. reflexivity.
Qed.

(** X10. An edit of a row leaves "Total Packets" and "Original Requests" as
    they are; an edit of the status, size or memo also leaves the
    distribution chart as it is. *)
Theorem onEntryEdit_report (c : Collection.t) (e : ShippingEntry.t) (ed : entry_edit) :
  total_packets (onEntryEdit c e ed) = total_packets c /\
  original_requests (onEntryEdit c e ed) = original_requests c /\
  match ed with
  | EditProductName _ => True
  | _ => distribution (onEntryEdit c e ed) = distribution c
  end.
Proof.
  unfold total_packets, original_requests, distribution, onEntryEdit.
  rewrite ?shippingEntries_with.
  split; [rewrite length_map; reflexivity|]. split.
  - f_equal. generalize (Collection.shippingEntries c) as es.
    induction es as [|s es IH]; [reflexivity|]. cbn [map filter].
    destruct (jsstr_eqb (ShippingEntry.id s) (ShippingEntry.id e));
      rewrite ?apply_entry_edit_submitDate;
      destruct (negb _); cbn [length]; rewrite ?IH; reflexivity.
  - destruct ed; try exact I; f_equal; apply fold_distribution_ext; intros s;
      destruct (jsstr_eqb _ _); rewrite ?apply_entry_edit_productName; reflexivity.
Qed.

Lemma filter_fresh (newId : jsstr) (es : list ShippingEntry.t) :
  ~ In newId (map ShippingEntry.id es) ->
  filter (fun s => negb (jsstr_eqb (ShippingEntry.id s) newId)) es = es.
Proof.
  induction es as [|s es IH]; intros Hfresh; [reflexivity|].
  cbn [map In] in Hfresh. cbn [filter].
  destruct (jsstr_eqb (ShippingEntry.id s) newId) eqn:E.
  - apply jsstr_eqb_spec in E. exfalso. apply Hfresh. left. exact E.
  - cbn [negb]. rewrite IH; [reflexivity|]. tauto.
Qed.

(** X11. Deleting the copy made by "Duplicate Entry", under a fresh id, gives
    back the collection as it was. *)
Theorem duplicate_then_delete (newId : jsstr) (c : Collection.t) (e : ShippingEntry.t) :
  ~ In newId (map ShippingEntry.id (Collection.shippingEntries c)) ->
  onDeleteEntry true (snd (onDuplicateEntry newId c e)) (duplicate_of newId e) = Some c.
Proof.
  intros Hfresh. unfold onDeleteEntry, onDuplicateEntry. cbn [snd].
  rewrite with_shippingEntries_twice. f_equal.
  rewrite ?shippingEntries_with.
  rewrite filter_app. cbn [filter duplicate_of ShippingEntry.id].
  replace (jsstr_eqb newId newId) with true by (symmetry; apply jsstr_eqb_spec; reflexivity).
  cbn [negb]. rewrite app_nil_r.
  rewrite filter_fresh by exact Hfresh. apply with_shippingEntries_same.
Qed.

Lemma duplicate_then_delete_witness :
  ~ In (u "fresh") (map ShippingEntry.id (Collection.shippingEntries sample_collection)) /\
  onDeleteEntry true (snd (onDuplicateEntry (u "fresh") sample_collection
     (ShippingEntry.mk (u "a") PREPARING [] [] [] [] [] [] [] [] [] 0 [])))
     (duplicate_of (u "fresh") (ShippingEntry.mk (u "a") PREPARING [] [] [] [] [] [] [] [] [] 0 [])) =
  Some sample_collection.
Proof.
  assert (H : ~ In (u "fresh") (map ShippingEntry.id (Collection.shippingEntries sample_collection))).
  { vm_compute. intros H. repeat (destruct H as [H|H]; [discriminate H|]). exact H. }
  split; [exact H|]. apply duplicate_then_delete. exact H.
Defined.

(** X12. A duplicated entry counts in "Total Packets" and not in "Original
    Requests" nor in the distribution chart. *)
Theorem onDuplicateEntry_report (newId : jsstr) (c : Collection.t) (e : ShippingEntry.t) :
  let c' := snd (onDuplicateEntry newId c e) in
  total_packets c' = total_packets c + 1 /\
  original_requests c' = original_requests c /\
  distribution c' = distribution c.
Proof.
  unfold total_packets, original_requests, distribution, onDuplicateEntry. cbn [snd].
  rewrite ?shippingEntries_with.
  split; [rewrite length_app; cbn [length]; lia|]. split.
  - rewrite filter_app. cbn [filter duplicate_of ShippingEntry.submitDate].
    replace (jsstr_eqb extra_sentinel extra_sentinel) with true
      by (symmetry; apply jsstr_eqb_spec; reflexivity).
    cbn [negb]. rewrite app_nil_r. reflexivity.
  - rewrite fold_left_app. reflexivity.
Qed.

(* ------------------------------------------------------------------ *)
(** ** The distribution chart *)

Lemma jsstr_eqb_refl (a : jsstr) : jsstr_eqb a a = true.
Proof. apply jsstr_eqb_spec. reflexivity. Qed.

Lemma jsstr_eqb_sym (a b : jsstr) : jsstr_eqb a b = jsstr_eqb b a.
Proof.
  destruct (jsstr_eqb a b) eqn:E; symmetry.
  - apply jsstr_eqb_spec in E. subst. apply jsstr_eqb_refl.
  - apply jsstr_eqb_false. apply jsstr_eqb_false in E. congruence.
Qed.

Lemma lookup_count_count_name (acc : list (jsstr * Z)) (name K : jsstr) :
  lookup_count (count_name acc name) K =
  lookup_count acc K + (if jsstr_eqb name K then 1 else 0).
Proof.
  induction acc as [|[k n] r IH]; cbn [count_name lookup_count].
  - destruct (jsstr_eqb name K); reflexivity.
  - destruct (jsstr_eqb k name) eqn:E.
    + apply jsstr_eqb_spec in E. subst k. cbn [lookup_count].
      destruct (jsstr_eqb name K); lia.
    + cbn [lookup_count]. destruct (jsstr_eqb k K) eqn:E2; [|exact IH].
      apply jsstr_eqb_spec in E2. subst k. rewrite jsstr_eqb_sym, E. lia.
Qed.

Lemma keys_count_name (acc : list (jsstr * Z)) (name K : jsstr) :
  In K (map fst (count_name acc name)) <-> In K (map fst acc) \/ name = K.
Proof.
  induction acc as [|[k n] r IH]; cbn [count_name map fst In].
  - tauto.
  - destruct (jsstr_eqb k name) eqn:E.
    + apply jsstr_eqb_spec in E. subst k. cbn [map fst In]. tauto.
    + cbn [map fst In]. rewrite IH. tauto.
Qed.

Lemma count_name_NoDup (acc : list (jsstr * Z)) (name : jsstr) :
  NoDup (map fst acc) -> NoDup (map fst (count_name acc name)).
Proof.
  induction acc as [|[k n] r IH]; cbn [count_name map fst]; intros H.
  - repeat constructor. intros [].
  - inversion H as [|? ? Hk Hr]; subst.
    destruct (jsstr_eqb k name) eqn:E; cbn [map fst]; constructor; auto.
    rewrite keys_count_name. apply jsstr_eqb_false in E. intuition.
Qed.

Lemma count_name_pos (acc : list (jsstr * Z)) (name : jsstr) :
  (forall kv, In kv acc -> 0 < snd kv) -> forall kv, In kv (count_name acc name) -> 0 < snd kv.
Proof.
  induction acc as [|[k n] r IH]; cbn [count_name]; intros H kv Hin.
  - destruct Hin as [<-|[]]. cbn. lia.
  - destruct (jsstr_eqb k name).
    + destruct Hin as [<-|Hin]; [cbn; specialize (H (k, n) (or_introl eq_refl)); cbn in H; lia|].
      apply H. right. exact Hin.
    + destruct Hin as [<-|Hin]; [apply H; left; reflexivity|].
      apply IH; [intros kv' Hkv'; apply H; right; exact Hkv' | exact Hin].
Qed.

Lemma sum_count_name (acc : list (jsstr * Z)) (name : jsstr) :
  sumZ (map snd (count_name acc name)) = sumZ (map snd acc) + 1.
Proof.
  unfold sumZ. induction acc as [|[k n] r IH]; cbn [count_name map snd fold_right]; [lia|].
  destruct (jsstr_eqb k name); cbn [map snd fold_right]; lia.
Qed.

Lemma lookup_In (acc : list (jsstr * Z)) (K : jsstr) (n : Z) :
  NoDup (map fst acc) -> In (K, n) acc -> lookup_count acc K = n.
Proof.
  induction acc as [|[k m] r IH]; cbn [lookup_count map fst]; intros Hnd Hin; [destruct Hin|].
  inversion Hnd as [|? ? Hk Hr]; subst.
  destruct Hin as [E|Hin].
  - inversion E; subst. rewrite jsstr_eqb_refl. reflexivity.
  - destruct (jsstr_eqb k K) eqn:E.
    + apply jsstr_eqb_spec in E. subst k. exfalso. apply Hk.
      apply (in_map fst) in Hin. exact Hin.
    + apply IH; assumption.
Qed.

Lemma lookup_notin (acc : list (jsstr * Z)) (K : jsstr) :
  ~ In K (map fst acc) -> lookup_count acc K = 0.
Proof.
  induction acc as [|[k m] r IH]; cbn [lookup_count map fst In]; intros H; [reflexivity|].
  destruct (jsstr_eqb k K) eqn:E.
  - apply jsstr_eqb_spec in E. tauto.
  - apply IH. tauto.
Qed.

Lemma fold_distribution (es : list ShippingEntry.t) (acc : list (jsstr * Z)) :
  NoDup (map fst acc) -> (forall kv, In kv acc -> 0 < snd kv) ->
  let A := fold_left distribution_step es acc in
  NoDup (map fst A) /\ (forall kv, In kv A -> 0 < snd kv) /\
  (forall K, lookup_count A K = lookup_count acc K + Z.of_nat (name_count es K)) /\
  (forall K, In K (map fst A) <-> In K (map fst acc) \/ (0 < name_count es K)%nat) /\
  sumZ (map snd A) = sumZ (map snd acc) + Z.of_nat (length (filter named es)).
Proof.
  revert acc. induction es as [|s es IH]; intros acc Hnd Hpos; cbn [fold_left].
  - unfold name_count. cbn [filter length].
    split; [exact Hnd|]. split; [exact Hpos|]. split; [intros K; lia|]. split; [|lia].
    intros K. split; [tauto|]. intros [H|H]; [exact H|lia].
  - assert (Hstep : distribution_step acc s =
      if named s then count_name acc (toUpperCase (ShippingEntry.productName s)) else acc)
      by (unfold distribution_step, named; destruct (jsstr_eqb _ _); reflexivity).
    rewrite Hstep. unfold name_count in *. cbn [filter].
    change (negb (jsstr_eqb (ShippingEntry.productName s) [])) with (named s).
    destruct (named s) eqn:E; cbn [andb].
    + destruct (IH (count_name acc (toUpperCase (ShippingEntry.productName s))))
        as (H1 & H2 & H3 & H4 & H5);
        [apply count_name_NoDup, Hnd | apply count_name_pos, Hpos |].
      split; [exact H1|]. split; [exact H2|]. split; [|split].
      * intros K. rewrite H3, lookup_count_count_name.
        destruct (jsstr_eqb (toUpperCase _) K); cbn [length]; lia.
      * intros K. rewrite H4, keys_count_name.
        destruct (jsstr_eqb (toUpperCase (ShippingEntry.productName s)) K) eqn:E2;
          cbn [length].
        -- apply jsstr_eqb_spec in E2. split; [intros _; right; lia | intros _; tauto].
        -- apply jsstr_eqb_false in E2. split; intros [H|H]; try tauto.
      * rewrite H5, sum_count_name. cbn [length]. lia.
    + apply IH; assumption.
Qed.

Lemma insert_index_perm (kv : jsstr * Z) (v : Z) (l : list (jsstr * Z)) :
  Permutation (insert_index kv v l) (kv :: l).
Proof.
  induction l as [|y r IH]; cbn [insert_index]; [reflexivity|].
  destruct (array_index_value (fst y)) as [w|]; [|reflexivity].
  destruct (v <? w); [reflexivity|].
  eapply perm_trans; [apply perm_skip, IH | apply perm_swap].
Qed.

Lemma object_values_perm (acc : list (jsstr * Z)) :
  Permutation (object_values acc) acc.
Proof.
  unfold object_values.
  induction acc as [|kv r IH]; cbn [sort_indices filter]; [reflexivity|].
  destruct (array_index_value (fst kv)).
  - eapply perm_trans; [apply Permutation_app_tail, insert_index_perm|].
    cbn [app]. apply perm_skip, IH.
  - eapply perm_trans; [apply Permutation_sym, Permutation_middle|]. apply perm_skip, IH.
Qed.

Lemma sumZ_perm (l l' : list Z) : Permutation l l' -> sumZ l = sumZ l'.
Proof. unfold sumZ. induction 1; cbn [fold_right]; lia. Qed.

(** X13. The distribution chart has one bar per upper-case product name: a
    bar (K, n) is there exactly when n entries, n > 0, have a non-empty
    product name whose upper case is K; the bars add up to the number of
    entries with a product name. *)
Theorem distribution_counts (c : Collection.t) :
  let es := Collection.shippingEntries c in
  NoDup (map fst (distribution c)) /\
  (forall K n, In (K, n) (distribution c) <->
               (0 < name_count es K)%nat /\ n = Z.of_nat (name_count es K)) /\
  sumZ (map snd (distribution c)) = Z.of_nat (length (filter named es)).
Proof.
  cbv zeta. unfold distribution.
  destruct (fold_distribution (Collection.shippingEntries c) [])
    as (H1 & H2 & H3 & H4 & H5); [constructor | intros kv [] |].
  cbv zeta in *.
  set (A := fold_left distribution_step (Collection.shippingEntries c) []) in *.
  pose proof (object_values_perm A) as HP.
  split; [|split].
  - eapply Permutation_NoDup; [apply Permutation_map, Permutation_sym, HP | exact H1].
  - intros K n. split.
    + intros Hin0. pose proof (Permutation_in _ HP Hin0) as Hin. pose proof (lookup_In A K n H1 Hin) as HL. rewrite H3 in HL.
      cbn [lookup_count] in HL.
      assert (Hk : In K (map fst A)) by (apply (in_map fst) in Hin; exact Hin).
      apply H4 in Hk. destruct Hk as [[]|Hk]. split; [exact Hk | lia].
    + intros [Hk ->]. assert (HK : In K (map fst A)) by (apply H4; right; exact Hk).
      apply in_map_iff in HK. destruct HK as [[K' m] [E Hin]]. cbn in E. subst K'.
      pose proof (lookup_In A K m H1 Hin) as HL. rewrite H3 in HL. cbn [lookup_count] in HL.
      subst m. apply (Permutation_in _ (Permutation_sym HP)). replace (0 + Z.of_nat (name_count (Collection.shippingEntries c) K))
        with (Z.of_nat (name_count (Collection.shippingEntries c) K)) in Hin by lia.
      exact Hin.
  - rewrite (sumZ_perm _ _ (Permutation_map snd HP)), H5. reflexivity.
Qed.

(* ------------------------------------------------------------------ *)
(** ** The lookbook slider and the size options *)

Lemma even_of (x m : Z) : x = 2 * m -> Z.even x = true.
Proof. intros ->. rewrite Z.even_mul. reflexivity. Qed.

Lemma slide_step_valid (len p : Z) :
  0 < len -> Z.even p = true -> 0 <= p < len ->
  (Z.even (nextSlide len p) = true /\ 0 <= nextSlide len p < len) /\
  (Z.even (prevSlide len p) = true /\ 0 <= prevSlide len p < len) /\
  prevSlide len (nextSlide len p) = p /\ nextSlide len (prevSlide len p) = p.
Proof.
  intros Hlen Hev Hp.
  assert (Hk : exists k, p = 2 * k).
  { exists (Z.div2 p). rewrite (Z.div2_odd p) at 1. rewrite <- Z.negb_even, Hev. cbn. lia. }
  destruct Hk as [k ->]. clear Hev.
  assert (Hm : len mod 2 = 0 \/ len mod 2 = 1) by (pose proof (Z.mod_pos_bound len 2); lia).
  assert (Hd : len = 2 * (len / 2) + len mod 2) by (apply Z.div_mod; lia).
  unfold nextSlide, prevSlide. rewrite !Z.geb_leb.
  replace (len =? 0) with false by (symmetry; apply Z.eqb_neq; lia).
  destruct Hm as [Hm|Hm]; rewrite Hm in *; cbn [Z.eqb].
  all: repeat split;
    repeat match goal with
    | |- context [?a <=? ?b] => destruct (Z.leb_spec a b)
    | |- context [?a <? ?b] => destruct (Z.ltb_spec a b)
    | |- context [Z.max 0 ?a] => rewrite (Z.max_r 0 a) by lia
    | H : context [?a <=? ?b] |- _ => destruct (Z.leb_spec a b)
    | H : context [?a <? ?b] |- _ => destruct (Z.ltb_spec a b)
    | H : context [Z.max 0 ?a] |- _ => rewrite (Z.max_r 0 a) in H by lia
    end;
    try lia;
    first [ apply (even_of _ 0); lia | apply (even_of _ (k + 1)); lia
          | apply (even_of _ (k - 1)); lia | apply (even_of _ (len / 2)); lia
          | apply (even_of _ (len / 2 - 1)); lia ].
Qed.

(** X14. Starting from the first slide, any sequence of clicks on the next
    and previous arrows of a non-empty lookbook stays on an even slide
    inside the lookbook, from which one arrow undoes the other. *)
Theorem slides_from_start (len : Z) (moves : list bool) :
  0 < len ->
  let p := fold_left (fun p (next : bool) => if next then nextSlide len p else prevSlide len p)
                     moves 0 in
  Z.even p = true /\ 0 <= p < len /\
  prevSlide len (nextSlide len p) = p /\ nextSlide len (prevSlide len p) = p.
Proof.
  intros Hlen. cbv zeta.
  assert (H : forall q, Z.even q = true -> 0 <= q < len ->
    let p := fold_left (fun p (next : bool) => if next then nextSlide len p else prevSlide len p)
                       moves q in
    Z.even p = true /\ 0 <= p < len).
  { induction moves as [|b moves IH]; intros q Hq Hr; cbn [fold_left]; [tauto|].
    destruct (slide_step_valid len q Hlen Hq Hr) as ([Hn1 Hn2] & [Hp1 Hp2] & _).
    destruct b; apply IH; assumption. }
  destruct (H 0 eq_refl ltac:(lia)) as [H1 H2].
  destruct (slide_step_valid _ _ Hlen H1 H2) as (_ & _ & H3 & H4). tauto.
Qed.

Lemma slides_from_start_witness :
  0 < 5 /\
  let p := fold_left (fun p (next : bool) => if next then nextSlide 5 p else prevSlide 5 p)
                     [false; true; true] 0 in
  Z.even p = true /\ 0 <= p < 5 /\
  prevSlide 5 (nextSlide 5 p) = p /\ nextSlide 5 (prevSlide 5 p) = p.
Proof. split; [lia|]. apply slides_from_start. lia. Defined.

Lemma split_go_nonempty (sep : Z) (s cur : jsstr) : split_go sep s cur <> [].
Proof.
  revert cur; induction s as [|c r IH]; intros cur; cbn [split_go]; [discriminate|].
  destruct (c =? sep); [discriminate | apply IH].
Qed.

Lemma join_cons (sep x : jsstr) (l : list jsstr) :
  l <> [] -> join sep (x :: l) = x ++ sep ++ join sep l.
Proof. destruct l; [congruence | reflexivity]. Qed.

Lemma join_split_go (sep : Z) (s cur : jsstr) :
  join [sep] (split_go sep s cur) = rev cur ++ s.
Proof.
  revert cur; induction s as [|c r IH]; intros cur; cbn [split_go].
  - rewrite app_nil_r. reflexivity.
  - destruct (c =? sep) eqn:E.
    + apply Z.eqb_eq in E. subst c. rewrite join_cons by apply split_go_nonempty.
      rewrite IH. reflexivity.
    + rewrite IH. cbn [rev]. rewrite <- app_assoc. reflexivity.
Qed.

Lemma split_go_length (sep : Z) (s cur : jsstr) :
  length (split_go sep s cur) = S (count_occ Z.eq_dec s sep).
Proof.
  revert cur; induction s as [|c r IH]; intros cur; cbn [split_go count_occ]; [reflexivity|].
  destruct (c =? sep) eqn:E.
  - apply Z.eqb_eq in E. subst c. destruct (Z.eq_dec sep sep); [|congruence].
    cbn [length]. rewrite IH. reflexivity.
  - apply Z.eqb_neq in E. destruct (Z.eq_dec c sep); [congruence|]. apply IH.
Qed.

Lemma split_go_no_sep (sep : Z) (s cur : jsstr) :
  ~ In sep cur -> Forall (fun o => ~ In sep o) (split_go sep s cur).
Proof.
  revert cur; induction s as [|c r IH]; intros cur Hc; cbn [split_go].
  - constructor; [rewrite <- in_rev; exact Hc | constructor].
  - destruct (c =? sep) eqn:E.
    + constructor; [rewrite <- in_rev; exact Hc | apply IH; intros []].
    + apply IH. apply Z.eqb_neq in E. intros [H|H]; [congruence | exact (Hc H)].
Qed.

Lemma split_go_app (sep : Z) (x r cur : jsstr) :
  ~ In sep x -> split_go sep (x ++ r) cur = split_go sep r (rev x ++ cur).
Proof.
  revert cur; induction x as [|c x IH]; intros cur Hx; [reflexivity|].
  cbn [app split_go]. replace (c =? sep) with false.
  - rewrite IH by (intros H; apply Hx; right; exact H). cbn [rev].
    rewrite <- app_assoc. reflexivity.
  - symmetry. apply Z.eqb_neq. intros ->. apply Hx. left. reflexivity.
Qed.

Lemma split_join (sep : Z) (l : list jsstr) :
  l <> [] -> Forall (fun o => ~ In sep o) l -> split sep (join [sep] l) = l.
Proof.
  unfold split. induction l as [|x l IH]; intros Hne Hl; [congruence|].
  inversion Hl as [|? ? Hx Hl']; subst.
  destruct l as [|y l].
  - replace (join [sep] [x]) with (x ++ []) by (cbn [join]; rewrite app_nil_r; reflexivity).
    rewrite split_go_app by exact Hx.
    cbn [split_go]. rewrite app_nil_r, rev_involutive. reflexivity.
  - rewrite join_cons by discriminate. rewrite split_go_app by exact Hx.
    cbn [app split_go]. rewrite Z.eqb_refl, app_nil_r, rev_involutive.
    rewrite IH; [reflexivity | discriminate | exact Hl'].
Qed.

Lemma trimStart_incl (s : jsstr) (c : Z) : In c (trimStart s) -> In c s.
Proof.
  induction s as [|x s IH]; cbn [trimStart]; [tauto|].
  destruct (is_js_space x); [intros H; right; apply IH, H | tauto].
Qed.

Lemma trim_incl (s : jsstr) (c : Z) : In c (trim s) -> In c s.
Proof.
  unfold trim, trimEnd. intros H. apply trimStart_incl.
  rewrite <- in_rev in H. apply trimStart_incl in H. rewrite <- in_rev in H. exact H.
Qed.

Lemma trimStart_idem (s : jsstr) : trimStart (trimStart s) = trimStart s.
Proof.
  induction s as [|c s IH]; cbn [trimStart]; [reflexivity|].
  destruct (is_js_space c) eqn:E; [exact IH|]. cbn [trimStart]. rewrite E. reflexivity.
Qed.

Lemma trimStart_suffix (s : jsstr) : exists w, s = w ++ trimStart s.
Proof.
  induction s as [|c s [w IH]]; cbn [trimStart]; [exists []; reflexivity|].
  destruct (is_js_space c); [exists (c :: w); cbn [app]; rewrite <- IH; reflexivity|].
  exists []; reflexivity.
Qed.

Lemma trimStart_fixed (s : jsstr) :
  match s with [] => True | c :: _ => is_js_space c = false end -> trimStart s = s.
Proof. destruct s as [|c s]; [reflexivity|]. cbn [trimStart]. intros ->. reflexivity. Qed.

Lemma trim_idem (s : jsstr) : trim (trim s) = trim s.
Proof.
  unfold trim.
  assert (Hf : trimStart (trimEnd (trimStart s)) = trimEnd (trimStart s)).
  { apply trimStart_fixed.
    destruct (trimStart_suffix (rev (trimStart s))) as [w Hw].
    assert (Ht : trimStart s = trimEnd (trimStart s) ++ rev w).
    { unfold trimEnd. rewrite <- (rev_involutive (trimStart s)) at 1. rewrite Hw at 1.
      rewrite rev_app_distr. reflexivity. }
    destruct (trimEnd (trimStart s)) as [|c P]; [exact I|].
    pose proof (trimStart_idem s) as Hi. rewrite Ht in Hi. cbn [app trimStart] in Hi.
    destruct (is_js_space c) eqn:E; [|reflexivity].
    exfalso. destruct (trimStart_suffix (P ++ rev w)) as [w' Hw'].
    assert (Hl : length (P ++ rev w) = (length w' + length (c :: P ++ rev w))%nat).
    { rewrite <- length_app. rewrite Hi in Hw'. rewrite <- Hw'. reflexivity. }
    cbn [length] in Hl. lia. }
  rewrite Hf. unfold trimEnd. rewrite rev_involutive, trimStart_idem. reflexivity.
Qed.

(** X15. The "Size Options" field: the options stored for any text are its
    comma-separated pieces, trimmed, one more than the commas of the text
    and none with a comma; and the text the field shows for a product
    reads back as the same options when they are non-empty in number,
    trimmed and free of commas. *)
Theorem options_of_input_text (v : jsstr) (p : Product.t) :
  length (options_of_input v) = S (count_occ Z.eq_dec v 44) /\
  Forall (fun o => ~ In 44 o /\ trim o = o) (options_of_input v) /\
  (Product.options p <> [] ->
   Forall (fun o => ~ In 44 o /\ trim o = o) (Product.options p) ->
   options_of_input (options_text p) = Product.options p).
Proof.
  unfold options_of_input. split; [|split].
  - rewrite length_map. apply split_go_length.
  - pose proof (split_go_no_sep 44 v [] ltac:(intros [])) as H.
    unfold split. induction H as [|o l Ho Hl IH]; constructor; [|exact IH].
    split; [intros Hc; apply Ho, trim_incl, Hc|].
    apply trim_idem.
  - intros Hne Hall. unfold options_text. rewrite split_join.
    + clear Hne. induction Hall as [|o l [_ Ho] Hl IH]; [reflexivity|].
      cbn [map]. rewrite Ho, IH. reflexivity.
    + exact Hne.
    + eapply Forall_impl; [|exact Hall]. intros o [Ho _]. exact Ho.
Qed.

(* ------------------------------------------------------------------ *)
(** ** The product catalog *)

Lemma findIndex_at {A} (f : A -> bool) (pre : list A) (p : A) (post : list A) :
  Forall (fun q => f q = false) pre -> f p = true ->
  findIndex f (pre ++ p :: post) = Z.of_nat (length pre).
Proof.
  intros Hpre Hp. induction Hpre as [|q pre Hq Hpre IH]; cbn [app findIndex length].
  - rewrite Hp. reflexivity.
  - rewrite Hq, IH. replace (Z.of_nat (length pre) <? 0) with false by (symmetry; apply Z.ltb_ge; lia).
    lia.
Qed.

Lemma findIndex_none {A} (f : A -> bool) (l : list A) :
  (forall q, In q l -> f q = false) -> findIndex f l = -1.
Proof.
  induction l as [|q l IH]; intros H; cbn [findIndex]; [reflexivity|].
  rewrite H by (left; reflexivity). rewrite IH by (intros q' Hq'; apply H; right; exact Hq').
  reflexivity.
Qed.

Lemma set_images_at_app (imgs : list jsstr) (pre : list Product.t) (p : Product.t) post :
  set_images_at (length pre) imgs (pre ++ p :: post) =
  pre ++ Product.mk (Product.id p) (Product.name p) (Product.price p) (Product.options p)
                    (Product.description p) imgs :: post.
Proof. induction pre as [|q pre IH]; cbn [length app set_images_at]; [reflexivity|]. rewrite IH. reflexivity. Qed.

(** X16. The remove button of an image and the upload input of a product
    card write to the first product of the catalog that has the card's id:
    its images become the card's images without the [i]-th, or followed by
    the uploaded ones; the products before and after it are left as they
    are. *)
Theorem product_images_first_match (c : Collection.t) (prod : Product.t) (i : nat)
    (newImages : list jsstr) (pre : list Product.t) (p : Product.t) (post : list Product.t) :
  Collection.products c = pre ++ p :: post ->
  Forall (fun q => Product.id q <> Product.id prod) pre ->
  Product.id p = Product.id prod ->
  let at_p imgs := with_products c
        (pre ++ Product.mk (Product.id p) (Product.name p) (Product.price p)
                  (Product.options p) (Product.description p) imgs :: post) in
  removeProductImage c prod i = Some (at_p (remove_index i (Product.images prod))) /\
  addProductImages c prod newImages = Some (at_p (Product.images prod ++ newImages)).
Proof.
  intros Hps Hpre Hp. cbv zeta.
  assert (Hf : findIndex (fun q => jsstr_eqb (Product.id q) (Product.id prod))
                         (Collection.products c) = Z.of_nat (length pre)).
  { rewrite Hps. apply findIndex_at.
    - eapply Forall_impl; [|exact Hpre]. intros q Hq. apply jsstr_eqb_false. exact Hq.
    - apply jsstr_eqb_spec. exact Hp. }
  unfold removeProductImage, addProductImages. rewrite Hf.
  replace (Z.of_nat (length pre) <? 0) with false by (symmetry; apply Z.ltb_ge; lia).
  rewrite Nat2Z.id, Hps, !set_images_at_app. split; reflexivity.
Qed.

Lemma product_images_first_match_witness :
  Collection.products sample_collection = [] ++ sample_product :: [] /\
  Forall (fun q => Product.id q <> Product.id sample_product) [] /\
  Product.id sample_product = Product.id sample_product /\
  let at_p imgs := with_products sample_collection
        ([] ++ Product.mk (Product.id sample_product) (Product.name sample_product)
                 (Product.price sample_product) (Product.options sample_product)
                 (Product.description sample_product) imgs :: []) in
  removeProductImage sample_collection sample_product 0 =
    Some (at_p (remove_index 0 (Product.images sample_product))) /\
  addProductImages sample_collection sample_product [u "img"] =
    Some (at_p (Product.images sample_product ++ [u "img"])).
Proof.
  split; [reflexivity|]. split; [constructor|]. split; [reflexivity|].
  apply product_images_first_match; [reflexivity | constructor | reflexivity].
Defined.

Lemma products_with (c : Collection.t) (ps : list Product.t) :
  Collection.products (with_products c ps) = ps.
Proof. reflexivity. Qed.

Lemma with_products_twice (c : Collection.t) (ps ps' : list Product.t) :
  with_products (with_products c ps) ps' = with_products c ps'.
Proof. reflexivity. Qed.

Lemma with_products_same (c : Collection.t) : with_products c (Collection.products c) = c.
Proof. destruct c; reflexivity. Qed.

Lemma filter_fresh_products (newId : jsstr) (ps : list Product.t) :
  ~ In newId (map Product.id ps) ->
  filter (fun p => negb (jsstr_eqb (Product.id p) newId)) ps = ps.
Proof.
  induction ps as [|q ps IH]; intros Hfresh; [reflexivity|].
  cbn [map In] in Hfresh. cbn [filter].
  destruct (jsstr_eqb (Product.id q) newId) eqn:E.
  - apply jsstr_eqb_spec in E. exfalso. apply Hfresh. left. exact E.
  - cbn [negb]. rewrite IH; [reflexivity|]. tauto.
Qed.

Lemma remove_index_last {A} (l : list A) (x : A) : remove_index (length l) (l ++ [x]) = l.
Proof. induction l as [|y l IH]; [reflexivity|]. cbn [length app remove_index]. rewrite IH. reflexivity. Qed.

Lemma product_eta (p : Product.t) :
  Product.mk (Product.id p) (Product.name p) (Product.price p) (Product.options p)
    (Product.description p) (Product.images p) = p.
Proof. destruct p; reflexivity. Qed.

(** X17. Uploading one image on the card of a catalog product, then pressing
    the remove button of that new image (the last one) on the card as it is
    rendered again, gives back the collection as it was; the product is the
    first of the catalog with its id. *)
Theorem upload_then_remove_image (c : Collection.t) (pre post : list Product.t)
    (prod : Product.t) (img : jsstr) :
  Collection.products c = pre ++ prod :: post ->
  Forall (fun q => Product.id q <> Product.id prod) pre ->
  let prod' := Product.mk (Product.id prod) (Product.name prod) (Product.price prod)
                 (Product.options prod) (Product.description prod)
                 (Product.images prod ++ [img]) in
  addProductImages c prod [img] = Some (with_products c (pre ++ prod' :: post)) /\
  removeProductImage (with_products c (pre ++ prod' :: post)) prod'
    (length (Product.images prod)) = Some c.
Proof.
  intros Hps Hpre prod'.
  assert (Hf : forall q, Product.id q = Product.id prod ->
            findIndex (fun r => jsstr_eqb (Product.id r) (Product.id prod)) (pre ++ q :: post) =
            Z.of_nat (length pre)).
  { intros q Hq. apply findIndex_at.
    - eapply Forall_impl; [|exact Hpre]. intros r Hr. apply jsstr_eqb_false. exact Hr.
    - apply jsstr_eqb_spec. exact Hq. }
  assert (Hlt : (Z.of_nat (length pre) <? 0) = false) by (apply Z.ltb_ge; lia).
  split.
  - unfold addProductImages. rewrite Hps, (Hf prod eq_refl), Hlt, Nat2Z.id, set_images_at_app.
    reflexivity.
  - unfold removeProductImage. rewrite products_with.
    change (Product.id prod') with (Product.id prod).
    rewrite (Hf prod' eq_refl), Hlt, Nat2Z.id, set_images_at_app.
    unfold prod'.
    cbn [Product.id Product.name Product.price Product.options Product.description
         Product.images].
    rewrite remove_index_last, product_eta, with_products_twice, <- Hps, with_products_same.
    reflexivity.
Qed.

Lemma upload_then_remove_image_witness :
  Collection.products sample_collection = [] ++ sample_product :: [] /\
  Forall (fun q => Product.id q <> Product.id sample_product) [] /\
  let prod' := Product.mk (Product.id sample_product) (Product.name sample_product)
                 (Product.price sample_product) (Product.options sample_product)
                 (Product.description sample_product)
                 (Product.images sample_product ++ [u "img"]) in
  addProductImages sample_collection sample_product [u "img"] =
    Some (with_products sample_collection ([] ++ prod' :: [])) /\
  removeProductImage (with_products sample_collection ([] ++ prod' :: [])) prod'
    (length (Product.images sample_product)) = Some sample_collection.
Proof.
  split; [reflexivity|]. split; [constructor|].
  apply upload_then_remove_image; [reflexivity | constructor].
Defined.

(** X18. Removing, once confirmed, the product that "Add Manually" just
    appended under a fresh id gives back the collection as it was. *)
Theorem addProduct_then_delete (newId : jsstr) (c : Collection.t) :
  ~ In newId (map Product.id (Collection.products c)) ->
  deleteProduct true (snd (addProduct newId c))
    (Product.mk newId (u "New Item") (u "0") [u "OS"] [] []) = Some c.
Proof.
  intros Hfresh. unfold deleteProduct, addProduct, handleUpdate. cbn [snd].
  rewrite with_products_twice, products_with, filter_app. cbn [filter Product.id].
  rewrite (proj2 (jsstr_eqb_spec newId newId) eq_refl). cbn [negb]. rewrite app_nil_r.
  rewrite filter_fresh_products by exact Hfresh. rewrite with_products_same. reflexivity.
Qed.

Lemma addProduct_then_delete_witness :
  ~ In (u "fresh") (map Product.id (Collection.products sample_collection)) /\
  deleteProduct true (snd (addProduct (u "fresh") sample_collection))
    (Product.mk (u "fresh") (u "New Item") (u "0") [u "OS"] [] []) = Some sample_collection.
Proof.
  assert (H : ~ In (u "fresh") (map Product.id (Collection.products sample_collection))).
  { intros [H|[]]. discriminate H. }
  split; [exact H|]. apply addProduct_then_delete. exact H.
Defined.

Lemma apply_product_edit_id (ed : product_edit) (p : Product.t) :
  Product.id (apply_product_edit ed p) = Product.id p.
Proof. destruct p, ed; reflexivity. Qed.

Lemma apply_product_edit_idem (ed : product_edit) (p : Product.t) :
  apply_product_edit ed (apply_product_edit ed p) = apply_product_edit ed p.
Proof. destruct p, ed; reflexivity. Qed.

(** X19. A field edit of a product card changes no product id and no image,
    and repeating it changes nothing more; edits of cards with different
    ids commute. *)
Theorem onProductEdit_ids_idem (c : Collection.t) (prod prod' : Product.t)
    (ed ed' : product_edit) :
  map Product.id (Collection.products (onProductEdit c prod ed)) =
    map Product.id (Collection.products c) /\
  map Product.images (Collection.products (onProductEdit c prod ed)) =
    map Product.images (Collection.products c) /\
  onProductEdit (onProductEdit c prod ed) prod ed = onProductEdit c prod ed /\
  (Product.id prod <> Product.id prod' ->
   onProductEdit (onProductEdit c prod ed) prod' ed' =
   onProductEdit (onProductEdit c prod' ed') prod ed).
Proof.
  unfold onProductEdit. rewrite !with_products_twice, !products_with, !map_map.
  split; [|split; [|split]].
  - apply map_ext. intros q. destruct (jsstr_eqb _ _); [apply apply_product_edit_id | reflexivity].
  - apply map_ext. intros q. destruct (jsstr_eqb _ _); [destruct q, ed; reflexivity | reflexivity].
  - f_equal. apply map_ext. intros q.
    destruct (jsstr_eqb (Product.id q) (Product.id prod)) eqn:E.
    + rewrite apply_product_edit_id, E. apply apply_product_edit_idem.
    + rewrite E. reflexivity.
  - intros Hne. f_equal. apply map_ext. intros q.
    destruct (jsstr_eqb (Product.id q) (Product.id prod)) eqn:E1;
    destruct (jsstr_eqb (Product.id q) (Product.id prod')) eqn:E2;
    rewrite ?apply_product_edit_id, ?E1, ?E2; try reflexivity.
    apply jsstr_eqb_spec in E1, E2. congruence.
Qed.

(* ------------------------------------------------------------------ *)
(** ** Saving and deleting collections *)

Lemma with_collections_same (st : AppState.t) :
  AppState.with_collections st (AppState.collections st) = st.
Proof. destruct st; reflexivity. Qed.

Lemma with_collections_twice (st : AppState.t) (cs cs' : list Collection.t) :
  AppState.with_collections (AppState.with_collections st cs) cs' =
  AppState.with_collections st cs'.
Proof. reflexivity. Qed.

Lemma collections_with (st : AppState.t) (cs : list Collection.t) :
  AppState.collections (AppState.with_collections st cs) = cs.
Proof. reflexivity. Qed.

Lemma map_replace_fresh (i : jsstr) (upd : Collection.t) (cs : list Collection.t) :
  ~ In i (map Collection.id cs) ->
  map (fun c => if jsstr_eqb (Collection.id c) i then upd else c) cs = cs.
Proof.
  induction cs as [|c cs IH]; intros H; [reflexivity|]. cbn [map In] in *.
  destruct (jsstr_eqb (Collection.id c) i) eqn:E.
  - apply jsstr_eqb_spec in E. tauto.
  - rewrite IH; [reflexivity | tauto].
Qed.

Lemma filter_fresh_collections (i : jsstr) (cs : list Collection.t) :
  ~ In i (map Collection.id cs) ->
  filter (fun c => negb (jsstr_eqb (Collection.id c) i)) cs = cs.
Proof.
  induction cs as [|c cs IH]; intros H; [reflexivity|]. cbn [map In filter] in *.
  destruct (jsstr_eqb (Collection.id c) i) eqn:E.
  - apply jsstr_eqb_spec in E. tauto.
  - cbn [negb]. rewrite IH; [reflexivity | tauto].
Qed.

(** X20. A collection created under a fresh id is the one every later save
    of the dashboard replaces, and deleting it gives back the state from
    before its creation. *)
Theorem create_update_delete (newCollectionName : jsstr) (ls : Storage) (r1 r2 : jsstr)
    (st : AppState.t) (upd : Collection.t) :
  trim newCollectionName <> [] ->
  storage_nearly_full ls = false ->
  ~ In (generateId r1) (map Collection.id (AppState.collections st)) ->
  Collection.id upd = generateId r1 ->
  let st1 := snd (createCollection newCollectionName ls r1 r2 st) in
  (exists newColl, Collection.id newColl = generateId r1 /\
     st1 = AppState.with_collections st (AppState.collections st ++ [newColl])) /\
  fst (updateCollection st1 upd) =
    AppState.with_collections st (AppState.collections st ++ [upd]) /\
  onDeleteCollection true (fst (updateCollection st1 upd)) upd = Some st.
Proof.
  intros Hname Hls Hfresh Hid. cbv zeta.
  unfold createCollection.
  replace (jsstr_eqb (trim newCollectionName) []) with false
    by (symmetry; apply jsstr_eqb_false; exact Hname).
  rewrite Hls. cbn [snd fst].
  set (newColl := Collection.mk (generateId r1) (trim newCollectionName) _ _ _ _ _ _ _ _).
  split; [exists newColl; split; reflexivity|].
  unfold updateCollection. cbn [fst].
  rewrite with_collections_twice, collections_with, map_app, Hid.
  rewrite map_replace_fresh by exact Hfresh. cbn [map Collection.id newColl].
  rewrite (proj2 (jsstr_eqb_spec (generateId r1) (generateId r1)) eq_refl).
  split; [reflexivity|].
  unfold onDeleteCollection. rewrite with_collections_twice, collections_with, filter_app, Hid.
  rewrite filter_fresh_collections by exact Hfresh. cbn [filter].
  rewrite Hid, (proj2 (jsstr_eqb_spec (generateId r1) (generateId r1)) eq_refl). cbn [negb].
  rewrite app_nil_r, with_collections_same. reflexivity.
Qed.

(** X21. A save of the dashboard replaces the collections of the state that
    have the id of the saved one and keeps the others, their order and
    number; when no collection has that id any more, the state is left as
    it is while the dashboard keeps showing the saved collection. *)
Theorem updateCollection_replaces (st : AppState.t) (upd : Collection.t) :
  let st' := fst (updateCollection st upd) in
  length (AppState.collections st') = length (AppState.collections st) /\
  map Collection.id (AppState.collections st') = map Collection.id (AppState.collections st) /\
  (forall k c, nth_error (AppState.collections st) k = Some c ->
     nth_error (AppState.collections st') k =
       Some (if jsstr_eqb (Collection.id c) (Collection.id upd) then upd else c)) /\
  snd (updateCollection st upd) = upd /\
  (~ In (Collection.id upd) (map Collection.id (AppState.collections st)) -> st' = st).
Proof.
  cbv zeta. unfold updateCollection. cbn [fst snd]. rewrite collections_with.
  split; [apply length_map|]. split; [|split; [|split; [reflexivity|]]].
  - rewrite map_map. apply map_ext. intros c.
    destruct (jsstr_eqb (Collection.id c) (Collection.id upd)) eqn:E; [|reflexivity].
    apply jsstr_eqb_spec in E. symmetry. exact E.
  - intros k c Hk. rewrite nth_error_map, Hk. reflexivity.
  - intros H. rewrite map_replace_fresh by exact H. apply with_collections_same.
Qed.

Lemma create_update_delete_witness :
  trim (u " SS27 ") <> [] /\
  storage_nearly_full [] = false /\
  ~ In (generateId (u "0.k3j2h1g0f9")) (map Collection.id (AppState.collections sample_state)) /\
  Collection.id sample_new_collection = generateId (u "0.k3j2h1g0f9") /\
  let st1 := snd (createCollection (u " SS27 ") [] (u "0.k3j2h1g0f9") (u "0.x8y7z6") sample_state) in
  (exists newColl, Collection.id newColl = generateId (u "0.k3j2h1g0f9") /\
     st1 = AppState.with_collections sample_state (AppState.collections sample_state ++ [newColl])) /\
  fst (updateCollection st1 sample_new_collection) =
    AppState.with_collections sample_state (AppState.collections sample_state ++ [sample_new_collection]) /\
  onDeleteCollection true (fst (updateCollection st1 sample_new_collection)) sample_new_collection = Some sample_state.
Proof.
  assert (H1 : trim (u " SS27 ") <> []) by (vm_compute; discriminate).
  assert (H2 : storage_nearly_full [] = false) by (vm_compute; reflexivity).
  assert (H3 : ~ In (generateId (u "0.k3j2h1g0f9"))
                    (map Collection.id (AppState.collections sample_state))).
  { vm_compute. intros [H|[]]. discriminate H. }
  assert (H4 : Collection.id sample_new_collection = generateId (u "0.k3j2h1g0f9")) by reflexivity.
  split; [exact H1|]. split; [exact H2|]. split; [exact H3|]. split; [exact H4|].
  apply create_update_delete; assumption.
Defined.

(* ------------------------------------------------------------------ *)
(** ** Access codes *)

Lemma trimStart_head (s : jsstr) (c : Z) (r : jsstr) :
  trimStart s = c :: r -> is_js_space c = false.
Proof.
  induction s as [|x s IH]; cbn [trimStart]; [discriminate|].
  destruct (is_js_space x) eqn:E; [exact IH|]. intros H. inversion H; subst. exact E.
Qed.

Lemma trim_first (s : jsstr) (c : Z) (r : jsstr) :
  trim s = c :: r -> is_js_space c = false.
Proof.
  intros H. destruct (trimStart_suffix (rev (trimStart s))) as [w Hw].
  assert (Ht : trimStart s = trim s ++ rev w).
  { unfold trim, trimEnd. rewrite <- (rev_involutive (trimStart s)) at 1. rewrite Hw at 1.
    rewrite rev_app_distr. reflexivity. }
  rewrite H in Ht. apply (trimStart_head s c (r ++ rev w)). exact Ht.
Qed.

Lemma trim_last (s : jsstr) (c : Z) (r : jsstr) :
  trim s = r ++ [c] -> is_js_space c = false.
Proof.
  unfold trim, trimEnd. intros H.
  apply (trimStart_head (rev (trimStart s)) c (rev r)).
  rewrite <- (rev_involutive (trimStart (rev (trimStart s)))), H.
  rewrite rev_app_distr. reflexivity.
Qed.

Lemma lower_cu_space (c : Z) :
  (is_js_space (lower_cu c) = true <-> is_js_space c = true) /\
  (is_js_space c = true -> lower_cu c = c).
Proof.
  unfold lower_cu, is_js_space.
  destruct (((65 <=? c) && (c <=? 90)) || ((192 <=? c) && (c <=? 222) && negb (c =? 215))) eqn:E.
  - rewrite !orb_true_iff, !andb_true_iff, ?negb_true_iff, ?Z.leb_le, ?Z.eqb_eq, ?Z.eqb_neq in E.
    split; [|intros H; rewrite !orb_true_iff, !andb_true_iff, ?Z.leb_le, ?Z.eqb_eq in H; lia].
    rewrite !orb_true_iff, !andb_true_iff, ?Z.leb_le, ?Z.eqb_eq. lia.
  - split; reflexivity.
Qed.

(** X22. An access code that begins or ends with whitespace can never be
    entered: the login trims the typed code, and neither the "Admin Code"
    field nor the collection's access code field trims what it stores. So
    once such an admin code is saved the admin is locked out, and a
    collection whose code is such is never opened. *)
Theorem login_padded_code (input v : jsstr) (st : AppState.t) :
  ((exists c r, v = c :: r /\ is_js_space c = true) \/
   (exists r c, v = r ++ [c] /\ is_js_space c = true)) ->
  fst (handleLogin input (updateAdminCode v st)) <> AsAdmin /\
  (forall c : Collection.t, Collection.accessCode c = v ->
     fst (handleLogin input st) <> AsInfluencer c).
Proof.
  intros Hpad.
  assert (Hne : toLowerCase (trim input) <> toLowerCase v).
  { unfold toLowerCase. intros Heq.
    destruct Hpad as [(c & r & -> & Hc) | (r & c & -> & Hc)].
    - cbn [map] in Heq.
      destruct (trim input) as [|c' r'] eqn:Et; cbn [map] in Heq; [discriminate|].
      injection Heq as Hc' _. apply trim_first in Et.
      rewrite (proj2 (lower_cu_space c) Hc) in Hc'.
      assert (is_js_space (lower_cu c') = true) by (rewrite Hc'; exact Hc).
      apply (proj1 (lower_cu_space c')) in H. congruence.
    - rewrite map_app in Heq. cbn [map] in Heq.
      destruct (rev (trim input)) as [|c' r'] eqn:Et.
      + apply (f_equal (@length Z)) in Heq.
        rewrite length_map, length_app in Heq. cbn [length] in Heq.
        assert (trim input = []) as E0 by (rewrite <- (rev_involutive (trim input)), Et; reflexivity).
        rewrite E0 in Heq. cbn [length] in Heq. lia.
      + assert (E1 : trim input = rev r' ++ [c'])
          by (rewrite <- (rev_involutive (trim input)), Et; reflexivity).
        rewrite E1, map_app in Heq. cbn [map] in Heq.
        apply app_inj_tail in Heq as [_ Hc']. apply trim_last in E1.
        rewrite (proj2 (lower_cu_space c) Hc) in Hc'.
        assert (is_js_space (lower_cu c') = true) by (rewrite Hc'; exact Hc).
        apply (proj1 (lower_cu_space c')) in H. congruence. }
  unfold handleLogin. split.
  - cbn [AppState.adminAccessCode updateAdminCode].
    replace (jsstr_eqb (toLowerCase (trim input)) (toLowerCase v)) with false
      by (symmetry; apply jsstr_eqb_false; exact Hne).
    destruct (find _ _); discriminate.
  - intros c Hc. destruct (jsstr_eqb _ _); [discriminate|].
    destruct (find (code_matches (toLowerCase (trim input))) (AppState.collections st)) as [m|] eqn:Ef;
      [|discriminate].
    cbn [fst]. intros H. injection H as ->.
    apply find_some in Ef as [_ Ef]. unfold code_matches in Ef.
    apply jsstr_eqb_spec in Ef. rewrite Hc in Ef. congruence.
Qed.

Lemma login_padded_code_witness :
  ((exists c r, u "admin " = c :: r /\ is_js_space c = true) \/
   (exists r c, u "admin " = r ++ [c] /\ is_js_space c = true)) /\
  fst (handleLogin (u "admin ") (updateAdminCode (u "admin ") sample_state)) <> AsAdmin /\
  (forall c : Collection.t, Collection.accessCode c = u "admin " ->
     fst (handleLogin (u "admin ") sample_state) <> AsInfluencer c).
Proof.
  assert (H : (exists c r, u "admin " = c :: r /\ is_js_space c = true) \/
              (exists r c, u "admin " = r ++ [c] /\ is_js_space c = true)).
  { right. exists (u "admin"), 32. split; reflexivity. }
  split; [exact H|]. apply login_padded_code. exact H.
Defined.

(* ------------------------------------------------------------------ *)
(** ** Checkout and the report *)

Lemma build_entries_map (gen : nat -> jsstr) (k : nat) (today : jsstr) (f : FormData.t)
    (items : list CartItem.t) :
  map (fun e => (ShippingEntry.submitDate e, ShippingEntry.productName e))
      (build_entries gen k today f items) =
  map (fun it => (today, CartItem.productName it)) items.
Proof.
  revert k. induction items as [|it r IH]; intros k; cbn [build_entries map]; [reflexivity|].
  rewrite IH. reflexivity.
Qed.

Lemma date_part_prefix (iso : jsstr) (c : Z) : In c (date_part iso) -> In c iso.
Proof.
  induction iso as [|x r IH]; cbn [date_part]; [tauto|].
  destruct (x =? 84); [intros []|]. intros [H|H]; [left; exact H | right; apply IH, H].
Qed.

Lemma filter_map_pairs {A B} (f : A -> B) (g : B -> bool) (l : list A) :
  length (filter (fun x => g (f x)) l) = length (filter g (map f l)).
Proof.
  induction l as [|x l IH]; cbn [filter map]; [reflexivity|].
  destruct (g (f x)); cbn [length]; rewrite IH; reflexivity.
Qed.

(** X23. A successful checkout adds one shipment per cart item to "Total
    Packets" and to "Original Requests" (the submit date comes from an
    ASCII timestamp, never the sentinel of a duplicated entry), and adds
    each item to the distribution count of its upper-cased product name. *)
Theorem handleSubmit_report (gen : nat -> jsstr) (now_iso : jsstr) (c : Collection.t)
    (s : Session.t) :
  Forall (fun x => 0 <= x < 128) now_iso ->
  fst (fst (handleSubmit gen now_iso c s)) = NoNotice ->
  let c' := snd (fst (handleSubmit gen now_iso c s)) in
  let n := Z.of_nat (length (Session.cart s)) in
  total_packets c' = total_packets c + n /\
  original_requests c' = original_requests c + n /\
  (forall K, name_count (Collection.shippingEntries c') K =
     (name_count (Collection.shippingEntries c) K +
      length (filter (fun it => negb (jsstr_eqb (CartItem.productName it) []) &&
                                jsstr_eqb (toUpperCase (CartItem.productName it)) K)
                     (Session.cart s)))%nat).
Proof.
  intros Hascii Hok. unfold handleSubmit in *.
  destruct (_ || _ || _ || _ || _); [discriminate Hok|]. clear Hok. cbv zeta. cbn [fst snd].
  unfold total_packets, original_requests, name_count, onSubmission.
  rewrite shippingEntries_with.
  set (es := build_entries gen 0 (date_part now_iso) (Session.formData s) (Session.cart s)).
  assert (Hm := build_entries_map gen 0 (date_part now_iso) (Session.formData s) (Session.cart s)).
  fold es in Hm.
  assert (Hlen : length es = length (Session.cart s)).
  { rewrite <- (length_map (fun e => (ShippingEntry.submitDate e, ShippingEntry.productName e))), Hm.
    apply length_map. }
  assert (Hsent : jsstr_eqb (date_part now_iso) extra_sentinel = false).
  { apply jsstr_eqb_false. intros H.
    assert (Hin : In 52628 (date_part now_iso)) by (rewrite H; left; reflexivity).
    apply date_part_prefix in Hin. rewrite Forall_forall in Hascii.
    apply Hascii in Hin. lia. }
  split; [|split].
  - rewrite length_app, Hlen. lia.
  - rewrite filter_app, length_app. f_equal.
    replace (length (filter _ es)) with (length es); [rewrite Hlen; lia|].
    rewrite (filter_map_pairs (fun e => (ShippingEntry.submitDate e, ShippingEntry.productName e))
               (fun p => negb (jsstr_eqb (fst p) extra_sentinel))), Hm.
    rewrite <- filter_map_pairs. cbn [fst]. rewrite Hsent. cbn [negb].
    rewrite filter_true. exact Hlen.
  - intros K. rewrite filter_app, length_app. f_equal.
    rewrite (filter_map_pairs (fun e => (ShippingEntry.submitDate e, ShippingEntry.productName e))
               (fun p => negb (jsstr_eqb (snd p) []) && jsstr_eqb (toUpperCase (snd p)) K)), Hm.
    rewrite <- filter_map_pairs. reflexivity.
Qed.

Lemma handleSubmit_report_witness :
  Forall (fun x => 0 <= x < 128) (u "2026-10-15T09:30:00.000Z") /\
  fst (fst (handleSubmit (fun _ => u "k9x2m1q0z") (u "2026-10-15T09:30:00.000Z")
                         sample_collection sample_checkout)) = NoNotice /\
  let c' := snd (fst (handleSubmit (fun _ => u "k9x2m1q0z") (u "2026-10-15T09:30:00.000Z")
                                   sample_collection sample_checkout)) in
  let n := Z.of_nat (length (Session.cart sample_checkout)) in
  total_packets c' = total_packets sample_collection + n /\
  original_requests c' = original_requests sample_collection + n /\
  (forall K, name_count (Collection.shippingEntries c') K =
     (name_count (Collection.shippingEntries sample_collection) K +
      length (filter (fun it => negb (jsstr_eqb (CartItem.productName it) []) &&
                                jsstr_eqb (toUpperCase (CartItem.productName it)) K)
                     (Session.cart sample_checkout)))%nat).
Proof.
  cbv zeta.
  assert (H1 : Forall (fun x => 0 <= x < 128) (u "2026-10-15T09:30:00.000Z")).
  { apply Forall_forall. intros x Hx. vm_compute in Hx.
    repeat (destruct Hx as [<-|Hx]; [lia|]). destruct Hx. }
  assert (H2 : fst (fst (handleSubmit (fun _ => u "k9x2m1q0z") (u "2026-10-15T09:30:00.000Z")
     sample_collection sample_checkout)) = NoNotice)
    by (vm_compute; reflexivity).
  split; [exact H1|]. split; [exact H2|].
  apply handleSubmit_report; assumption.
Defined.

(* ------------------------------------------------------------------ *)
(** ** The order of the distribution chart *)

Lemma map_fst_count_name (acc : list (jsstr * Z)) (name : jsstr) :
  map fst (count_name acc name) = set_add (map fst acc) name.
Proof.
  induction acc as [|[k n] r IH]; cbn [count_name map fst]; [reflexivity|].
  unfold set_add, set_has in *. cbn [existsb].
  destruct (jsstr_eqb k name) eqn:E.
  - apply jsstr_eqb_spec in E. subst k.
    rewrite (proj2 (jsstr_eqb_spec name name) eq_refl). reflexivity.
  - cbn [map fst]. rewrite IH.
    replace (jsstr_eqb name k) with false
      by (symmetry; apply jsstr_eqb_false; apply jsstr_eqb_false in E; congruence).
    cbn [orb]. destruct (existsb (jsstr_eqb name) (map fst r)); reflexivity.
Qed.

Lemma keys_fold_distribution (es : list ShippingEntry.t) (acc : list (jsstr * Z)) :
  map fst (fold_left distribution_step es acc) =
  fold_left set_add (map (fun s => toUpperCase (ShippingEntry.productName s)) (filter named es))
            (map fst acc).
Proof.
  revert acc. induction es as [|s es IH]; intros acc; [reflexivity|].
  cbn [fold_left filter]. rewrite IH. unfold distribution_step, named.
  destruct (jsstr_eqb (ShippingEntry.productName s) []); cbn [negb map fold_left]; [reflexivity|].
  rewrite map_fst_count_name. reflexivity.
Qed.

Lemma map_fst_filter (g : jsstr -> bool) (l : list (jsstr * Z)) :
  map fst (filter (fun kv => g (fst kv)) l) = filter g (map fst l).
Proof.
  induction l as [|kv l IH]; cbn [filter map]; [reflexivity|].
  destruct (g (fst kv)); cbn [map]; rewrite IH; reflexivity.
Qed.

Lemma sort_indices_perm (l : list (jsstr * Z)) :
  Permutation (sort_indices l) (filter (fun kv => is_index_key (fst kv)) l).
Proof.
  induction l as [|kv r IH]; cbn [sort_indices filter]; [reflexivity|].
  unfold is_index_key at 1. destruct (array_index_value (fst kv)); [|exact IH].
  eapply perm_trans; [apply insert_index_perm|]. apply perm_skip, IH.
Qed.

Lemma sort_indices_index (l : list (jsstr * Z)) :
  Forall (fun kv => is_index_key (fst kv) = true) (sort_indices l).
Proof.
  apply Forall_forall. intros kv Hkv.
  apply (Permutation_in _ (sort_indices_perm l)), filter_In in Hkv. tauto.
Qed.

Lemma insert_index_sorted (kv : jsstr * Z) (v : Z) (l : list (jsstr * Z)) :
  array_index_value (fst kv) = Some v ->
  Forall (fun y => is_index_key (fst y) = true) l ->
  Sorted index_le l -> Sorted index_le (insert_index kv v l).
Proof.
  intros Hv. induction l as [|y r IH]; intros Hall Hs; cbn [insert_index].
  - repeat constructor.
  - inversion Hall as [|? ? Hy Hr]; subst. unfold is_index_key in Hy.
    destruct (array_index_value (fst y)) as [w|] eqn:Ew; [|discriminate].
    destruct (v <? w) eqn:Hlt.
    + constructor; [exact Hs|]. constructor. unfold index_le. rewrite Hv, Ew.
      apply Z.ltb_lt in Hlt. lia.
    + apply Z.ltb_ge in Hlt. inversion Hs as [|? ? Hs' Hhd]; subst.
      constructor; [apply IH; assumption|].
      destruct r as [|y' r']; cbn [insert_index].
      * constructor. unfold index_le. rewrite Ew, Hv. exact Hlt.
      * inversion Hr as [|? ? Hy' _]; subst. unfold is_index_key in Hy'.
        destruct (array_index_value (fst y')) as [w'|] eqn:Ew'; [|discriminate].
        destruct (v <? w'); constructor; unfold index_le.
        -- rewrite Ew, Hv. exact Hlt.
        -- inversion Hhd; assumption.
Qed.

Lemma sort_indices_sorted (l : list (jsstr * Z)) : Sorted index_le (sort_indices l).
Proof.
  induction l as [|kv r IH]; cbn [sort_indices]; [constructor|].
  destruct (array_index_value (fst kv)) as [v|] eqn:Ev; [|exact IH].
  apply insert_index_sorted; [exact Ev | apply sort_indices_index | exact IH].
Qed.

(** X24. The order of the bars of the distribution chart: the upper-cased
    product names that are array indices ("0", "7", "42", ...) come first,
    in ascending numeric order, whatever the order of the entries; the
    other names follow in the order of their first entry. *)
Theorem distribution_order (c : Collection.t) :
  let keys := set_of_list (map (fun s => toUpperCase (ShippingEntry.productName s))
                               (filter named (Collection.shippingEntries c))) in
  exists P,
    map fst (distribution c) = map fst P ++ filter (fun k => negb (is_index_key k)) keys /\
    Permutation (map fst P) (filter is_index_key keys) /\
    Sorted index_le P.
Proof.
  cbv zeta. unfold distribution, object_values.
  set (A := fold_left distribution_step (Collection.shippingEntries c) []).
  assert (HA : map fst A = set_of_list (map (fun s => toUpperCase (ShippingEntry.productName s))
                               (filter named (Collection.shippingEntries c))))
    by (apply keys_fold_distribution).
  exists (sort_indices A). split; [|split].
  - rewrite map_app. f_equal. rewrite <- HA, <- map_fst_filter. f_equal.
    apply filter_ext. intros kv. unfold is_index_key. destruct (array_index_value (fst kv)); reflexivity.
  - rewrite <- HA, <- map_fst_filter. apply Permutation_map, sort_indices_perm.
  - apply sort_indices_sorted.
Qed.

(* ------------------------------------------------------------------ *)
(** ** Creating a collection and logging into it *)

Lemma find_app {A} (f : A -> bool) (l1 l2 : list A) :
  find f (l1 ++ l2) = match find f l1 with Some x => Some x | None => find f l2 end.
Proof.
  induction l1 as [|x l1 IH]; cbn [app find]; [reflexivity|].
  destruct (f x); [reflexivity | exact IH].
Qed.

Lemma toLowerCase_fixed (s : jsstr) :
  Forall (fun c => lower_cu c = c) s -> toLowerCase s = s.
Proof.
  unfold toLowerCase. induction 1 as [|c s Hc _ IH]; cbn [map]; [reflexivity|].
  rewrite Hc, IH. reflexivity.
Qed.

Lemma Forall_firstn_skipn {A} (P : A -> Prop) (l : list A) (n : nat) :
  Forall P l -> Forall P (firstn n l) /\ Forall P (skipn n l).
Proof.
  revert l. induction n as [|n IH]; intros l H; cbn [firstn skipn]; [split; [constructor | exact H]|].
  destruct H as [|x l Hx Hl]; [split; constructor|].
  destruct (IH l Hl) as [H1 H2]. split; [constructor; assumption | exact H2].
Qed.

(** X25. A code the login denies before a collection is created opens that
    collection afterwards when, once trimmed and lower-cased, it is the new
    access code (the first six characters of a [generateId]); the codes of
    [Math.random().toString(36)] are already lower case. *)
Theorem create_then_login (newCollectionName : jsstr) (ls : Storage) (r1 r2 : jsstr)
    (st : AppState.t) (input : jsstr) :
  trim newCollectionName <> [] ->
  storage_nearly_full ls = false ->
  Forall (fun c => lower_cu c = c) r2 ->
  fst (handleLogin input st) = Denied ->
  toLowerCase (trim input) = firstn 6 (generateId r2) ->
  exists newColl,
    snd (createCollection newCollectionName ls r1 r2 st) =
      AppState.with_collections st (AppState.collections st ++ [newColl]) /\
    Collection.accessCode newColl = firstn 6 (generateId r2) /\
    fst (handleLogin input (snd (createCollection newCollectionName ls r1 r2 st))) =
      AsInfluencer newColl.
Proof.
  intros Hname Hls Hr2 Hden Hcode.
  unfold createCollection.
  replace (jsstr_eqb (trim newCollectionName) []) with false
    by (symmetry; apply jsstr_eqb_false; exact Hname).
  rewrite Hls. cbn [snd].
  eexists. split; [reflexivity|]. split; [reflexivity|].
  unfold handleLogin in *. cbn [AppState.adminAccessCode AppState.collections
    AppState.with_collections] in *.
  destruct (jsstr_eqb (toLowerCase (trim input)) (toLowerCase (AppState.adminAccessCode st)));
    [discriminate Hden|].
  rewrite find_app.
  destruct (find (code_matches (toLowerCase (trim input))) (AppState.collections st));
    [discriminate Hden|].
  cbn [find]. unfold code_matches. cbn [Collection.accessCode].
  replace (jsstr_eqb (toLowerCase (firstn 6 (generateId r2))) (toLowerCase (trim input)))
    with true; [reflexivity|].
  symmetry. apply jsstr_eqb_spec. rewrite Hcode. apply toLowerCase_fixed.
  unfold generateId. apply Forall_firstn_skipn, Forall_firstn_skipn, (Forall_firstn_skipn _ _ 2), Hr2.
Qed.

Lemma create_then_login_witness :
  trim (u " SS27 ") <> [] /\
  storage_nearly_full [] = false /\
  Forall (fun c => lower_cu c = c) (u "0.k3j2h1g0f9") /\
  fst (handleLogin (u " K3J2H1 ") sample_state) = Denied /\
  toLowerCase (trim (u " K3J2H1 ")) = firstn 6 (generateId (u "0.k3j2h1g0f9")) /\
  exists newColl,
    snd (createCollection (u " SS27 ") [] (u "0.x8y7z6w5v4") (u "0.k3j2h1g0f9") sample_state) =
      AppState.with_collections sample_state (AppState.collections sample_state ++ [newColl]) /\
    Collection.accessCode newColl = firstn 6 (generateId (u "0.k3j2h1g0f9")) /\
    fst (handleLogin (u " K3J2H1 ")
           (snd (createCollection (u " SS27 ") [] (u "0.x8y7z6w5v4") (u "0.k3j2h1g0f9")
                                  sample_state))) = AsInfluencer newColl.
Proof.
  assert (H1 : trim (u " SS27 ") <> []) by (vm_compute; discriminate).
  assert (H2 : storage_nearly_full [] = false) by (vm_compute; reflexivity).
  assert (H3 : Forall (fun c => lower_cu c = c) (u "0.k3j2h1g0f9")) by (vm_compute; repeat constructor).
  assert (H4 : fst (handleLogin (u " K3J2H1 ") sample_state) = Denied) by (vm_compute; reflexivity).
  assert (H5 : toLowerCase (trim (u " K3J2H1 ")) = firstn 6 (generateId (u "0.k3j2h1g0f9")))
    by (vm_compute; reflexivity).
  split; [exact H1|]. split; [exact H2|]. split; [exact H3|]. split; [exact H4|].
  split; [exact H5|]. apply create_then_login; assumption.
Defined.
